(** * RHiD-Discord: a shallow embedding of the clock-in bot

    Two Python modules are embedded here:

    - [apps/rhid_runner/automator.py]: the Selenium flow that launches a
      disposable Chrome session, logs in, opens the clock-in page, waits for
      the final button, clicks it (unless in dry-run mode) and tears the
      session down (module [Automator]);
    - [apps/discord-bot/main.py]: the Discord front end with its per-user
      throttle map [recent] and the [asyncio.Lock] that serialises runs
      (module [Bot]).

    Conventions of the embedding.

    - A Python [str] is a list of Unicode code points ([pystr]); literals are
      written as UTF-8 byte strings and decoded by [utf8].
    - [time.time()] values are exact rationals ([Q]); [int(x)] on such a
      value truncates toward zero.
    - The browser, the file system and the clocks are an arbitrary state
      machine (class [Host]): every call of the code on them is answered by
      the host with a value or a Python exception, and is recorded in a trace.
    - [while time.time() < end] loops and Selenium's polling wait are given a
      fuel argument; running out of fuel is a separate outcome ([Diverged])
      that no [except] clause catches.  On a host that keeps time (class
      [Timely]) a run with [fuel_bound] fuel never ends that way.
    - Logging is not modelled, but the arguments of a [log.*] call are
      evaluated before it: the reads of [driver.current_url] that format a
      log line are calls on the browser like any other, and may raise.
    - The front end is a state machine over the steps of the asyncio event
      loop; calls of the Discord API ([send_message], [defer],
      [followup.send]) are taken to succeed.
    - The rendering of a result into a [discord.Embed] is a pure function of
      the result and of the time read by [utcnow()] (module [Render]); the
      date parsing and formatting of the standard library are parameters. *)

From Stdlib Require Import ZArith QArith Qround List String Ascii Lia Lqa Bool.
From stdpp Require Import gmap strings list pretty.

Open Scope Z_scope.

(* ===================================================================== *)
(** * Python strings                                                      *)
(* ===================================================================== *)

Module Py.

(** A [str] is a sequence of code points. *)
Definition pystr := list N.

Definition bytes_of (s : string) : list N :=
  map N_of_ascii (list_ascii_of_string s).

(** UTF-8 decoding of a well-formed byte sequence (the source files are
    UTF-8); an ill-formed tail is dropped. *)
Fixpoint utf8_decode (bs : list N) : pystr :=
  match bs with
  | [] => []
  | b0 :: r =>
    if (b0 <? 128)%N then b0 :: utf8_decode r
    else if (b0 <? 224)%N then
      match r with
      | b1 :: r1 => ((b0 - 192) * 64 + (b1 - 128))%N :: utf8_decode r1
      | _ => []
      end
    else if (b0 <? 240)%N then
      match r with
      | b1 :: b2 :: r2 =>
        ((b0 - 224) * 4096 + (b1 - 128) * 64 + (b2 - 128))%N :: utf8_decode r2
      | _ => []
      end
    else
      match r with
      | b1 :: b2 :: b3 :: r3 =>
        ((b0 - 240) * 262144 + (b1 - 128) * 4096 + (b2 - 128) * 64 + (b3 - 128))%N
          :: utf8_decode r3
      | _ => []
      end
  end.

Definition utf8 (s : string) : pystr := utf8_decode (bytes_of s).

(** [str(n)] for an [int]. *)
Definition str_of_Z (n : Z) : pystr := utf8 (pretty n).

(** [not s] for a string: true exactly on the empty string. *)
Definition py_not (s : pystr) : bool :=
  match s with [] => true | _ => false end.

(** [c.isspace()], the set [str.split()] splits on: the ASCII controls
    TAB..CR and FS..US, the space, NEL, NBSP and the Unicode space
    separators. *)
Definition py_isspace (c : N) : bool :=
  ((9 <=? c) && (c <=? 13) || (28 <=? c) && (c <=? 32)
   || (c =? 133) || (c =? 160) || (c =? 5760)
   || (8192 <=? c) && (c <=? 8202)
   || (c =? 8232) || (c =? 8233) || (c =? 8239) || (c =? 8287)
   || (c =? 12288))%N.

Definition SPACE : N := 32%N.

(** [s.split()]: the maximal runs of non-whitespace characters, in order.
    [cur] is the word being read, reversed. *)
Fixpoint split_go (cur : pystr) (s : pystr) : list pystr :=
  match s with
  | [] => match cur with [] => [] | _ => [rev cur] end
  | c :: s' =>
    if py_isspace c then
      match cur with
      | [] => split_go [] s'
      | _ => rev cur :: split_go [] s'
      end
    else split_go (c :: cur) s'
  end.

Definition py_split (s : pystr) : list pystr := split_go [] s.

(** [sep.join(ws)]. *)
Fixpoint py_join (sep : pystr) (ws : list pystr) : pystr :=
  match ws with
  | [] => []
  | [w] => w
  | w :: ws' => w ++ sep ++ py_join sep ws'
  end.

(** [" ".join(s.split())]. *)
Definition collapse_ws (s : pystr) : pystr := py_join [SPACE] (py_split s).

(** [s[:n]]. *)
Definition py_prefix (n : nat) (s : pystr) : pystr := take n s.

(** [needle in s]. *)
Fixpoint starts_with (p s : pystr) : bool :=
  match p, s with
  | [], _ => true
  | a :: p', b :: s' => (a =? b)%N && starts_with p' s'
  | _ :: _, [] => false
  end.

Fixpoint py_in (needle s : pystr) : bool :=
  starts_with needle s ||
  match s with
  | [] => false
  | _ :: s' => py_in needle s'
  end.

(** [s.strip()]. *)
Fixpoint lstrip (s : pystr) : pystr :=
  match s with
  | c :: s' => if py_isspace c then lstrip s' else s
  | [] => []
  end.

Definition py_strip (s : pystr) : pystr := rev (lstrip (rev (lstrip s))).

(** A string in which every whitespace character is a single space
    followed by a non-whitespace character (or by the end), and which does
    not start with whitespace. *)
Fixpoint single_spaced (s : pystr) : bool :=
  match s with
  | [] => true
  | c :: s' =>
    (if py_isspace c then
       (c =? SPACE)%N
       && match s' with d :: _ => negb (py_isspace d) | [] => true end
     else true)
    && single_spaced s'
  end.

Definition ws_collapsed (s : pystr) : bool :=
  match s with c :: _ => negb (py_isspace c) | [] => true end && single_spaced s.

(** A word of [s.split()]: not empty and free of whitespace. *)
Definition word (w : pystr) : Prop :=
  w <> [] /\ forallb (fun c => negb (py_isspace c)) w = true.

(** [int(x)] for a float [x]: truncation toward zero. *)
Definition py_int (x : Q) : Z := Z.quot (Qnum x) (Z.pos (Qden x)).

(** [a < b] on floats. *)
Definition Qltb (a b : Q) : bool := negb (Qle_bool b a).

End Py.

Import Py.

(* ===================================================================== *)
(** * apps/rhid_runner/automator.py                                       *)
(* ===================================================================== *)

Module Automator.

(** ** Exceptions

    The classes the code tells apart.  Every Selenium exception derives from
    [WebDriverException]; [OtherError] stands for any other subclass of
    [Exception] (OSError, ValueError, ...).  [exn_str] is [str(e)]. *)
Inductive exn_class :=
| TimeoutException
| StaleElementReferenceException
| ElementClickInterceptedException
| ElementNotInteractableException
| SessionNotCreatedException
| NoSuchElementException
| WebDriverException
| RuntimeError
| AssertionError
| OtherError.

Record exn := Exn { exn_cls : exn_class; exn_str : pystr }.

Definition isinstance_WebDriverException (e : exn) : bool :=
  match exn_cls e with
  | RuntimeError | AssertionError | OtherError => false
  | _ => true
  end.

Definition isinstance_of (c : exn_class) (e : exn) : bool :=
  match c, exn_cls e with
  | TimeoutException, TimeoutException
  | StaleElementReferenceException, StaleElementReferenceException
  | ElementClickInterceptedException, ElementClickInterceptedException
  | ElementNotInteractableException, ElementNotInteractableException
  | SessionNotCreatedException, SessionNotCreatedException
  | NoSuchElementException, NoSuchElementException
  | RuntimeError, RuntimeError
  | AssertionError, AssertionError
  | OtherError, OtherError => true
  | WebDriverException, _ => isinstance_WebDriverException e
  | _, _ => false
  end.

(** [str(e)] of a Selenium exception built from a message. *)
Definition selenium_str (msg : pystr) : pystr :=
  utf8 "Message: " ++ msg ++ [10%N].

(** ** Configuration (the module-level constants read from the environment) *)
Record config := {
  HEADLESS : bool;
  TIMEOUT_SECONDS : Z;
  POST_LOGIN_SELECTOR : pystr;
  CHROME_BINARY : pystr;
  PUNCH_DRY_RUN : bool;
  SCREENSHOT_ON_ERROR : bool;
  CHROME_USER_DATA_BASE : pystr;
  RHID_USE_USER_DATA : bool;
  COMPANY_LAT : option pystr;
  COMPANY_LON : option pystr
}.

(** [os.environ] as read at call time by [run_rhid_punch] and [_login]. *)
Abbreviation environ := (gmap string pystr).

(** ** The browser and the host *)
Inductive By := By_ID | By_CSS_SELECTOR | By_XPATH.
Definition locator : Type := By * pystr.

#[global] Instance By_eq_dec : EqDecision By.
Proof. solve_decision. Defined.

#[global] Instance locator_eq_dec : EqDecision locator.
Proof. unfold locator. apply _. Defined.
Definition element := N.

Inductive expected_condition :=
| presence_of_element_located
| visibility_of_element_located
| element_to_be_clickable.

Record rect := { rect_x : Z; rect_y : Z; rect_w : Q; rect_h : Q }.

(** Calls on the driver session and its elements.  [wait_until_EC t ec loc]
    is [WebDriverWait(driver, t).until(EC.ec(loc))]. *)
Inductive dcall : Type -> Type :=
| driver_get (url : pystr) : dcall unit
| document_readyState : dcall pystr
| current_url : dcall (option pystr)
| page_source : dcall (option pystr)
| find_element (loc : locator) : dcall element
| find_elements (loc : locator) : dcall (list element)
| wait_until_EC (timeout : Q) (ec : expected_condition) (loc : locator) : dcall element
| el_click (el : element) : dcall unit
| el_clear (el : element) : dcall unit
| el_send_keys (el : element) (text : pystr) : dcall unit
| el_is_displayed (el : element) : dcall bool
| el_is_enabled (el : element) : dcall bool
| el_get_attribute (el : element) (name : pystr) : dcall (option pystr)
| el_value_of_css_property (el : element) (name : pystr) : dcall pystr
| js_scrollIntoView (el : element) : dcall unit
| js_set_value (el : element) (text : pystr) : dcall unit
| js_center_rect (el : element) : dcall rect
| js_point_hits (x y : Z) (el : element) : dcall bool
| actions_move_with_offset (el : element) (dx dy : Z) : dcall unit
| actions_click (el : element) : dcall unit
| js_click (el : element) : dcall unit
| save_screenshot (path : pystr) : dcall bool
| driver_quit : dcall unit.

Record chrome_options := {
  arguments : list pystr;
  binary_location : option pystr
}.

(** Calls on the host outside the session. *)
Inductive scall : Type -> Type :=
| mkdtemp (prefix dir : pystr) : scall pystr
| rmtree (d : pystr) : scall unit
| path_exists (p : pystr) : scall bool
| chromedriver_install : scall pystr
| webdriver_Chrome (driver_path : pystr) (opts : chrome_options) : scall N.

(** The host: an arbitrary state machine answering the calls.  The clocks
    and [time.sleep] never raise; [mkdtemp], when it returns, returns the
    path of the directory it created, which is not the empty string. *)
Class Host (W : Type) := {
  time_time : W -> Q * W;
  time_monotonic : W -> Q * W;
  time_sleep : Q -> W -> W;
  utc_now : W -> Q * W;
  now_human : W -> pystr * W;
  str_lower : pystr -> pystr;
  fmt_1f : Q -> pystr;
  isoformat : Q -> pystr;
  drv : forall A, dcall A -> W -> (exn + A) * W;
  sys : forall A, scall A -> W -> (exn + A) * W;
  mkdtemp_nonempty : forall prefix dir w p w',
    sys _ (mkdtemp prefix dir) w = (inr p, w') -> p <> []
}.

(** ** Traces *)
Inductive devent :=
| DCall {A} (c : dcall A) (r : exn + A)
| DSleep (d : Q).

Inductive event :=
| Low (e : devent)
| SCall {A} (c : scall A) (r : exn + A).

(** ** The monad of the embedding: host state, exceptions, fuel, trace *)
Inductive outcome (A : Type) :=
| Ok (a : A)
| Raise (e : exn)
| Diverged.
Arguments Ok {A} a.
Arguments Raise {A} e.
Arguments Diverged {A}.

Definition M (W E A : Type) : Type := W -> outcome A * W * list E.

Definition ret {W E A} (a : A) : M W E A := fun w => (Ok a, w, []).
Definition raise {W E A} (e : exn) : M W E A := fun w => (Raise e, w, []).
Definition diverge {W E A} : M W E A := fun w => (Diverged, w, []).

Definition bind {W E A B} (m : M W E A) (k : A -> M W E B) : M W E B :=
  fun w =>
    match m w with
    | (Ok a, w1, t1) =>
      match k a w1 with (r, w2, t2) => (r, w2, t1 ++ t2) end
    | (Raise e, w1, t1) => (Raise e, w1, t1)
    | (Diverged, w1, t1) => (Diverged, w1, t1)
    end.

(** [try: m  except Exception as e: h e]; a handler picks its classes and
    re-raises the others. *)
Definition try_except {W E A} (m : M W E A) (h : exn -> M W E A) : M W E A :=
  fun w =>
    match m w with
    | (Raise e, w1, t1) =>
      match h e w1 with (r, w2, t2) => (r, w2, t1 ++ t2) end
    | r => r
    end.

(** [try: m  finally: f]. *)
Definition try_finally {W E A} (m : M W E A) (f : M W E unit) : M W E A :=
  fun w =>
    match m w with
    | (Diverged, w1, t1) => (Diverged, w1, t1)
    | (r, w1, t1) =>
      match f w1 with
      | (Ok _, w2, t2) => (r, w2, t1 ++ t2)
      | (Raise e, w2, t2) => (Raise e, w2, t1 ++ t2)
      | (Diverged, w2, t2) => (Diverged, w2, t1 ++ t2)
      end
    end.

(** A driver-level computation run inside a host-level one. *)
Definition lift {W A} (m : M W devent A) : M W event A :=
  fun w => match m w with (r, w1, t1) => (r, w1, map Low t1) end.

Declare Scope py_scope.
Delimit Scope py_scope with py.
Notation "x <- m ;; k" := (bind m (fun x => k))
  (at level 100, m at next level, k at level 200, right associativity) : py_scope.
Notation "m ;; k" := (bind m (fun _ => k))
  (at level 100, k at level 200, right associativity) : py_scope.
Open Scope py_scope.

(** ** Selectors *)
Definition EMAIL_SELECTORS : list locator :=
  [ (By_ID, utf8 "email");
    (By_CSS_SELECTOR, utf8 "input#email.form-control.m-input") ].
Definition PASSWORD_SELECTORS : list locator :=
  [ (By_ID, utf8 "password");
    (By_CSS_SELECTOR, utf8 "input#password.form-control.m-input") ].
Definition LOGIN_BTN_SELECTORS : list locator :=
  [ (By_XPATH, utf8 "//button[normalize-space()='Entrar']");
    (By_CSS_SELECTOR, utf8 "button[type='submit']");
    (By_CSS_SELECTOR, utf8 "button.btn.m-btn.m-btn--custom") ].
Definition OVERLAY_SELECTORS : list pystr :=
  map utf8
    [ ".swal2-container"; ".swal2-shown"; ".modal.in"; ".modal-backdrop";
      ".blockUI"; ".block-overlay"; ".loading"; ".spinner"; ".overlay" ]%string.

Definition dash_btns : list locator :=
  [ (By_XPATH, utf8 "//button[contains(@ng-click,'marcacao_ponto') and contains(normalize-space(.),'Registrar Ponto')]");
    (By_XPATH, utf8 "//button[contains(@ng-click,'redirect') and contains(normalize-space(.),'Registrar Ponto')]");
    (By_XPATH, utf8 "//button[contains(normalize-space(.),'Registrar Ponto') and contains(@class,'btn-primary')]") ].

Definition final_locators : list locator :=
  [ (By_XPATH, utf8 "//button[contains(@ng-click,'registraPonto') and contains(normalize-space(.),'Registrar Ponto')]");
    (By_XPATH, utf8 "//div[contains(.,'Registre seu ponto') or contains(.,'2 - Registre seu ponto')]//button[contains(normalize-space(.),'Registrar Ponto')]");
    (By_XPATH, utf8 "//button[contains(normalize-space(.),'Registrar Ponto') and contains(@class,'btn-primary')]");
    (By_XPATH, utf8 "//button[contains(normalize-space(.),'Registrar Ponto')]") ].

Definition confirmation_css : locator :=
  (By_CSS_SELECTOR, utf8 "#modalPontoRegistrado, .swal2-popup, .toast, .alert-success").
Definition confirmation_text_xpath : locator :=
  (By_XPATH,
   utf8 "//*[contains(translate(., 'ABCDEFGHIJKLMNOPQRSTUVWXYZ', 'abcdefghijklmnopqrstuvwxyz'), 'registrado') or "
   ++ utf8 "contains(translate(., 'ABCDEFGHIJKLMNOPQRSTUVWXYZ', 'abcdefghijklmnopqrstuvwxyz'), 'realizado') or "
   ++ utf8 "contains(translate(., 'ABCDEFGHIJKLMNOPQRSTUVWXYZ', 'abcdefghijklmnopqrstuvwxyz'), 'sucesso')]").

(** ** Messages *)
Definition MSG_NO_FINAL_BUTTON : pystr :=
  utf8 "Não encontrei o botão final 'Registrar Ponto'. HTML compacto: ".
Definition MSG_NOT_ENABLED : pystr :=
  utf8 "Botão FINAL não habilitou dentro do timeout. Verifique geolocalização/permite GPS.".
Definition MSG_DRY_RUN : pystr :=
  utf8 "DRY RUN: cheguei ao botão final habilitado; clique final não executado.".
Definition MSG_REGISTERED : pystr := utf8 "Ponto registrado.".
Definition MSG_NO_CREDENTIALS : pystr :=
  utf8 "Credenciais RHID não configuradas (RHID_EMAIL/RHID_PASSWORD).".
Definition MSG_NO_URL : pystr :=
  utf8 "Defina RHID_URL (ou RHID_LOGIN_URL) no .env para a página de login.".
Definition MSG_FAIL : pystr := utf8 "Falha ao registrar ponto: ".
Definition MSG_NO_HTML : pystr := utf8 "<no html>".

(** ** The result payload *)
Record field := { f_name : pystr; f_value : pystr; f_inline : bool }.
Record embed := {
  title : pystr;
  description : pystr;
  color : Z;
  fields : list field;
  footer_text : pystr;
  timestamp : pystr
}.
Record payload := {
  content : pystr;
  embeds : list embed;
  maps_url : option pystr
}.

(** The driver object: its session and the [_tmp_dirs] attribute that
    [_build_driver] sets on it. *)
Record driver := { session : N; _tmp_dirs : list pystr }.

Section Flows.
Context {W : Type} {HW : Host W}.
Variable cfg : config.
Variable env : environ.

Local Abbreviation MD := (M W devent).
Local Abbreviation MS := (M W event).

(** *** Primitive steps *)
Definition call {A} (c : dcall A) : MD A := fun w =>
  match drv A c w with
  | (inl e, w') => (Raise e, w', [DCall c (inl e)])
  | (inr a, w') => (Ok a, w', [DCall c (inr a)])
  end.

Definition sleep (d : Q) : MD unit :=
  fun w => (Ok tt, time_sleep d w, [DSleep d]).

Definition now : MD Q :=
  fun w => match time_time w with (t, w') => (Ok t, w', []) end.

Definition monotonic : MD Q :=
  fun w => match time_monotonic w with (t, w') => (Ok t, w', []) end.

Definition syscall {A} (c : scall A) : MS A := fun w =>
  match sys A c w with
  | (inl e, w') => (Raise e, w', [SCall c (inl e)])
  | (inr a, w') => (Ok a, w', [SCall c (inr a)])
  end.

Definition TIMEOUT : Q := inject_Z (TIMEOUT_SECONDS cfg).

(** Selenium's [WebDriverWait(driver, timeout).until(method)] for a
    [method] written in this repository: call it, return what it returns
    when that is truthy, ignore [NoSuchElementException], sleep the poll
    interval of half a second, and raise [TimeoutException] once the
    monotonic clock is past the deadline. *)
Fixpoint until_loop {A} (fuel : nat) (end_time : Q) (method : MD (option A)) : MD A :=
  match fuel with
  | O => diverge
  | S fuel' =>
    v <- try_except method
           (fun e => if isinstance_of NoSuchElementException e then ret None else raise e) ;;
    match v with
    | Some a => ret a
    | None =>
      sleep (1#2) ;;
      t <- monotonic ;;
      if Qltb end_time t then raise (Exn TimeoutException (selenium_str []))
      else until_loop fuel' end_time method
    end
  end.

Definition WebDriverWait_until {A} (fuel : nat) (timeout : Q) (method : MD (option A)) : MD A :=
  t0 <- monotonic ;;
  until_loop fuel (t0 + timeout)%Q method.

Definition truthy (b : bool) : option unit := if b then Some tt else None.

(** *** Helpers *)
Definition _dump_small_html (max_len : nat) : MD pystr :=
  try_except
    (src <- call page_source ;;
     let html := default [] src in
     let compact := collapse_ws html in
     ret (py_prefix max_len compact))
    (fun _ => ret MSG_NO_HTML).

Definition _screenshot : MD unit :=
  if negb (SCREENSHOT_ON_ERROR cfg) then ret tt
  else try_except (call (save_screenshot (utf8 "/tmp/rhid-last.png")) ;; ret tt)
                  (fun _ => ret tt).

Definition wait_dom_ready (fuel : nat) (timeout : Q) : MD unit :=
  WebDriverWait_until fuel timeout
    (s <- call document_readyState ;;
     ret (truthy (bool_decide (s = utf8 "interactive") || bool_decide (s = utf8 "complete")))).

Definition wait_visible (loc : locator) (timeout : Q) : MD element :=
  call (wait_until_EC timeout visibility_of_element_located loc).

Fixpoint find_first_visible_from (last_exc : option exn) (locators : list locator)
    (timeout_each : Q) : MD element :=
  match locators with
  | [] =>
    match last_exc with
    | Some e => raise e
    | None => raise (Exn TimeoutException
                         (selenium_str (utf8 "Nenhum seletor visível encontrado.")))
    end
  | loc :: rest =>
    try_except (wait_visible loc timeout_each)
      (fun e => find_first_visible_from (Some e) rest timeout_each)
  end.

Definition find_first_visible := find_first_visible_from None.

Definition maybe_already_logged : MD bool :=
  if py_not (POST_LOGIN_SELECTOR cfg) then ret false
  else
    try_except
      (call (wait_until_EC 3 presence_of_element_located
               (By_CSS_SELECTOR, POST_LOGIN_SELECTOR cfg)) ;;
       ret true)
      (fun _ => ret false).

(** One pass of the [for _ in range(attempts)] loop of [type_with_retry];
    [inr tt] is the function's [return], [inl last_exc] leaves the loop. *)
Definition type_attempt (locator : locator) (text : pystr) (timeout_each : Q) : MD unit :=
  el <- call (wait_until_EC timeout_each element_to_be_clickable locator) ;;
  el <- try_except
          (call (el_click el) ;; sleep (1#20) ;; call (el_clear el) ;; ret el)
          (fun e =>
             if isinstance_of StaleElementReferenceException e then
               el <- call (wait_until_EC timeout_each element_to_be_clickable locator) ;;
               call (el_click el) ;; sleep (1#20) ;; call (el_clear el) ;; ret el
             else raise e) ;;
  call (el_send_keys el text).

Fixpoint type_loop (attempts : nat) (last_exc : option exn) (locator : locator)
    (text : pystr) (timeout_each : Q) : MD (option exn + unit) :=
  match attempts with
  | O => ret (inl last_exc)
  | S n =>
    try_except (type_attempt locator text timeout_each ;; ret (inr tt))
      (fun e =>
         if isinstance_of StaleElementReferenceException e then
           sleep (1#5) ;; type_loop n (Some e) locator text timeout_each
         else ret (inl (Some e)))
  end.

Definition type_with_retry (locator : locator) (text : pystr)
    (attempts : nat) (timeout_each : Q) : MD unit :=
  r <- type_loop attempts None locator text timeout_each ;;
  match r with
  | inr _ => ret tt
  | inl last_exc =>
    try_except
      (el <- call (wait_until_EC timeout_each presence_of_element_located locator) ;;
       call (js_set_value el text))
      (fun e => raise (default e last_exc))
  end.

(** *** Overlays and the robust click *)
Fixpoint any_displayed (nodes : list element) : MD bool :=
  match nodes with
  | [] => ret false
  | n :: rest =>
    disp <- call (el_is_displayed n) ;;
    if disp then
      vis <- call (el_value_of_css_property n (utf8 "visibility")) ;;
      if bool_decide (vis <> utf8 "hidden") then ret true else any_displayed rest
    else any_displayed rest
  end.

Fixpoint overlay_present (sels : list pystr) : MD bool :=
  match sels with
  | [] => ret false
  | sel :: rest =>
    nodes <- call (find_elements (By_CSS_SELECTOR, sel)) ;;
    present <- any_displayed nodes ;;
    if present then ret true else overlay_present rest
  end.

Fixpoint wait_no_overlays_loop (fuel : nat) (end_ : Q) : MD unit :=
  match fuel with
  | O => diverge
  | S fuel' =>
    t <- now ;;
    if Qltb t end_ then
      clear <- try_except (present <- overlay_present OVERLAY_SELECTORS ;; ret (negb present))
                 (fun _ => ret false) ;;
      if clear then ret tt
      else sleep (3#20) ;; wait_no_overlays_loop fuel' end_
    else ret tt
  end.

Definition _wait_no_overlays (fuel : nat) (timeout : Q) : MD unit :=
  t <- now ;;
  wait_no_overlays_loop fuel (t + timeout)%Q.

Definition _point_hits_element (el : element) : MD bool :=
  try_except
    (r <- call (js_center_rect el) ;;
     if Qle_bool (rect_w r) 0 || Qle_bool (rect_h r) 0 then ret false
     else call (js_point_hits (rect_x r) (rect_y r) el))
    (fun _ => ret false).

(** How one pass of the [while] loop of [robust_click] ends: the function
    returns, the pass is cut short by [continue], or it reaches the
    [time.sleep(0.2)] at the bottom with the exception remembered so far. *)
Inductive click_pass_end :=
| PassReturn
| PassContinue
| PassBottom (last_exc : option exn).

Definition robust_click_pass (fuel : nat) (el : element) : MD click_pass_end :=
  try_except
    (call (js_scrollIntoView el) ;;
     _wait_no_overlays fuel 2 ;;
     sleep (1#20) ;;
     displayed <- call (el_is_displayed el) ;;
     enabled <- (if displayed then call (el_is_enabled el) else ret false) ;;
     if negb displayed || negb enabled then sleep (1#5) ;; ret PassContinue
     else
       hits <- _point_hits_element el ;;
       obscured <-
         (if hits then ret false
          else
            call (actions_move_with_offset el 1 1) ;;
            sleep (1#10) ;;
            hits2 <- _point_hits_element el ;;
            ret (negb hits2)) ;;
       if (obscured : bool) then sleep (3#20) ;; ret PassContinue
       else
         r1 <- try_except (call (el_click el) ;; ret None)
                 (fun e =>
                    if isinstance_of ElementClickInterceptedException e
                       || isinstance_of ElementNotInteractableException e
                    then ret (Some e) else raise e) ;;
         match r1 with
         | None => ret PassReturn
         | Some e1 =>
           r2 <- try_except (call (actions_click el) ;; ret None) (fun e => ret (Some e)) ;;
           match r2 with
           | None => ret PassReturn
           | Some e2 =>
             r3 <- try_except (call (js_click el) ;; ret None) (fun e => ret (Some e)) ;;
             match r3 with
             | None => ret PassReturn
             | Some e3 => ret (PassBottom (Some e3))
             end
           end
         end)
    (fun e => ret (PassBottom (Some e))).

Fixpoint robust_click_loop (fuel : nat) (end_ : Q) (last_exc : option exn)
    (el : element) : MD unit :=
  match fuel with
  | O => diverge
  | S fuel' =>
    t <- now ;;
    if Qltb t end_ then
      r <- robust_click_pass fuel' el ;;
      match r with
      | PassReturn => ret tt
      | PassContinue => robust_click_loop fuel' end_ last_exc el
      | PassBottom last_exc' => sleep (1#5) ;; robust_click_loop fuel' end_ last_exc' el
      end
    else
      raise (default
               (Exn ElementNotInteractableException
                    (selenium_str (utf8 "Não foi possível clicar no elemento dentro do timeout.")))
               last_exc)
  end.

Definition robust_click (fuel : nat) (el : element) (timeout : Q) : MD unit :=
  t <- now ;;
  robust_click_loop fuel (t + timeout)%Q None el.

(** *** click_with_retry *)
Fixpoint click_pass (locators : list locator) (last_exc : option exn)
    (timeout_each : Q) : MD (option exn + unit) :=
  match locators with
  | [] => ret (inl last_exc)
  | loc :: rest =>
    try_except
      (el <- call (wait_until_EC timeout_each element_to_be_clickable loc) ;;
       call (js_scrollIntoView el) ;;
       sleep (1#20) ;;
       call (el_click el) ;;
       ret (inr tt))
      (fun e =>
         if isinstance_of StaleElementReferenceException e
            || isinstance_of ElementClickInterceptedException e
         then sleep (1#5) ;; click_pass rest (Some e) timeout_each
         else click_pass rest (Some e) timeout_each)
  end.

Fixpoint click_attempts (attempts : nat) (locators : list locator)
    (last_exc : option exn) (timeout_each : Q) : MD (option exn + unit) :=
  match attempts with
  | O => ret (inl last_exc)
  | S n =>
    r <- click_pass locators last_exc timeout_each ;;
    match r with
    | inr _ => ret (inr tt)
    | inl last_exc' => click_attempts n locators last_exc' timeout_each
    end
  end.

Definition click_with_retry (locators : list locator) (attempts : nat)
    (timeout_each : Q) : MD unit :=
  r <- click_attempts attempts locators None timeout_each ;;
  match r with
  | inr _ => ret tt
  | inl last_exc =>
    raise (default
             (Exn RuntimeError
                  (utf8 "Falha ao clicar no elemento após múltiplas tentativas."))
             last_exc)
  end.

(** *** _login *)
Definition post_login_probe : MD (option unit) :=
  url <- call current_url ;;
  if py_in (utf8 "#/dashboard") (str_lower (default [] url)) then ret (Some tt)
  else
    found <- call (find_elements
                     (By_XPATH, utf8 "//button[contains(@ng-click,'marcacao_ponto') and contains(normalize-space(.),'Registrar Ponto')]")) ;;
    ret (truthy (negb (bool_decide (found = [])))).

(** [os.environ.get(a) or os.environ.get(b)]. *)
Definition environ_get_or (a b : string) : option pystr :=
  match env !! a with
  | Some v => if py_not v then env !! b else Some v
  | None => env !! b
  end.

Definition _login (fuel : nat) (email senha : pystr) : MD unit :=
  match environ_get_or "RHID_LOGIN_URL" "RHID_URL" with
  | None => raise (Exn RuntimeError MSG_NO_URL)
  | Some url =>
    if py_not url then raise (Exn RuntimeError MSG_NO_URL)
    else
      call (driver_get url) ;;
      wait_dom_ready fuel TIMEOUT ;;
      sleep (1#2) ;;
      logged <- maybe_already_logged ;;
      if logged then call current_url ;; ret tt
      else
        find_first_visible EMAIL_SELECTORS 10 ;;
        find_first_visible PASSWORD_SELECTORS 10 ;;
        find_first_visible LOGIN_BTN_SELECTORS 10 ;;
        type_with_retry (By_ID, utf8 "email") email 3 10 ;;
        type_with_retry (By_ID, utf8 "password") senha 3 10 ;;
        click_with_retry LOGIN_BTN_SELECTORS 3 10 ;;
        try_except
          (WebDriverWait_until fuel TIMEOUT post_login_probe ;;
           call current_url ;;
           ret tt)
          (fun e =>
             if isinstance_of TimeoutException e then call current_url ;; ret tt
             else raise e)
  end.

(** *** _registrar_ponto *)
Definition _wait_url_contains (fuel : nat) (needle : pystr) (timeout : Q) : MD bool :=
  try_except
    (WebDriverWait_until fuel timeout
       (url <- call current_url ;;
        ret (truthy (py_in (str_lower needle) (str_lower (default [] url))))) ;;
     call current_url ;;
     ret true)
    (fun e =>
       if isinstance_of TimeoutException e then call current_url ;; ret false
       else raise e).

Definition _visible_or_none (loc : locator) (t : Q) : MD (option element) :=
  try_except
    (el <- call (wait_until_EC t visibility_of_element_located loc) ;; ret (Some el))
    (fun _ => ret None).

Fixpoint first_dash_btn (locs : list locator) : MD (option element) :=
  match locs with
  | [] => ret None
  | loc :: rest =>
    el <- _visible_or_none loc 6 ;;
    match el with
    | Some e => ret (Some e)
    | None => first_dash_btn rest
    end
  end.

(** ETAPA 1: the dashboard button, best effort. *)
Definition dashboard_stage : MD unit :=
  dash_btn <- first_dash_btn dash_btns ;;
  match dash_btn with
  | Some b =>
    try_except
      (call (js_scrollIntoView b) ;; sleep (1#20) ;; call (el_click b))
      (fun _ => click_with_retry dash_btns 2 6)
  | None => call current_url ;; ret tt
  end.

(** One sweep of [final_locators] with a 2-second presence wait each. *)
Fixpoint first_present (locs : list locator) : MD (option element) :=
  match locs with
  | [] => ret None
  | loc :: rest =>
    try_except
      (el <- call (wait_until_EC 2 presence_of_element_located loc) ;; ret (Some el))
      (fun _ => first_present rest)
  end.

(** [while time.time() < deadline and final_btn is None]. *)
Fixpoint locate_final (fuel : nat) (deadline : Q) : MD (option element) :=
  match fuel with
  | O => diverge
  | S fuel' =>
    t <- now ;;
    if Qltb t deadline then
      r <- first_present final_locators ;;
      match r with
      | Some el => _ <- now ;; ret (Some el)
      | None => sleep (3#10) ;; locate_final fuel' deadline
      end
    else ret None
  end.

(** [driver.find_element] over a locator list, first hit wins. *)
Fixpoint find_first (locs : list locator) : MD (option element) :=
  match locs with
  | [] => ret None
  | loc :: rest =>
    try_except (el <- call (find_element loc) ;; ret (Some el))
      (fun _ => find_first rest)
  end.

Definition _enabled : MD bool :=
  try_except
    (btn <- find_first final_locators ;;
     match btn with
     | None => ret false
     | Some b =>
       disabled_attr <- call (el_get_attribute b (utf8 "disabled")) ;;
       enabled <- call (el_is_enabled b) ;;
       ret (enabled && bool_decide (disabled_attr = None))
     end)
    (fun e => if isinstance_of StaleElementReferenceException e then ret false else raise e).

Definition wait_enabled (fuel : nat) : MD unit :=
  try_except
    (WebDriverWait_until fuel TIMEOUT (b <- _enabled ;; ret (truthy b)))
    (fun e =>
       if isinstance_of TimeoutException e then
         _screenshot ;; raise (Exn RuntimeError MSG_NOT_ENABLED)
       else raise e).

(** The flow up to the search for the final button: [None] when the
    deadline passed without any locator matching. *)
Definition find_final_button (fuel : nat) : MD (option element) :=
  dashboard_stage ;;
  _wait_url_contains fuel (utf8 "#/marcacao_ponto") TIMEOUT ;;
  t <- now ;;
  locate_final fuel (t + TIMEOUT)%Q.

Definition final_button_missing {A} : MD A :=
  html <- _dump_small_html 2000 ;;
  _screenshot ;;
  raise (Exn RuntimeError (MSG_NO_FINAL_BUTTON ++ py_prefix 800 html)).

(** The flow up to the point where the final button is present and
    enabled. *)
Definition reach_enabled_final (fuel : nat) : MD element :=
  final_btn <- find_final_button fuel ;;
  match final_btn with
  | None => final_button_missing
  | Some b => wait_enabled fuel ;; ret b
  end.

(** The fallback of the final click: [for by, sel in final_locators] whose
    body ends in [break], so only the first locator is ever tried. *)
Definition fallback_click (fuel : nat) (locs : list locator) : MD unit :=
  match locs with
  | [] => ret tt
  | loc :: _ =>
    el <- call (wait_until_EC 3 presence_of_element_located loc) ;;
    robust_click fuel el 6
  end.

(** 2.3: the final click. *)
Definition click_final (fuel : nat) (final_btn : element) : MD unit :=
  try_except
    (fresh <- find_first final_locators ;;
     robust_click fuel (default final_btn fresh) 10)
    (fun _ =>
       try_except (fallback_click fuel final_locators)
         (fun e => _screenshot ;; raise e)).

Definition confirmation : MD unit :=
  try_except
    (call (wait_until_EC 8 presence_of_element_located confirmation_css) ;; ret tt)
    (fun e =>
       if isinstance_of TimeoutException e then
         try_except
           (call (wait_until_EC 6 presence_of_element_located confirmation_text_xpath) ;;
            ret tt)
           (fun e' => if isinstance_of TimeoutException e' then ret tt else raise e')
       else raise e).

Definition _registrar_ponto (fuel : nat) : MD pystr :=
  final_btn <- reach_enabled_final fuel ;;
  if PUNCH_DRY_RUN cfg then call current_url ;; ret MSG_DRY_RUN
  else
    click_final fuel final_btn ;;
    confirmation ;;
    ret MSG_REGISTERED.

(** *** The Chrome session *)
Definition _mktemp_under_base (prefix : pystr) : MS pystr :=
  syscall (mkdtemp prefix (CHROME_USER_DATA_BASE cfg)).

Fixpoint _cleanup_tmp_list (paths : list pystr) : MS unit :=
  match paths with
  | [] => ret tt
  | d :: rest =>
    try_except (syscall (rmtree d)) (fun _ => ret tt) ;;
    _cleanup_tmp_list rest
  end.

Definition _make_chrome_options (data_path cache_dir : pystr)
    (user_data_dir : option pystr) : MS chrome_options :=
  let args :=
    (if HEADLESS cfg then [utf8 "--headless=new"] else [])
    ++ map utf8 [ "--no-sandbox"; "--disable-dev-shm-usage"; "--disable-gpu";
                  "--disable-extensions"; "--disable-infobars";
                  "--disable-notifications"; "--window-size=1280,960";
                  "--incognito"; "--guest" ]%string
    ++ [ utf8 "--data-path=" ++ data_path;
         utf8 "--disk-cache-dir=" ++ cache_dir ]
    ++ match user_data_dir with
       | Some u =>
         if RHID_USE_USER_DATA cfg && negb (py_not u)
         then [ utf8 "--user-data-dir=" ++ u; utf8 "--profile-directory=Default" ]
         else []
       | None => []
       end
    ++ map utf8 [ "--remote-debugging-port=0"; "--no-first-run";
                  "--no-default-browser-check"; "--disable-background-networking";
                  "--disable-features=TranslateUI,AutomationControlled";
                  "--disable-client-side-phishing-detection";
                  "--disable-component-update"; "--disable-default-apps";
                  "--disable-sync"; "--metrics-recording-only";
                  "--password-store=basic"; "--use-mock-keychain" ]%string in
  if py_not (CHROME_BINARY cfg) then
    ret {| arguments := args; binary_location := None |}
  else
    found <- syscall (path_exists (CHROME_BINARY cfg)) ;;
    ret {| arguments := args;
           binary_location := if found then Some (CHROME_BINARY cfg) else None |}.

Definition tmp_dirs := (pystr * pystr * option pystr)%type.

(** [[data_path, cache_dir] + ([user_data_dir] if user_data_dir else [])]. *)
Definition dirs_list (dirs : tmp_dirs) : list pystr :=
  match dirs with
  | (data_path, cache_dir, user_data_dir) =>
    [data_path; cache_dir]
    ++ match user_data_dir with
       | Some u => if py_not u then [] else [u]
       | None => []
       end
  end.

(** The three [_mktemp_under_base] lines, as they stand both before the
    loop and in the retry branch. *)
Definition alloc_dirs : MS tmp_dirs :=
  data_path <- _mktemp_under_base (utf8 "data-") ;;
  cache_dir <- _mktemp_under_base (utf8 "cache-") ;;
  user_data_dir <-
    (if RHID_USE_USER_DATA cfg
     then p <- _mktemp_under_base (utf8 "profile-") ;; ret (Some p)
     else ret None) ;;
  ret (data_path, cache_dir, user_data_dir).

(** The body of the [try] of one attempt. *)
Definition launch (dirs : tmp_dirs) : MS driver :=
  match dirs with
  | (data_path, cache_dir, user_data_dir) =>
    opts <- _make_chrome_options data_path cache_dir user_data_dir ;;
    driver_path <- syscall chromedriver_install ;;
    s <- syscall (webdriver_Chrome driver_path opts) ;;
    ret {| session := s; _tmp_dirs := dirs_list dirs |}
  end.

(** [assert last_err is not None; raise last_err]. *)
Definition raise_last {A} (last_err : option exn) : MS A :=
  match last_err with
  | Some e => raise e
  | None => raise (Exn AssertionError [])
  end.

Definition BACKOFF : Q := 4#5.

(** [for attempt in (1, 2)]. *)
Fixpoint build_attempts (attempts : list Z) (dirs : tmp_dirs)
    (last_err : option exn) : MS driver :=
  match attempts with
  | [] => raise_last last_err
  | _ :: rest =>
    try_except (launch dirs)
      (fun e =>
         if isinstance_WebDriverException e then
           _cleanup_tmp_list (dirs_list dirs) ;;
           dirs' <- alloc_dirs ;;
           lift (sleep BACKOFF) ;;
           build_attempts rest dirs' (Some e)
         else
           _cleanup_tmp_list (dirs_list dirs) ;;
           raise_last (Some e))
  end.

Definition _build_driver : MS driver :=
  dirs <- alloc_dirs ;;
  build_attempts [1; 2] dirs None.

(** *** Result assembly *)
Definition utcnow : MS Q :=
  fun w => match utc_now w with (t, w') => (Ok t, w', []) end.

Definition _now_human : MS pystr :=
  fun w => match now_human w with (s, w') => (Ok s, w', []) end.

Definition _location_human : pystr * option pystr :=
  match COMPANY_LAT cfg, COMPANY_LON cfg with
  | Some lat0, Some lon0 =>
    if py_not lat0 || py_not lon0 then (utf8 "Indefinida", None)
    else
      let lat := py_strip lat0 in
      let lon := py_strip lon0 in
      let maps := utf8 "https://maps.google.com/?q=" ++ lat ++ utf8 "," ++ lon in
      (lat ++ utf8 ", " ++ lon ++ utf8 " (Empresa)", Some maps)
  | _, _ => (utf8 "Indefinida", None)
  end.

Definition build_payload (trigger rhid_email resultado hora took_s ts : pystr) : payload :=
  let '(loc_str, maps_link) := _location_human in
  let modo := if PUNCH_DRY_RUN cfg then utf8 "DRY RUN (simulação)" else utf8 "Produção" in
  let etapas := utf8 "login → dashboard → marcação → botão final habilitado ✔" in
  let maps_md :=
    match maps_link with
    | Some m => if py_not m then [] else utf8 " • [Abrir no Maps](" ++ m ++ utf8 ")"
    | None => []
    end in
  let fields :=
    [ {| f_name := utf8 "Horário"; f_value := hora; f_inline := true |};
      {| f_name := utf8 "Modo"; f_value := modo; f_inline := true |};
      {| f_name := utf8 "E-mail"; f_value := utf8 "`" ++ rhid_email ++ utf8 "`";
         f_inline := false |};
      {| f_name := utf8 "Localização"; f_value := loc_str ++ maps_md; f_inline := false |};
      {| f_name := utf8 "Etapas"; f_value := etapas; f_inline := false |};
      {| f_name := utf8 "Resultado"; f_value := resultado; f_inline := false |};
      {| f_name := utf8 "Duração"; f_value := took_s; f_inline := true |} ] in
  {| content := [];
     embeds := [ {| title := utf8 "✅ RHID";
                    description := utf8 "Rotina de marcação de ponto";
                    color := 3066993;
                    fields := fields;
                    footer_text := utf8 "Trigger: " ++ trigger;
                    timestamp := ts |} ];
     maps_url := maps_link |}.

(** *** run_rhid_punch *)

(** The two [except] clauses: [TimeoutException] first, then [Exception]. *)
Definition wrap_failure (e : exn) : exn :=
  if isinstance_of TimeoutException e
  then Exn RuntimeError (MSG_FAIL ++ utf8 "Timeout (" ++ exn_str e ++ utf8 ")")
  else Exn RuntimeError (MSG_FAIL ++ exn_str e).

(** The [finally] block when [driver] is set. *)
Definition teardown (d : driver) : MS unit :=
  try_except (lift (call driver_quit)) (fun _ => ret tt) ;;
  _cleanup_tmp_list (_tmp_dirs d).

(** The [try] body after [driver = _build_driver()]. *)
Definition punch_body (fuel : nat) (trigger : pystr) (started_at : Q) : MS payload :=
  let rhid_email := default [] (env !! "RHID_EMAIL"%string) in
  let rhid_senha := default [] (env !! "RHID_PASSWORD"%string) in
  if py_not rhid_email || py_not rhid_senha then
    raise (Exn RuntimeError MSG_NO_CREDENTIALS)
  else
    lift (_login fuel rhid_email rhid_senha) ;;
    resultado <- lift (_registrar_ponto fuel) ;;
    t1 <- utcnow ;;
    let took := (t1 - started_at)%Q in
    hora <- _now_human ;;
    ts <- utcnow ;;
    ret (build_payload trigger rhid_email resultado hora
           (fmt_1f took ++ utf8 "s") (isoformat ts)).

(** [driver] is [None] in the [finally] block exactly when [_build_driver]
    raised: then only the [except] clauses run.  Once it is set, the body is
    under the [except] clauses and the teardown. *)
Definition run_rhid_punch (fuel : nat) (trigger_arg : option pystr) : MS payload :=
  let trigger := default (utf8 "manual") trigger_arg in
  started_at <- utcnow ;;
  d <- try_except _build_driver (fun e => raise (wrap_failure e)) ;;
  try_finally
    (try_except (punch_body fuel trigger started_at)
       (fun e => raise (wrap_failure e)))
    (teardown d).

End Flows.

(** ** Reading a trace *)

(** The directory a successful [mkdtemp] created. *)
Definition allocated (e : event) : option pystr :=
  match e with
  | SCall c r =>
    match c in scall A return exn + A -> option pystr with
    | mkdtemp _ _ => fun r => match r with inr p => Some p | inl _ => None end
    | _ => fun _ => None
    end r
  | Low _ => None
  end.

(** The directory [shutil.rmtree] was called on, whatever came of it. *)
Definition removed (e : event) : option pystr :=
  match e with
  | SCall c _ =>
    match c with
    | rmtree d => Some d
    | _ => None
    end
  | Low _ => None
  end.

(** A step of a launch attempt: fetching the driver binary or starting
    Chrome. *)
Definition is_launch (e : event) : bool :=
  match e with
  | SCall c _ =>
    match c with
    | chromedriver_install | webdriver_Chrome _ _ => true
    | _ => false
    end
  | Low _ => false
  end.

(** [webdriver.Chrome(...)] returned a session. *)
Definition session_created (e : event) : bool :=
  match e with
  | SCall c r =>
    match c in scall A return exn + A -> bool with
    | webdriver_Chrome _ _ => fun r => match r with inr _ => true | inl _ => false end
    | _ => fun _ => false
    end r
  | Low _ => false
  end.

Definition is_quit (e : event) : bool :=
  match e with
  | Low (DCall c _) => match c with driver_quit => true | _ => false end
  | _ => false
  end.

(** A page load: [driver.get]. *)
Definition is_page_load (e : devent) : bool :=
  match e with
  | DCall c _ => match c with driver_get _ => true | _ => false end
  | DSleep _ => false
  end.

Definition calm (e : devent) : Prop := is_page_load e = false.

(** One of the three click strategies of [robust_click] on [el]: the
    native click, the ActionChains click, the dispatched MouseEvent. *)
Definition is_click_of (el : element) (c : dcall unit) : Prop :=
  c = el_click el \/ c = actions_click el \/ c = js_click el.

(** A trace whose last event is a click on [el] that went through. *)
Definition ends_with_click (el : element) (t : list devent) : Prop :=
  exists t0 c, t = t0 ++ [DCall c (inr tt)] /\ is_click_of el c.

(** The directories created and not yet handed to [rmtree], oldest
    first, after the events of [t], starting from [acc]. *)
Fixpoint live_from (acc : list pystr) (t : list event) : list pystr :=
  match t with
  | [] => acc
  | e :: t' =>
    match allocated e, removed e with
    | Some p, _ => live_from (acc ++ [p]) t'
    | None, Some p => live_from (filter (fun q => q <> p) acc) t'
    | None, None => live_from acc t'
    end
  end.

Definition live (t : list event) : list pystr := live_from [] t.

(** What the two [except] clauses of [run_rhid_punch] make of an outcome. *)
Definition wrapped {A} (r : outcome A) : outcome A :=
  match r with
  | Raise e => Raise (wrap_failure e)
  | r => r
  end.

(** An event that neither creates nor removes a directory. *)
Definition neutral (e : event) : Prop := allocated e = None /\ removed e = None.

(** An [rmtree] of [p]. *)
Definition removes (e : event) (p : pystr) : Prop :=
  removed e = Some p /\ allocated e = None.

(** An event of an allocation: no removal, no launch step. *)
Definition alloc_only (e : event) : Prop := removed e = None /\ is_launch e = false.

(** A computation whose first step is a recorded call. *)
Definition starts {W E A} (m : M W E A) : Prop :=
  forall w, exists r w' e t, m w = (r, w', e :: t).

(** A computation all of whose events satisfy [P]. *)
Definition emits {W E A} (P : E -> Prop) (m : M W E A) : Prop :=
  forall w r w' t, m w = (r, w', t) -> Forall P t.

(** ** Time and termination

    What the end of the polling loops rests on: the clocks of the host
    never go back, whatever call is made on the browser, and
    [time.sleep(d)] lasts at least [d] on both clocks. *)
Definition wall {W} {HW : Host W} (w : W) : Q := fst (time_time w).
Definition mono {W} {HW : Host W} (w : W) : Q := fst (time_monotonic w).

Definition later {W} {HW : Host W} (w w' : W) : Prop :=
  (wall w <= wall w')%Q /\ (mono w <= mono w')%Q.

Class Timely (W : Type) {HW : Host W} : Prop := {
  time_later : forall w, later w (snd (time_time w));
  monotonic_later : forall w, later w (snd (time_monotonic w));
  drv_later : forall A c w, later w (snd (drv A c w));
  sleep_wall : forall d w, (wall w + d <= wall (time_sleep d w))%Q;
  sleep_mono : forall d w, (mono w + d <= mono (time_sleep d w))%Q
}.

(** A driver-level computation that, from [w], ends (with a value or an
    exception) in a state where no clock has gone back. *)
Definition tame_at {W} {HW : Host W} {A} (w : W) (m : M W devent A) : Prop :=
  later w (snd (fst (m w))) /\ fst (fst (m w)) <> Diverged.

Definition tame {W} {HW : Host W} {A} (m : M W devent A) : Prop :=
  forall w, tame_at w m.

Definition halts {W E A} (m : M W E A) : Prop :=
  forall w, fst (fst (m w)) <> Diverged.

(** [n] polls at 0.5 s outlast [timeout]. *)
Definition polls (timeout : Q) (n : nat) : Prop :=
  (timeout < (1#2) * inject_Z (Z.of_nat n))%Q.

(** Fuel that outlasts every loop of the flow: the longest one sleeps
    0.3 s per turn for [TIMEOUT_SECONDS], and the click loops run at most
    10 s at 0.15 s per turn over a 2 s overlay wait. *)
Definition fuel_bound (cfg : config) : nat :=
  (4 * Z.to_nat (TIMEOUT_SECONDS cfg) + 100)%nat.

Definition enough (cfg : config) (fuel : nat) : Prop := (fuel_bound cfg <= fuel)%nat.

(** ** Reading what the browser was asked

    [m] never ends with an exception, whatever the host answers. *)
Definition never_raises {W E A} (m : M W E A) : Prop :=
  forall w e w' t, m w <> (Raise e, w', t).

(** [os.environ.get(k)] is missing or the empty string. *)
Definition unset (env : environ) (k : string) : Prop :=
  env !! k = None \/ env !! k = Some ([] : pystr).

(** The exception a call of the trace was answered with. *)
Definition raised (ev : devent) : option exn :=
  match ev with
  | DCall _ (inl e) => Some e
  | _ => None
  end.

(** One wait per locator, in order, each ended by an exception. *)
Definition failed_waits (timeout : Q) (ec : expected_condition)
    (tr : list devent) (locs : list locator) : Prop :=
  Forall2 (fun ev loc => exists e, ev = DCall (wait_until_EC timeout ec loc) (inl e)) tr locs.

(** The exception the last call of the trace was answered with. *)
Definition last_raised (tr : list devent) : option exn :=
  match last tr with
  | Some ev => raised ev
  | None => None
  end.

(** Some call of the trace was answered with [e]. *)
Definition raised_in (e : exn) (tr : list devent) : Prop :=
  exists ev, In ev tr /\ raised ev = Some e.

(** The number of [send_keys] calls of a trace. *)
Fixpoint sends (tr : list devent) : nat :=
  match tr with
  | [] => 0
  | DCall c _ :: tr' =>
    match c with
    | el_send_keys _ _ => S (sends tr')
    | _ => sends tr'
    end
  | DSleep _ :: tr' => sends tr'
  end.

(** The number of native clicks of a trace. *)
Fixpoint clicks (tr : list devent) : nat :=
  match tr with
  | [] => 0
  | DCall c _ :: tr' =>
    match c with
    | el_click _ => S (clicks tr')
    | _ => clicks tr'
    end
  | DSleep _ :: tr' => clicks tr'
  end.

(** The address a [driver.get] of the trace was called with. *)
Definition page_load_of (e : devent) : option pystr :=
  match e with
  | DCall c _ => match c with driver_get url => Some url | _ => None end
  | DSleep _ => None
  end.

(** The addresses the browser was sent to during a run, in order. *)
Definition page_loads (t : list event) : list pystr :=
  omap (fun e => match e with Low d => page_load_of d | SCall _ _ => None end) t.

(** An event of a run that is no page load. *)
Definition loads_nothing (e : event) : Prop :=
  match e with
  | Low d => calm d
  | SCall _ _ => True
  end.

(** A computation that loads no page, or the page [target] once. *)
Definition loads_only {W A} (target : option pystr) (m : M W event A) : Prop :=
  forall w r w' t, m w = (r, w', t) ->
    page_loads t = [] \/ page_loads t = option_list target.

(** The element a click of the trace went through on, by any of the three
    strategies. *)
Definition clicked (e : devent) : option element :=
  match e with
  | DCall c r =>
    match c in dcall A return exn + A -> option element with
    | el_click el | actions_click el | js_click el =>
      fun r => match r with inr _ => Some el | inl _ => None end
    | _ => fun _ => None
    end r
  | DSleep _ => None
  end.

End Automator.

(* ===================================================================== *)
(** * apps/discord-bot/main.py                                            *)
(* ===================================================================== *)

Module Bot.

(** The two handlers that start a run: the [PunchView.punch] button and the
    [/baterponto] slash command; each passes its own [trigger] string to
    [run_rhid_punch_async]. *)
Inductive source := Button | Slash.

Definition trigger_of (k : source) : pystr :=
  match k with
  | Button => utf8 "button"
  | Slash => utf8 "slash"
  end.

(** What the handler answers the interaction with. *)
Inductive response :=
| SendMessage (text : pystr)
| FollowupResult (p : Automator.payload)
| FollowupError (text : pystr).

Definition wait_text (n : Z) : pystr :=
  utf8 "Aguarde " ++ str_of_Z n ++ utf8 "s para tentar novamente.".

Definition error_text (e : pystr) : pystr := utf8 "❌ Erro: " ++ e.

(** Where a handler coroutine stands.  A coroutine only gives way at an
    [await]: after the throttle gate it awaits [response.defer], then the
    lock, then the run in the executor. *)
Inductive phase :=
| Deferring
| WaitingLock (woken : bool)
| Running (trigger : pystr)
| Finished (r : response).

Record task := { source_of : source; user_of : Z; phase_of : phase }.

(** [asyncio.Lock]: the flag and the queue of waiting tasks; the future of
    a waiter is the [woken] bit of its phase. *)
Record lock := { _locked : bool; _waiters : list nat }.

Record bot := {
  recent : gmap Z Q;
  automation_lock : lock;
  tasks : list task
}.

Definition init : bot :=
  {| recent := ∅;
     automation_lock := {| _locked := false; _waiters := [] |};
     tasks := [] |}.

(** What the event loop does next: an interaction arrives (with the value
    [time.time()] has then), a suspended handler is resumed, or the run of a
    handler ends in the executor with a payload or with [str(e)] of the
    exception. *)
Inductive event :=
| Arrive (k : source) (user_id : Z) (now : Q)
| Resume (i : nat)
| RunDone (i : nat) (result : pystr + Automator.payload).

Inductive gate := Rejected (wait : Z) | Accepted.

Section Handlers.
Variable RATE_LIMIT_SECONDS : Z.

(** The head of [PunchView.punch], up to [recent[user_id] = now]. *)
Definition punch_gate (recent : gmap Z Q) (user_id : Z) (now : Q) : gmap Z Q * gate :=
  let last := default 0%Q (recent !! user_id) in
  if Qltb (now - last) (inject_Z RATE_LIMIT_SECONDS) then
    (recent, Rejected (py_int (inject_Z RATE_LIMIT_SECONDS - (now - last))))
  else (<[user_id := now]> recent, Accepted).

Definition set_phase (i : nat) (p : phase) (ts : list task) : list task :=
  alter (fun t => {| source_of := source_of t; user_of := user_of t; phase_of := p |}) i ts.

(** [deque.remove(x)]: the first occurrence. *)
Fixpoint deque_remove (x : nat) (q : list nat) : list nat :=
  match q with
  | [] => []
  | y :: q' => if bool_decide (x = y) then q' else y :: deque_remove x q'
  end.

(** [Lock._wake_up_first]: complete the future of the first waiter. *)
Definition wake_up_first (waiters : list nat) (ts : list task) : list task :=
  match waiters with
  | [] => ts
  | j :: _ =>
    match ts !! j with
    | Some {| phase_of := WaitingLock _ |} => set_phase j (WaitingLock true) ts
    | _ => ts
    end
  end.

(** [async with automation_lock] entered by task [i]: the fast path of
    [Lock.acquire] takes a free lock nobody waits for; otherwise the task
    queues up and suspends. *)
Definition acquire (i : nat) (tr : pystr) (s : bot) : bot :=
  let l := automation_lock s in
  if negb (_locked l) && bool_decide (_waiters l = []) then
    {| recent := recent s;
       automation_lock := {| _locked := true; _waiters := _waiters l |};
       tasks := set_phase i (Running tr) (tasks s) |}
  else
    {| recent := recent s;
       automation_lock := {| _locked := _locked l; _waiters := _waiters l ++ [i] |};
       tasks := set_phase i (WaitingLock false) (tasks s) |}.

(** The tail of [Lock.acquire] once the future completed. *)
Definition acquire_woken (i : nat) (tr : pystr) (s : bot) : bot :=
  let l := automation_lock s in
  {| recent := recent s;
     automation_lock := {| _locked := true; _waiters := deque_remove i (_waiters l) |};
     tasks := set_phase i (Running tr) (tasks s) |}.

(** Leaving [async with]: [Lock.release], then the answer to the user. *)
Definition release_and_reply (i : nat) (r : response) (s : bot) : bot :=
  let l := automation_lock s in
  {| recent := recent s;
     automation_lock := {| _locked := false; _waiters := _waiters l |};
     tasks := wake_up_first (_waiters l) (set_phase i (Finished r) (tasks s)) |}.

Definition reply_of (result : pystr + Automator.payload) : response :=
  match result with
  | inl e => FollowupError (error_text e)
  | inr p => FollowupResult p
  end.

Definition new_task (k : source) (user_id : Z) (p : phase) (s : bot) (rc : gmap Z Q) : bot :=
  {| recent := rc;
     automation_lock := automation_lock s;
     tasks := tasks s ++ [ {| source_of := k; user_of := user_id; phase_of := p |} ] |}.

Definition step (s : bot) (e : event) : bot :=
  match e with
  | Arrive Button user_id now =>
    match punch_gate (recent s) user_id now with
    | (rc, Rejected n) => new_task Button user_id (Finished (SendMessage (wait_text n))) s rc
    | (rc, Accepted) => new_task Button user_id Deferring s rc
    end
  | Arrive Slash user_id _ => new_task Slash user_id Deferring s (recent s)
  | Resume i =>
    match tasks s !! i with
    | Some t =>
      match phase_of t with
      | Deferring => acquire i (trigger_of (source_of t)) s
      | WaitingLock true => acquire_woken i (trigger_of (source_of t)) s
      | _ => s
      end
    | None => s
    end
  | RunDone i result =>
    match tasks s !! i with
    | Some {| phase_of := Running _ |} => release_and_reply i (reply_of result) s
    | _ => s
    end
  end.

Definition run (s : bot) (evs : list event) : bot := fold_left step evs s.

(** The button presses the gate accepts along a history, oldest first. *)
Definition accepted_now (s : bot) (e : event) : list (Z * Q) :=
  match e with
  | Arrive Button user_id now =>
    match snd (punch_gate (recent s) user_id now) with
    | Accepted => [(user_id, now)]
    | Rejected _ => []
    end
  | _ => []
  end.

Fixpoint accepted_presses (s : bot) (evs : list event) : list (Z * Q) :=
  match evs with
  | [] => []
  | e :: evs' => accepted_now s e ++ accepted_presses (step s e) evs'
  end.

End Handlers.

(** The time of the last press of [u] in a list of accepted presses. *)
Fixpoint last_accepted (u : Z) (log : list (Z * Q)) : option Q :=
  match log with
  | [] => None
  | (v, t) :: log' =>
    match last_accepted u log' with
    | Some t' => Some t'
    | None => if bool_decide (v = u) then Some t else None
    end
  end.

(** The events of a history other than button presses of [u]. *)
Definition not_press_of (u : Z) (e : event) : bool :=
  match e with
  | Arrive Button v _ => negb (bool_decide (v = u))
  | _ => true
  end.

Definition phase_at (s : bot) (i : nat) : option phase := phase_of <$> tasks s !! i.

(** The invariant of the lock: a running task holds it, no two tasks run,
    a woken waiter is the head of the queue of a free lock, and the queue
    holds waiting tasks only, each once. *)
Record inv (s : bot) : Prop := {
  inv_held : forall i tr, phase_at s i = Some (Running tr) ->
             _locked (automation_lock s) = true;
  inv_one : forall i j tr tr', phase_at s i = Some (Running tr) ->
            phase_at s j = Some (Running tr') -> i = j;
  inv_woken : forall i, phase_at s i = Some (WaitingLock true) ->
              _locked (automation_lock s) = false
              /\ head (_waiters (automation_lock s)) = Some i;
  inv_queue : forall j, j ∈ _waiters (automation_lock s) ->
              exists b, phase_at s j = Some (WaitingLock b);
  inv_nodup : NoDup (_waiters (automation_lock s))
}.

(** Every running task was started with the tag of its own handler. *)
Definition tagged (s : bot) : Prop :=
  forall i t tr, tasks s !! i = Some t -> phase_of t = Running tr ->
                 tr = trigger_of (source_of t).

End Bot.

(* ===================================================================== *)
(** * apps/discord-bot/main.py: rendering a result                        *)
(* ===================================================================== *)

Module Render.
Import Py Automator.

(** [s.replace(old, new)] for a non-empty [old]: the occurrences of [old]
    are replaced from left to right, without overlap.  [skip] counts the
    characters of an occurrence still to be passed over. *)
Fixpoint replace_go (old new : pystr) (skip : nat) (s : pystr) : pystr :=
  match s with
  | [] => []
  | c :: s' =>
    match skip with
    | S k => replace_go old new k s'
    | O =>
      if starts_with old s then new ++ replace_go old new (length old - 1) s'
      else c :: replace_go old new 0 s'
    end
  end.

Definition py_replace (old new s : pystr) : pystr := replace_go old new 0 s.

(** ** Values of a "card" dict

    The values the code tells apart: [None], a [bool], an [int], a [float]
    and a [str]. *)
Inductive pyval :=
| VNone
| VBool (b : bool)
| VInt (n : Z)
| VFloat (x : Q)
| VStr (s : pystr).

Definition card := gmap string pyval.

(** [bool(v)]. *)
Definition truthy_val (v : pyval) : bool :=
  match v with
  | VNone => false
  | VBool b => b
  | VInt n => negb (n =? 0)
  | VFloat x => negb (Qeq_bool x 0)
  | VStr s => negb (py_not s)
  end.

(** [d.get(k)]: a missing key reads as [None]. *)
Definition dict_get (d : card) (k : string) : pyval := default VNone (d !! k).

(** What [discord.Embed] keeps: the fields are name, value, inline, as
    [add_field] stores them ([str(name)], [str(value)]). *)
Record Embed := {
  e_title : pystr;
  e_description : pystr;
  e_color : Z;
  e_timestamp : Q;
  e_fields : list field;
  e_footer : option pystr
}.

(** A [discord.ui.View] holding the one link button "Abrir no Maps", by
    the value passed as its [url]. *)
Definition View := pyval.

(** What [run_rhid_punch_async] may hand over: a dict with the key
    "embeds" (the payload of [run_rhid_punch]), a dict without it, or
    anything else, by its [str()]. *)
Inductive result :=
| RPayload (p : payload)
| RDict (d : card)
| ROther (s : pystr).

Definition TITLE : pystr := utf8 "✅ RHID".
Definition DESCRIPTION : pystr := utf8 "Rotina de marcação de ponto".
Definition N_HORARIO : pystr := utf8 "🕒 Horário".
Definition N_MODO : pystr := utf8 "⚙️ Modo".
Definition N_EMAIL : pystr := utf8 "📧 E-mail".
Definition N_LOCAL : pystr := utf8 "📍 Localização".
Definition N_ETAPAS : pystr := utf8 "🧭 Etapas".
Definition N_RESULTADO : pystr := utf8 "✅ Resultado".
Definition N_DURACAO : pystr := utf8 "⏱️ Duração".

Definition aliases : list (pystr * pystr) :=
  [ (utf8 "Horário", N_HORARIO);
    (utf8 "Modo", N_MODO);
    (utf8 "E-mail", N_EMAIL);
    (utf8 "Localização", N_LOCAL);
    (utf8 "Etapas", N_ETAPAS);
    (utf8 "Resultado", N_RESULTADO);
    (utf8 "Duração", N_DURACAO) ].

(** [d.get(k, dflt)] on a dict literal with string keys. *)
Fixpoint assoc_get (d : list (pystr * pystr)) (k dflt : pystr) : pystr :=
  match d with
  | [] => dflt
  | (k', v) :: d' => if bool_decide (k' = k) then v else assoc_get d' k dflt
  end.

Definition card_keys : list string :=
  [ "hora"; "hora_iso"; "timestamp"; "modo"; "email"; "lat"; "lon"; "etapas";
    "resultado"; "duracao"; "trigger"; "maps_url" ]%string.

Section Rendering.

(** The library calls, taken as they are:
    [datetime.fromisoformat(s).astimezone(ZoneInfo("UTC"))] and
    [datetime.strptime(s, "%d/%m/%Y %H:%M:%S").replace(tzinfo=UTC)], each
    with [None] where it raises; [dt.astimezone(TZ).strftime("%d/%m/%Y
    %H:%M:%S %Z")]; [str(x)] and [f"{x:.1f}"] of a float; [str(d)] of a
    dict.  An instant is its number of seconds since the epoch. *)
Variable fromisoformat_utc : pystr -> option Q.
Variable strptime_utc : pystr -> option Q.
Variable strftime_local : Q -> pystr.
Variable float_str : Q -> pystr.
Variable format_1f : Q -> pystr.
Variable dict_str : card -> pystr.

Definition _fmt_dt_local (dt_aware_utc : Q) : pystr := strftime_local dt_aware_utc.

Definition _parse_ts_iso_to_utc (ts : pystr) : option Q :=
  fromisoformat_utc (py_replace (utf8 "Z") (utf8 "+00:00") ts).

Definition _try_parse_card_hora_to_utc (hora_str : pystr) : option Q :=
  strptime_utc (py_replace (utf8 " UTC") [] hora_str).

(** [str(v)], which is also what [f"{v}"] gives. *)
Definition py_str (v : pyval) : pystr :=
  match v with
  | VNone => utf8 "None"
  | VBool true => utf8 "True"
  | VBool false => utf8 "False"
  | VInt n => str_of_Z n
  | VFloat x => float_str x
  | VStr s => s
  end.

(** The payload of [run_rhid_punch] has every key, each with a value of its
    type; [embeds] may still be empty, and then [{}] stands for the embed. *)
Definition _embed_from_embeds_dict (now : Q) (p : payload)
    : option pystr * Embed * option View :=
  let ed := head (embeds p) in
  let color_int :=
    match ed with
    | Some e => if (color e =? 0) then 3049177 else color e
    | None => 3049177
    end in
  let horario :=
    match ed with
    | Some e =>
      if py_not (timestamp e) then []
      else
        match _parse_ts_iso_to_utc (timestamp e) with
        | Some dt_utc =>
          [ {| f_name := N_HORARIO; f_value := _fmt_dt_local dt_utc; f_inline := true |} ]
        | None => []
        end
    | None => []
    end in
  let fields := match ed with Some e => fields e | None => [] end in
  let shown :=
    map (fun f => {| f_name := assoc_get aliases (f_name f) (f_name f);
                     f_value := f_value f;
                     f_inline := f_inline f |}) fields in
  let footer := match ed with Some e => Some (footer_text e) | None => None end in
  let view :=
    match maps_url p with
    | Some u => if py_not u then None else Some (VStr u)
    | None => None
    end in
  (if py_not (content p) then None else Some (content p),
   {| e_title := TITLE; e_description := DESCRIPTION; e_color := color_int;
      e_timestamp := now; e_fields := horario ++ shown; e_footer := footer |},
   view).

(** [isinstance(card.get(k), str)], with the string. *)
Definition get_str (d : card) (k : string) : option pystr :=
  match d !! k with
  | Some (VStr s) => Some s
  | _ => None
  end.

(** [now] is the first [utcnow()], for the embed's own timestamp; [now']
    the second one, read when no time could be parsed. *)
Definition _embed_from_card_dict (now now' : Q) (d : card)
    : option pystr * Embed * option View :=
  let dt0 := get_str d "hora_iso" ≫= _parse_ts_iso_to_utc in
  let dt1 :=
    match dt0 with
    | Some dt => Some dt
    | None => get_str d "timestamp" ≫= _parse_ts_iso_to_utc
    end in
  let dt2 :=
    match dt1 with
    | Some dt => Some dt
    | None => get_str d "hora" ≫= _try_parse_card_hora_to_utc
    end in
  let dt_utc := default now' dt2 in
  let lat := dict_get d "lat" in
  let lon := dict_get d "lon" in
  let maps_url := dict_get d "maps_url" in
  let located :=
    match lat, lon with
    | VNone, _ | _, VNone => []
    | _, _ =>
      [ {| f_name := N_LOCAL;
           f_value := py_str lat ++ utf8 ", " ++ py_str lon ++ utf8 " (Empresa)"
                      ++ (if truthy_val maps_url
                          then utf8 " • [Abrir no Maps](" ++ py_str maps_url ++ utf8 ")"
                          else []);
           f_inline := false |} ]
    end in
  let if_set (k : string) (name : pystr) :=
    if truthy_val (dict_get d k)
    then [ {| f_name := name; f_value := py_str (dict_get d k); f_inline := false |} ]
    else [] in
  let duracao :=
    match dict_get d "duracao" with
    | VBool b =>
      [ {| f_name := N_DURACAO;
           f_value := format_1f (if b then 1 else 0) ++ utf8 "s"; f_inline := true |} ]
    | VInt n =>
      [ {| f_name := N_DURACAO; f_value := format_1f (inject_Z n) ++ utf8 "s";
           f_inline := true |} ]
    | VFloat x =>
      [ {| f_name := N_DURACAO; f_value := format_1f x ++ utf8 "s"; f_inline := true |} ]
    | _ => []
    end in
  let trig := default (VStr (utf8 "button")) (d !! "trigger"%string) in
  (None,
   {| e_title := TITLE; e_description := DESCRIPTION; e_color := 4886754;
      e_timestamp := now;
      e_fields :=
        [ {| f_name := N_HORARIO; f_value := _fmt_dt_local dt_utc; f_inline := true |};
          {| f_name := N_MODO;
             f_value := py_str (default (VStr (utf8 "-")) (d !! "modo"%string));
             f_inline := true |};
          {| f_name := N_EMAIL;
             f_value := py_str (default (VStr (utf8 "-")) (d !! "email"%string));
             f_inline := false |} ]
        ++ located ++ if_set "etapas" N_ETAPAS ++ if_set "resultado" N_RESULTADO
        ++ duracao;
      e_footer := Some (utf8 "Trigger: " ++ py_str trig) |},
   if truthy_val maps_url then Some maps_url else None).

Definition build_embed_from_result (now now' : Q) (r : result)
    : option pystr * Embed * option View :=
  let fallback (s : pystr) :=
    (None,
     {| e_title := TITLE; e_description := s; e_color := 3049177;
        e_timestamp := now; e_fields := []; e_footer := None |},
     None) in
  match r with
  | RPayload p => _embed_from_embeds_dict now p
  | RDict d =>
    if existsb (fun k => bool_decide (is_Some (d !! k))) card_keys
    then _embed_from_card_dict now now' d
    else fallback (dict_str d)
  | ROther s => fallback s
  end.

End Rendering.

End Render.

(* ===================================================================== *)
(** * A simulated host                                                    *)
(* ===================================================================== *)

(** A small deterministic host on which the embedding can be run: Chrome
    fails to start a given number of times, and the final button is on the
    page or not.  Every read of a clock takes a second; a wait that times
    out takes its timeout. *)
Module Sim.
Import Automator.

(** How many launches fail, whether the final button ever shows up, the
    time until which a spinner covers the page, and whether the page
    confirms a click. *)
Record scenario := {
  launch_failures : nat;
  final_button : bool;
  overlay_until : Q;
  confirmation_shown : bool
}.
Record sim := { sim_clock : Q; sim_launches : nat; sim_dirs : N }.

Definition tick (d : Q) (w : sim) : sim :=
  {| sim_clock := Qred (sim_clock w + d);
     sim_launches := sim_launches w;
     sim_dirs := sim_dirs w |}.

Definition is_confirmation (loc : locator) : bool :=
  bool_decide (loc ∈ [confirmation_css; confirmation_text_xpath]).

Definition covered (sc : scenario) (w : sim) : bool :=
  Qltb (sim_clock w) (overlay_until sc).

Definition is_final (loc : locator) : bool := bool_decide (loc ∈ final_locators).

Definition sim_drv (sc : scenario) (A : Type) (c : dcall A) (w : sim) : (exn + A) * sim :=
  match c in dcall A return (exn + A) * sim with
  | driver_get _ => (inr tt, w)
  | document_readyState => (inr (utf8 "complete"), w)
  | current_url => (inr (Some (utf8 "https://rhid.example/#/marcacao_ponto")), w)
  | page_source =>
    (inr (Some (utf8 "<html>  <body>   Carregando...  </body> </html>")), w)
  | find_element loc =>
    if is_final loc && negb (final_button sc)
    then (inl (Exn NoSuchElementException (selenium_str (utf8 "no such element"))), w)
    else (inr 1%N, w)
  | find_elements (b, _) =>
    (inr (match b with
          | By_XPATH => [1%N]
          | By_CSS_SELECTOR => if covered sc w then [2%N] else []
          | By_ID => []
          end), w)
  | wait_until_EC t _ loc =>
    if is_final loc && negb (final_button sc)
       || is_confirmation loc && negb (confirmation_shown sc)
    then (inl (Exn TimeoutException (selenium_str [])),
          if Qle_bool 0 t then tick t w else w)
    else (inr 1%N, w)
  | el_click _ =>
    if covered sc w
    then (inl (Exn ElementClickInterceptedException
                   (selenium_str (utf8 "element click intercepted"))), w)
    else (inr tt, w)
  | el_clear _ => (inr tt, w)
  | el_send_keys _ _ => (inr tt, w)
  | el_is_displayed _ => (inr true, w)
  | el_is_enabled _ => (inr true, w)
  | el_get_attribute _ _ => (inr None, w)
  | el_value_of_css_property _ _ => (inr (utf8 "visible"), w)
  | js_scrollIntoView _ => (inr tt, w)
  | js_set_value _ _ => (inr tt, w)
  | js_center_rect _ =>
    (inr {| rect_x := 640; rect_y := 480; rect_w := 120; rect_h := 40 |}, w)
  | js_point_hits _ _ _ => (inr (negb (covered sc w)), w)
  | actions_move_with_offset _ _ _ => (inr tt, w)
  | actions_click _ => (inr tt, w)
  | js_click _ => (inr tt, w)
  | save_screenshot _ => (inr true, w)
  | driver_quit => (inr tt, w)
  end.

Definition sim_sys (sc : scenario) (A : Type) (c : scall A) (w : sim) : (exn + A) * sim :=
  match c in scall A return (exn + A) * sim with
  | mkdtemp prefix dir =>
    (inr (dir ++ utf8 "/" ++ prefix ++ str_of_Z (Z.of_N (sim_dirs w))),
     {| sim_clock := sim_clock w;
        sim_launches := sim_launches w;
        sim_dirs := N.succ (sim_dirs w) |})
  | rmtree _ => (inr tt, w)
  | path_exists _ => (inr true, w)
  | chromedriver_install => (inr (utf8 "/root/.wdm/chromedriver"), w)
  | webdriver_Chrome _ _ =>
    let w' := {| sim_clock := sim_clock w;
                 sim_launches := S (sim_launches w);
                 sim_dirs := sim_dirs w |} in
    if (sim_launches w <? launch_failures sc)%nat
    then (inl (Exn SessionNotCreatedException
                   (selenium_str (utf8 "session not created"))), w')
    else (inr 1%N, w')
  end.

Lemma sim_mkdtemp_nonempty sc prefix dir w p w' :
  sim_sys sc _ (mkdtemp prefix dir) w = (inr p, w') -> p <> [].
Proof.
  simpl. intros [= <- _] H. apply app_eq_nil in H as [_ H]. discriminate.
Qed.

Definition sim_host (sc : scenario) : Host sim :=
  {| time_time := fun w => (sim_clock w, tick 1 w);
     time_monotonic := fun w => (sim_clock w, tick 1 w);
     time_sleep := tick;
     utc_now := fun w => (sim_clock w, w);
     now_human := fun w => (utf8 "03/10/2025 13:52:33 BRT", w);
     str_lower := fun s => s;
     fmt_1f := fun _ => utf8 "12.3";
     isoformat := fun _ => utf8 "2025-10-03T16:52:33+00:00";
     drv := sim_drv sc;
     sys := sim_sys sc;
     mkdtemp_nonempty := sim_mkdtemp_nonempty sc |}.

Definition sim0 : sim := {| sim_clock := 1000; sim_launches := 0; sim_dirs := 0 |}.

Definition cfg0 (dry : bool) : config :=
  {| HEADLESS := true;
     TIMEOUT_SECONDS := 35;
     POST_LOGIN_SELECTOR := [];
     CHROME_BINARY := utf8 "/usr/bin/google-chrome";
     PUNCH_DRY_RUN := dry;
     SCREENSHOT_ON_ERROR := false;
     CHROME_USER_DATA_BASE := utf8 "/tmp/rhid-chrome";
     RHID_USE_USER_DATA := true;
     COMPANY_LAT := Some (utf8 " -23.55 ");
     COMPANY_LON := Some (utf8 "-46.63") |}.

Definition env0 : environ :=
  {[ "RHID_EMAIL"%string := utf8 "ana@example.com";
     "RHID_PASSWORD"%string := utf8 "segredo";
     "RHID_URL"%string := utf8 "https://rhid.example/#/login" ]}.

(** The page is healthy and Chrome starts at once. *)
Definition healthy : scenario :=
  {| launch_failures := 0; final_button := true; overlay_until := 0;
     confirmation_shown := true |}.

(** The final button never shows up. *)
Definition no_button : scenario :=
  {| launch_failures := 0; final_button := false; overlay_until := 0;
     confirmation_shown := true |}.

(** Chrome fails to start once, then starts. *)
Definition flaky_chrome : scenario :=
  {| launch_failures := 1; final_button := true; overlay_until := 0;
     confirmation_shown := true |}.

(** A spinner covers the page until the clock reads 1012. *)
Definition spinner : scenario :=
  {| launch_failures := 0; final_button := true; overlay_until := 1012;
     confirmation_shown := true |}.

(** The click goes through but the page shows no confirmation. *)
Definition silent : scenario :=
  {| launch_failures := 0; final_button := true; overlay_until := 0;
     confirmation_shown := false |}.

(** Chrome fails to start twice. *)
Definition broken_chrome : scenario :=
  {| launch_failures := 2; final_button := true; overlay_until := 0;
     confirmation_shown := true |}.

(** A machine without network access: [ChromeDriverManager().install()]
    fails with an error that is not one of Selenium's. *)
Definition offline_sys (A : Type) (c : scall A) (w : sim) : (exn + A) * sim :=
  match c in scall A return (exn + A) * sim with
  | chromedriver_install =>
    (inl (Exn OtherError (utf8 "Could not reach host. Are you offline?")), w)
  | mkdtemp prefix dir => sim_sys healthy _ (mkdtemp prefix dir) w
  | rmtree d => sim_sys healthy _ (rmtree d) w
  | path_exists p => sim_sys healthy _ (path_exists p) w
  | webdriver_Chrome p o => sim_sys healthy _ (webdriver_Chrome p o) w
  end.

Lemma offline_mkdtemp_nonempty prefix dir w p w' :
  offline_sys _ (mkdtemp prefix dir) w = (inr p, w') -> p <> [].
Proof. apply sim_mkdtemp_nonempty. Qed.

Definition offline_host : Host sim :=
  {| time_time := fun w => (sim_clock w, tick 1 w);
     time_monotonic := fun w => (sim_clock w, tick 1 w);
     time_sleep := tick;
     utc_now := fun w => (sim_clock w, w);
     now_human := fun w => (utf8 "03/10/2025 13:52:33 BRT", w);
     str_lower := fun s => s;
     fmt_1f := fun _ => utf8 "12.3";
     isoformat := fun _ => utf8 "2025-10-03T16:52:33+00:00";
     drv := sim_drv healthy;
     sys := offline_sys;
     mkdtemp_nonempty := offline_mkdtemp_nonempty |}.

End Sim.

(* ===================================================================== *)
(** * Pages that misbehave                                                *)
(* ===================================================================== *)

Module Pages.
Import Automator Sim.

(** The healthy page of [Sim] with some answers of the browser replaced. *)
Definition page_host (d : forall A, dcall A -> sim -> (exn + A) * sim) : Host sim :=
  {| time_time := fun w => (sim_clock w, tick 1 w);
     time_monotonic := fun w => (sim_clock w, tick 1 w);
     time_sleep := tick;
     utc_now := fun w => (sim_clock w, w);
     now_human := fun w => (utf8 "03/10/2025 13:52:33 BRT", w);
     str_lower := fun s => s;
     fmt_1f := fun _ => utf8 "12.3";
     isoformat := fun _ => utf8 "2025-10-03T16:52:33+00:00";
     drv := d;
     sys := sim_sys healthy;
     mkdtemp_nonempty := sim_mkdtemp_nonempty healthy |}.

(** The final button is there but never becomes enabled. *)
Definition stuck_drv (A : Type) (c : dcall A) (w : sim) : (exn + A) * sim :=
  match c in dcall A return (exn + A) * sim -> (exn + A) * sim with
  | el_is_enabled _ => fun _ => (inr false, w)
  | _ => fun r => r
  end (sim_drv healthy A c w).

Definition stuck : Host sim := page_host stuck_drv.

(** Fields that refuse keystrokes: [send_keys] raises. *)
Definition readonly_drv (A : Type) (c : dcall A) (w : sim) : (exn + A) * sim :=
  match c in dcall A return (exn + A) * sim -> (exn + A) * sim with
  | el_send_keys _ _ =>
    fun _ => (inl (Exn ElementNotInteractableException
                       (selenium_str (utf8 "element not interactable"))), w)
  | _ => fun r => r
  end (sim_drv healthy A c w).

Definition readonly : Host sim := page_host readonly_drv.

(** Nothing located by id ever shows up. *)
Definition no_id_drv (A : Type) (c : dcall A) (w : sim) : (exn + A) * sim :=
  match c in dcall A return (exn + A) * sim -> (exn + A) * sim with
  | wait_until_EC t _ loc =>
    fun r =>
      match fst loc with
      | By_ID => (inl (Exn TimeoutException (selenium_str [])),
                  if Qle_bool 0 t then tick t w else w)
      | _ => r
      end
  | _ => fun r => r
  end (sim_drv healthy A c w).

Definition no_id : Host sim := page_host no_id_drv.

(** The browser already shows the clock-in page when [_registrar_ponto]
    starts.  The one "Registrar Ponto" button of that page is the final
    button: every final locator finds it, and so does the third dashboard
    locator, which is the third final locator; the two dashboard locators
    that name the dashboard's [ng-click] find nothing. *)
Definition FINAL_BUTTON : element := 7%N.

Definition on_marcacao_drv (A : Type) (c : dcall A) (w : sim) : (exn + A) * sim :=
  match c in dcall A return (exn + A) * sim -> (exn + A) * sim with
  | wait_until_EC t _ loc =>
    fun r =>
      if is_final loc then (inr FINAL_BUTTON, w)
      else if bool_decide (loc ∈ dash_btns)
           then (inl (Exn TimeoutException (selenium_str [])),
                 if Qle_bool 0 t then tick t w else w)
           else r
  | find_element loc => fun r => if is_final loc then (inr FINAL_BUTTON, w) else r
  | _ => fun r => r
  end (sim_drv healthy A c w).

Definition on_marcacao : Host sim := page_host on_marcacao_drv.

(** The session is lost once the clock reads [at_]: from then on
    [driver.current_url] raises. *)
Definition url_dies_drv (at_ : Q) (A : Type) (c : dcall A) (w : sim) : (exn + A) * sim :=
  match c in dcall A return (exn + A) * sim -> (exn + A) * sim with
  | current_url =>
    fun r =>
      if Qle_bool at_ (sim_clock w)
      then (inl (Exn WebDriverException (selenium_str (utf8 "chrome not reachable"))), w)
      else r
  | _ => fun r => r
  end (sim_drv healthy A c w).

Definition url_dies (at_ : Q) : Host sim := page_host (url_dies_drv at_).

End Pages.
(* ===================================================================== *)
(** * Facts about strings                                                 *)
(* ===================================================================== *)

Module PyFacts.

Lemma forallb_rev {A} (f : A -> bool) l : forallb f (rev l) = forallb f l.
Proof.
  induction l as [|a l IH]; simpl; [reflexivity|].
  rewrite forallb_app, IH. simpl. rewrite andb_true_r. apply andb_comm.
Qed.

Lemma split_go_words s : forall cur,
  forallb (fun c => negb (py_isspace c)) cur = true ->
  Forall word (split_go cur s).
Proof.
  induction s as [|c s IH]; intros cur Hcur; simpl.
  - destruct cur as [|a cur]; [constructor|].
    constructor; [|constructor]. split.
    + simpl. intros H. apply app_eq_nil in H as [_ H]. discriminate.
    + rewrite forallb_rev. assumption.
  - destruct (py_isspace c) eqn:Ec.
    + destruct cur as [|a cur]; [apply IH; reflexivity|].
      constructor; [|apply IH; reflexivity]. split.
      * simpl. intros H. apply app_eq_nil in H as [_ H]. discriminate.
      * rewrite forallb_rev. assumption.
    + apply IH. simpl. rewrite Ec. assumption.
Qed.

Lemma py_split_words s : Forall word (py_split s).
Proof. apply split_go_words. reflexivity. Qed.

Lemma single_spaced_word_app w rest :
  forallb (fun c => negb (py_isspace c)) w = true ->
  single_spaced (w ++ rest) = single_spaced rest.
Proof.
  induction w as [|c w IH]; intros H; simpl in *; [reflexivity|].
  apply andb_true_iff in H as [Hc Hw]. apply negb_true_iff in Hc.
  rewrite Hc. simpl. auto.
Qed.

Lemma join_cons2 sep w w2 ws :
  py_join sep (w :: w2 :: ws) = w ++ sep ++ py_join sep (w2 :: ws).
Proof. reflexivity. Qed.

Lemma join_head ws : Forall word ws ->
  match py_join [SPACE] ws with c :: _ => negb (py_isspace c) | [] => true end = true.
Proof.
  intros H. destruct H as [|w ws [Hne Hw] Hws]; [reflexivity|].
  destruct w as [|c w]; [congruence|].
  simpl in Hw. apply andb_true_iff in Hw as [Hc _].
  destruct ws; simpl; assumption.
Qed.

Lemma join_single_spaced ws : Forall word ws -> single_spaced (py_join [SPACE] ws) = true.
Proof.
  induction 1 as [|w ws [Hne Hw] Hws IH]; [reflexivity|].
  destruct ws as [|w2 ws].
  - simpl. rewrite <- (app_nil_r w). rewrite single_spaced_word_app by assumption. reflexivity.
  - rewrite join_cons2. rewrite single_spaced_word_app by assumption.
    change ([SPACE] ++ py_join [SPACE] (w2 :: ws)) with (SPACE :: py_join [SPACE] (w2 :: ws)).
    cbn [single_spaced]. rewrite IH. pose proof (join_head _ Hws) as Hh.
    destruct (py_join [SPACE] (w2 :: ws)); simpl in *; [reflexivity|].
    rewrite Hh. reflexivity.
Qed.

Lemma collapse_ws_collapsed s : ws_collapsed (collapse_ws s) = true.
Proof.
  unfold ws_collapsed, collapse_ws. pose proof (py_split_words s) as H.
  rewrite join_head, join_single_spaced by assumption. reflexivity.
Qed.

Lemma single_spaced_take n : forall s, single_spaced s = true -> single_spaced (take n s) = true.
Proof.
  induction n as [|n IH]; intros [|c s] H; simpl in *; try reflexivity.
  apply andb_true_iff in H as [Hc Hs]. rewrite (IH s Hs), andb_true_r.
  destruct (py_isspace c); [|reflexivity].
  apply andb_true_iff in Hc as [Hc Hd]. rewrite Hc. simpl.
  destruct n, s; simpl; auto.
Qed.

Lemma ws_collapsed_take n s : ws_collapsed s = true -> ws_collapsed (py_prefix n s) = true.
Proof.
  unfold ws_collapsed, py_prefix. intros H. apply andb_true_iff in H as [Hh Hs].
  rewrite single_spaced_take, andb_true_r by assumption.
  destruct n, s; simpl in *; auto.
Qed.

Lemma split_go_word_app w : forall cur rest,
  forallb (fun c => negb (py_isspace c)) w = true ->
  split_go cur (w ++ rest) = split_go (rev w ++ cur) rest.
Proof.
  induction w as [|c w IH]; intros cur rest H; simpl in *; [reflexivity|].
  apply andb_true_iff in H as [Hc Hw]. apply negb_true_iff in Hc. rewrite Hc.
  rewrite IH by assumption. rewrite <- app_assoc. reflexivity.
Qed.

Lemma split_join ws : Forall word ws -> py_split (py_join [SPACE] ws) = ws.
Proof.
  unfold py_split. induction 1 as [|w ws [Hne Hw] Hws IH]; [reflexivity|].
  assert (Hr : rev w <> []).
  { intros Hr. apply Hne. rewrite <- (rev_involutive w), Hr. reflexivity. }
  destruct ws as [|w2 ws].
  - simpl. rewrite <- (app_nil_r w) at 1. rewrite split_go_word_app by assumption.
    rewrite app_nil_r. simpl. destruct (rev w) eqn:E; [congruence|].
    rewrite <- E, rev_involutive. reflexivity.
  - rewrite join_cons2, split_go_word_app, app_nil_r by assumption.
    change ([SPACE] ++ py_join [SPACE] (w2 :: ws)) with (SPACE :: py_join [SPACE] (w2 :: ws)).
    cbn [split_go]. change (py_isspace SPACE) with true. cbn iota.
    destruct (rev w) eqn:E; [congruence|].
    rewrite <- E, rev_involutive, IH. reflexivity.
Qed.

Lemma split_collapse s : py_split (collapse_ws s) = py_split s.
Proof. apply split_join, py_split_words. Qed.

(** ** Numbers *)
Lemma Qltb_true (a b : Q) : Qltb a b = true <-> (a < b)%Q.
Proof.
  unfold Qltb. rewrite negb_true_iff. split.
  - intros H. apply Qnot_le_lt. intros Hle.
    apply Qle_bool_iff in Hle. congruence.
  - intros H. destruct (Qle_bool b a) eqn:E; [|reflexivity].
    apply Qle_bool_iff in E. exfalso. eapply Qlt_not_le; eauto.
Qed.

Lemma Qltb_false (a b : Q) : Qltb a b = false <-> (b <= a)%Q.
Proof.
  unfold Qltb. rewrite negb_false_iff. apply Qle_bool_iff.
Qed.

Lemma py_int_floor (x : Q) : (0 <= x)%Q -> py_int x = Qfloor x.
Proof.
  destruct x as [n d]. unfold Qle, py_int, Qfloor. simpl. intros H.
  apply Z.quot_div_nonneg; lia.
Qed.

End PyFacts.
(* ===================================================================== *)
(** * The automation flow: theorems                                        *)
(* ===================================================================== *)

Module AutomatorFacts.
Import Automator.
Import PyFacts.
Import Sim.

Ltac norm_app :=
  repeat first [ rewrite <- app_assoc | rewrite app_nil_r | progress simpl ].

Section Facts.
Context {W : Type} {HW : Host W}.
Variable cfg : config.

Lemma bind_Ok {E A B} (m : M W E A) (k : A -> M W E B) w a w1 t1 :
  m w = (Ok a, w1, t1) ->
  bind m k w = (let '(r, w2, t2) := k a w1 in (r, w2, t1 ++ t2)).
Proof. intros H. unfold bind. rewrite H. destruct (k a w1) as [[r w2] t2]. reflexivity. Qed.

Lemma bind_Raise {E A B} (m : M W E A) (k : A -> M W E B) w e w1 t1 :
  m w = (Raise e, w1, t1) -> bind m k w = (Raise e, w1, t1).
Proof. intros H. unfold bind. rewrite H. reflexivity. Qed.

Lemma bind_Diverged {E A B} (m : M W E A) (k : A -> M W E B) w w1 t1 :
  m w = (Diverged, w1, t1) -> bind m k w = (Diverged, w1, t1).
Proof. intros H. unfold bind. rewrite H. reflexivity. Qed.

Lemma screenshot_returns w : exists w' t, _screenshot cfg w = (Ok tt, w', t).
Proof.
  unfold _screenshot. destruct (SCREENSHOT_ON_ERROR cfg); simpl.
  - unfold try_except, bind, call, ret.
    destruct (drv bool (save_screenshot (utf8 "/tmp/rhid-last.png")) w) as [[e|b] w']; eauto.
  - unfold ret. eauto.
Qed.

(** The excerpt [_dump_small_html] returns. *)
Lemma dump_small_html_spec w :
  exists html w' t,
    _dump_small_html 2000 w = (Ok html, w', t)
    /\ ws_collapsed html = true
    /\ (length html <= 2000)%nat
    /\ (forall src w1, drv _ page_source w = (inr (Some src), w1) ->
          html = py_prefix 2000 (collapse_ws src)).
Proof.
  unfold _dump_small_html, try_except, bind, call, ret.
  destruct (drv (option pystr) page_source w) as [[e|src] w'] eqn:E.
  - exists MSG_NO_HTML, w'. eexists. split; [reflexivity|].
    split; [reflexivity|]. split; [vm_compute; lia|]. intros; discriminate.
  - eexists _, w', _. split; [reflexivity|]. split; [|split].
    + apply ws_collapsed_take, collapse_ws_collapsed.
    + unfold py_prefix. rewrite length_take. lia.
    + intros src' w1 [= -> _]. reflexivity.
Qed.

Lemma starts_call {A} (c : dcall A) : starts (call c).
Proof.
  intros w. unfold call. destruct (drv A c w) as [[e|a] w']; eauto 6.
Qed.

Lemma starts_bind {E A B} (m : M W E A) (k : A -> M W E B) : starts m -> starts (bind m k).
Proof.
  intros Hm w. destruct (Hm w) as (r & w1 & e & t & H). unfold bind. rewrite H.
  destruct r; eauto 6. destruct (k a w1) as [[r2 w2] t2]. simpl. eauto 6.
Qed.

Lemma starts_try_except {E A} (m : M W E A) h : starts m -> starts (try_except m h).
Proof.
  intros Hm w. destruct (Hm w) as (r & w1 & e & t & H). unfold try_except. rewrite H.
  destruct r; eauto 6. destruct (h e0 w1) as [[r2 w2] t2]. simpl. eauto 6.
Qed.

(** *** Inversion of successful computations *)
Lemma bind_inv_Ok {E A B} (m : M W E A) (k : A -> M W E B) w b w' t :
  bind m k w = (Ok b, w', t) ->
  exists a w1 t1 t2, m w = (Ok a, w1, t1) /\ k a w1 = (Ok b, w', t2) /\ t = t1 ++ t2.
Proof.
  unfold bind. destruct (m w) as [[[a|e|] w1] t1]; try discriminate.
  destruct (k a w1) as [[r w2] t2] eqn:Ek. intros [= -> -> <-]. eauto 8.
Qed.

Lemma try_except_inv_Ok {E A} (m : M W E A) h w a w' t :
  try_except m h w = (Ok a, w', t) ->
  m w = (Ok a, w', t)
  \/ exists e w1 t1 t2, m w = (Raise e, w1, t1) /\ h e w1 = (Ok a, w', t2) /\ t = t1 ++ t2.
Proof.
  unfold try_except. destruct (m w) as [[[a0|e|] w1] t1]; try discriminate; auto.
  destruct (h e w1) as [[r w2] t2] eqn:Eh. intros [= -> -> <-]. right. eauto 8.
Qed.

(** *** Temporary directories *)
Lemma live_from_app t1 : forall acc t2,
  live_from acc (t1 ++ t2) = live_from (live_from acc t1) t2.
Proof.
  induction t1 as [|e t1 IH]; intros acc t2; simpl; [reflexivity|].
  destruct (allocated e); [apply IH|]. destruct (removed e); apply IH.
Qed.

Lemma live_from_neutral t : forall acc, Forall neutral t -> live_from acc t = acc.
Proof.
  induction t as [|e t IH]; intros acc H; simpl; [reflexivity|].
  inversion H as [|? ? [Ha Hr] Ht]; subst. rewrite Ha, Hr. apply IH. assumption.
Qed.

Lemma live_from_removals t : forall paths acc,
  Forall2 removes t paths ->
  live_from acc t = fold_left (fun a p => filter (fun q => q <> p) a) paths acc.
Proof.
  induction t as [|e t IH]; intros paths acc H; inversion H as [|? p ? ps [Hr Ha] Ht]; subst;
    simpl; [reflexivity|].
  rewrite Ha, Hr. apply IH. assumption.
Qed.

Lemma filter_out_all paths : forall acc : list pystr,
  (forall x, x ∈ acc -> x ∈ paths) ->
  fold_left (fun a p => filter (fun q => q <> p) a) paths acc = [].
Proof.
  induction paths as [|p ps IH]; intros acc H; simpl.
  - destruct acc as [|x acc]; [reflexivity|].
    exfalso. specialize (H x). rewrite elem_of_nil in H. apply H. left.
  - apply IH. intros x Hx. apply list_elem_of_filter in Hx as [Hne Hx].
    apply H in Hx. apply elem_of_cons in Hx as [->|Hx]; [congruence|assumption].
Qed.

Lemma cleanup_spec paths : forall w,
  exists w' t, _cleanup_tmp_list paths w = (Ok tt, w', t) /\ Forall2 removes t paths.
Proof.
  induction paths as [|d ps IH]; intros w; simpl.
  - exists w, []. split; [reflexivity|constructor].
  - unfold bind, try_except, syscall, ret.
    destruct (sys unit (rmtree d) w) as [[e|[]] w1] eqn:E;
      destruct (IH w1) as (w2 & t2 & -> & H2); eexists _, _;
      (split; [reflexivity|]); simpl; constructor; auto; split; reflexivity.
Qed.

Lemma mktemp_inv prefix w r w' t :
  _mktemp_under_base cfg prefix w = (r, w', t) ->
  match r with
  | Ok p => p <> [] /\ t = [SCall (mkdtemp prefix (CHROME_USER_DATA_BASE cfg)) (inr p)]
  | Raise e => t = [SCall (mkdtemp prefix (CHROME_USER_DATA_BASE cfg)) (inl e)]
  | Diverged => False
  end.
Proof.
  unfold _mktemp_under_base, syscall.
  destruct (sys pystr (mkdtemp prefix (CHROME_USER_DATA_BASE cfg)) w) as [[e|p] w1] eqn:E;
    intros [= <- <- <-]; [reflexivity|].
  split; [|reflexivity]. eapply mkdtemp_nonempty; eauto.
Qed.

Lemma alloc_dirs_inv w r w' t :
  alloc_dirs cfg w = (r, w', t) ->
  Forall alloc_only t
  /\ r <> Diverged
  /\ forall dirs, r = Ok dirs -> forall acc, live_from acc t = acc ++ dirs_list dirs.
Proof.
  unfold alloc_dirs. unfold bind at 1.
  destruct (_mktemp_under_base cfg (utf8 "data-") w) as [[[p1|e1|] w1] t1] eqn:E1;
    apply mktemp_inv in E1; [| |contradiction].
  2:{ intros [= <- <- <-]. subst. repeat split; try discriminate.
      repeat constructor. }
  destruct E1 as [Hp1 ->]. unfold bind at 1.
  destruct (_mktemp_under_base cfg (utf8 "cache-") w1) as [[[p2|e2|] w2] t2] eqn:E2;
    apply mktemp_inv in E2; [| |contradiction].
  2:{ intros [= <- <- <-]. subst. repeat split; try discriminate.
      repeat constructor. }
  destruct E2 as [Hp2 ->]. destruct (RHID_USE_USER_DATA cfg).
  - unfold bind at 1. unfold bind at 1.
    destruct (_mktemp_under_base cfg (utf8 "profile-") w2) as [[[p3|e3|] w3] t3] eqn:E3;
      apply mktemp_inv in E3; [| |contradiction].
    2:{ intros [= <- <- <-]. subst. repeat split; try discriminate.
        repeat constructor. }
    destruct E3 as [Hp3 ->]. unfold ret. intros [= <- <- <-].
    repeat split; try discriminate; [repeat constructor|].
    intros dirs [= <-] acc. simpl.
    destruct p3; [congruence|]. simpl. rewrite <- !app_assoc. reflexivity.
  - unfold bind at 1. unfold ret. intros [= <- <- <-].
    repeat split; try discriminate; [repeat constructor|].
    intros dirs [= <-] acc. simpl. rewrite <- !app_assoc. reflexivity.
Qed.

Lemma options_inv d c u w r w' t :
  _make_chrome_options cfg d c u w = (r, w', t) -> Forall neutral t /\ r <> Diverged.
Proof.
  unfold _make_chrome_options. destruct (py_not (CHROME_BINARY cfg)).
  - unfold ret. intros [= <- <- <-]. split; [constructor|discriminate].
  - unfold bind, syscall, ret.
    destruct (sys bool (path_exists (CHROME_BINARY cfg)) w) as [[e|b] w1];
      intros [= <- <- <-]; split; try discriminate; repeat constructor.
Qed.

Lemma launch_inv dirs w r w' t :
  launch cfg dirs w = (r, w', t) ->
  Forall neutral t /\ r <> Diverged /\ forall d, r = Ok d -> _tmp_dirs d = dirs_list dirs.
Proof.
  destruct dirs as [[dp cd] ud]. unfold launch. unfold bind at 1.
  destruct (_make_chrome_options cfg dp cd ud w) as [[[o|e|] w1] t1] eqn:E1;
    apply options_inv in E1 as [H1 Hd1]; [| |congruence].
  2:{ intros [= <- <- <-]. repeat split; try discriminate; assumption. }
  unfold bind, syscall, ret.
  destruct (sys pystr chromedriver_install w1) as [[e|p] w2].
  { intros [= <- <- <-]. repeat split; try discriminate.
    apply Forall_app. split; [assumption|]. repeat constructor. }
  destruct (sys N (webdriver_Chrome p o) w2) as [[e|n] w3]; intros [= <- <- <-].
  - repeat split; try discriminate.
    apply Forall_app. split; [assumption|]. repeat constructor.
  - repeat split; try discriminate.
    + apply Forall_app. split; [assumption|]. repeat constructor.
    + intros d [= <-]. reflexivity.
Qed.

Lemma build_attempts_live attempts : forall dirs last w d w' t,
  build_attempts cfg attempts dirs last w = (Ok d, w', t) ->
  live_from (dirs_list dirs) t = _tmp_dirs d.
Proof.
  induction attempts as [|n rest IH]; intros dirs last w d w' t; simpl.
  - destruct last; discriminate.
  - intros H. apply try_except_inv_Ok in H as [H|(e & w1 & t1 & t2 & Hl & Hh & ->)].
    + apply launch_inv in H as (Hn & _ & Hd).
      rewrite live_from_neutral by assumption. symmetry. auto.
    + apply launch_inv in Hl as (Hn & _ & _).
      rewrite live_from_app, (live_from_neutral t1) by assumption.
      destruct (isinstance_WebDriverException e).
      * apply bind_inv_Ok in Hh as ([] & w2 & t3 & t4 & Hc & Hh & ->).
        apply bind_inv_Ok in Hh as (dirs' & w3 & t5 & t6 & Ha & Hh & ->).
        apply bind_inv_Ok in Hh as ([] & w4 & t7 & t8 & Hs & Hh & ->).
        destruct (cleanup_spec (dirs_list dirs) w1) as (w2' & t3' & Hc' & Hr).
        rewrite Hc in Hc'. injection Hc' as <- <-.
        apply alloc_dirs_inv in Ha as (_ & _ & Ha).
        unfold lift, sleep in Hs. injection Hs as <- <-.
        rewrite !live_from_app. rewrite (live_from_removals _ _ _ Hr).
        rewrite filter_out_all by auto. rewrite (Ha _ eq_refl). simpl.
        eapply IH. eassumption.
      * apply bind_inv_Ok in Hh as ([] & w2 & t3 & t4 & Hc & Hh & ->).
        discriminate.
Qed.

Lemma build_driver_live w d w' t :
  _build_driver cfg w = (Ok d, w', t) -> live t = _tmp_dirs d.
Proof.
  unfold _build_driver. intros H.
  apply bind_inv_Ok in H as (dirs & w1 & t1 & t2 & Ha & Hb & ->).
  apply alloc_dirs_inv in Ha as (_ & _ & Ha).
  unfold live. rewrite live_from_app, (Ha _ eq_refl). simpl.
  eapply build_attempts_live. eassumption.
Qed.

(** *** What a computation can emit *)
Lemma emits_ret {E A} (P : E -> Prop) (a : A) : emits P (@ret W E A a).
Proof. intros w r w' t [= <- <- <-]. constructor. Qed.

Lemma emits_raise {E A} (P : E -> Prop) e : emits P (@raise W E A e).
Proof. intros w r w' t [= <- <- <-]. constructor. Qed.

Lemma emits_bind {E A B} (P : E -> Prop) (m : M W E A) (k : A -> M W E B) :
  emits P m -> (forall a, emits P (k a)) -> emits P (bind m k).
Proof.
  intros Hm Hk w r w' t. unfold bind.
  destruct (m w) as [[[a|e|] w1] t1] eqn:Em; specialize (Hm _ _ _ _ Em).
  - destruct (k a w1) as [[r2 w2] t2] eqn:Ek. specialize (Hk _ _ _ _ _ Ek).
    intros [= <- <- <-]. apply Forall_app. auto.
  - intros [= <- <- <-]. assumption.
  - intros [= <- <- <-]. assumption.
Qed.

Lemma emits_lift {A} (P : event -> Prop) (m : M W devent A) :
  (forall e, P (Low e)) -> emits P (lift m).
Proof.
  intros HP w r w' t. unfold lift. destruct (m w) as [[r1 w1] t1].
  intros [= <- <- <-]. induction t1; simpl; constructor; auto.
Qed.

Lemma emits_utcnow (P : event -> Prop) : emits P utcnow.
Proof.
  intros w r w' t. unfold utcnow. destruct (utc_now w). intros [= <- <- <-]. constructor.
Qed.

Lemma emits_now_human (P : event -> Prop) : emits P _now_human.
Proof.
  intros w r w' t. unfold _now_human. destruct (now_human w). intros [= <- <- <-]. constructor.
Qed.

Lemma punch_body_neutral env fuel trigger started_at :
  emits neutral (punch_body cfg env fuel trigger started_at).
Proof.
  unfold punch_body. destruct (_ || _); [apply emits_raise|].
  assert (Hlow : forall e, neutral (Low e)) by (intros e; split; reflexivity).
  repeat (first [ apply emits_bind; [|intros ?]
                | apply emits_lift, Hlow
                | apply emits_utcnow
                | apply emits_now_human
                | apply emits_ret ]).
Qed.

Lemma teardown_spec d w :
  exists rq w1 tc w2,
    drv _ driver_quit w = (rq, w1)
    /\ teardown d w = (Ok tt, w2, Low (DCall driver_quit rq) :: tc)
    /\ Forall2 removes tc (_tmp_dirs d).
Proof.
  unfold teardown, bind, try_except, lift, call, ret.
  destruct (drv unit driver_quit w) as [[e|[]] w1] eqn:E;
    destruct (cleanup_spec (_tmp_dirs d) w1) as (w2 & tc & -> & Hc);
    eexists _, _, tc, w2; (split; [reflexivity|]); (split; [reflexivity|assumption]).
Qed.

Lemma try_finally_inv_Ok {E A} (m : M W E A) f w a w' t :
  try_finally m f w = (Ok a, w', t) ->
  exists w1 t1 t2, m w = (Ok a, w1, t1) /\ f w1 = (Ok tt, w', t2) /\ t = t1 ++ t2.
Proof.
  unfold try_finally. destruct (m w) as [[[a0|e|] w1] t1]; try discriminate;
    destruct (f w1) as [[[[]|e'|] w2] t2] eqn:Ef; try discriminate.
  intros [= -> -> <-]. eauto 8.
Qed.

Lemma run_unfold env fuel trigger w t0 w0 :
  utc_now w = (t0, w0) ->
  run_rhid_punch cfg env fuel trigger w =
  (d <- try_except (_build_driver cfg) (fun e => raise (wrap_failure e)) ;;
   try_finally
     (try_except (punch_body cfg env fuel (default (utf8 "manual") trigger) t0)
        (fun e => raise (wrap_failure e)))
     (teardown d)) w0.
Proof.
  intros H. unfold run_rhid_punch. unfold bind at 1. unfold utcnow at 1. rewrite H.
  match goal with |- context [bind ?m ?k w0] => destruct (bind m k w0) as [[r w1] t1] end.
  reflexivity.
Qed.

Lemma removed_not_launch e p : removed e = Some p -> is_launch e = false.
Proof. destruct e as [d|A c r]; [discriminate|]. destruct c; simpl; congruence. Qed.

Lemma removes_not_launch t paths :
  Forall2 removes t paths -> Forall (fun e => is_launch e = false) t.
Proof.
  induction 1 as [|? ? ? ? [H _]]; constructor; eauto using removed_not_launch.
Qed.

Lemma alloc_not_launch t : Forall alloc_only t -> Forall (fun e => is_launch e = false) t.
Proof. induction 1 as [|? ? [_ ?]]; constructor; auto. Qed.

Lemma removes_removed t paths :
  Forall2 removes t paths -> Forall2 (fun e p => removed e = Some p) t paths.
Proof. induction 1 as [|? ? ? ? [? _]]; constructor; auto. Qed.

Lemma lift_inv_Ok {A} (m : M W devent A) w a w' t :
  lift m w = (Ok a, w', t) -> exists t0, m w = (Ok a, w', t0) /\ t = map Low t0.
Proof.
  unfold lift. destruct (m w) as [[r w1] t1]. intros [= -> -> <-]. eauto.
Qed.

(** A run whose session was created: the body's outcome goes through the
    [except] clauses, then the session is quit and its directories are
    removed, whatever these calls answer. *)
Lemma run_with_session env fuel trigger w t0 w0 d w1 t1 r w2 t2 :
  utc_now w = (t0, w0) ->
  _build_driver cfg w0 = (Ok d, w1, t1) ->
  punch_body cfg env fuel (default (utf8 "manual") trigger) t0 w1 = (r, w2, t2) ->
  r <> Diverged ->
  exists rq w3 tc w4,
    drv _ driver_quit w2 = (rq, w3)
    /\ run_rhid_punch cfg env fuel trigger w =
       (wrapped r, w4, t1 ++ t2 ++ Low (DCall driver_quit rq) :: tc)
    /\ Forall2 removes tc (_tmp_dirs d).
Proof.
  intros Hnow Hb Hp Hr.
  destruct (teardown_spec d w2) as (rq & w3 & tc & w4 & Hq & Ht & Hc).
  exists rq, w3, tc, w4. split; [assumption|]. split; [|assumption].
  rewrite (run_unfold env fuel trigger w t0 w0 Hnow).
  unfold bind, try_except at 1. rewrite Hb.
  unfold try_finally, try_except. rewrite Hp.
  destruct r as [p|e|]; [| |congruence]; unfold raise; rewrite Ht;
    rewrite ?app_nil_r; reflexivity.
Qed.

(** A run that returns a payload: the clock-in flow returned its result
    text, and the payload is assembled from it and the trigger tag. *)
Lemma run_inv_Ok env fuel trigger w p w' t :
  run_rhid_punch cfg env fuel trigger w = (Ok p, w', t) ->
  exists resultado wr wr' tr email hora took ts,
    _registrar_ponto cfg fuel wr = (Ok resultado, wr', tr)
    /\ p = build_payload cfg (default (utf8 "manual") trigger) email resultado hora took ts.
Proof.
  destruct (utc_now w) as [t0 w0] eqn:Hnow.
  rewrite (run_unfold env fuel trigger w t0 w0 Hnow). intros H.
  apply bind_inv_Ok in H as (d & w1 & t1 & t2 & _ & H & _).
  apply try_finally_inv_Ok in H as (w2 & t3 & t4 & H & _ & _).
  apply try_except_inv_Ok in H as [H|(e & ? & ? & ? & _ & H & _)]; [|discriminate].
  unfold punch_body in H. destruct (_ || _); [discriminate|].
  apply bind_inv_Ok in H as (? & ? & ? & ? & _ & H & _).
  apply bind_inv_Ok in H as (resultado & ? & ? & ? & Hreg & H & _).
  apply lift_inv_Ok in Hreg as (tr & Hreg & _).
  apply bind_inv_Ok in H as (? & ? & ? & ? & _ & H & _).
  apply bind_inv_Ok in H as (? & ? & ? & ? & _ & H & _).
  apply bind_inv_Ok in H as (? & ? & ? & ? & _ & H & _).
  injection H as <- _ _. eauto 12.
Qed.

Lemma payload_footer env fuel trigger w p w' t :
  run_rhid_punch cfg env fuel trigger w = (Ok p, w', t) ->
  exists e, embeds p = [e]
            /\ footer_text e = utf8 "Trigger: " ++ default (utf8 "manual") trigger.
Proof.
  intros H. apply run_inv_Ok in H as (? & ? & ? & ? & ? & ? & ? & ? & _ & ->).
  unfold build_payload. destruct (_location_human cfg). eexists. split; reflexivity.
Qed.

End Facts.

(** ** C2: dry run *)

(** In dry-run mode nothing is done past the enabled final button but the
    URL read of the log line: the trace of [_registrar_ponto] is that of
    [reach_enabled_final], followed by that one read when the button was
    reached, so the code of the final click ([click_final]) is never run.
    When the read answers, the "DRY RUN: ..." text is returned, and every
    run that returns a payload reports that text in its "Resultado"
    field. *)
Lemma dry_run_skips_final_click {W : Type} {HW : Host W} (cfg : config) (fuel : nat) (w : W) :
  PUNCH_DRY_RUN cfg = true ->
  (forall b w1 t1 u w2,
     reach_enabled_final cfg fuel w = (Ok b, w1, t1) ->
     drv _ current_url w1 = (inr u, w2) ->
     _registrar_ponto cfg fuel w
     = (Ok MSG_DRY_RUN, w2, t1 ++ [DCall current_url (inr u)]))
  /\ (exists tl,
        snd (_registrar_ponto cfg fuel w) = snd (reach_enabled_final cfg fuel w) ++ tl
        /\ (tl = [] \/ exists r, tl = [DCall current_url r]))
  /\ (forall env trigger p w' t,
        run_rhid_punch cfg env fuel trigger w = (Ok p, w', t) ->
        exists e, embeds p = [e]
                  /\ In {| f_name := utf8 "Resultado"; f_value := MSG_DRY_RUN;
                           f_inline := false |} (fields e)).
Proof.
  intros Hdry.
  assert (Hreg : forall w0 res w1 t1,
             _registrar_ponto cfg fuel w0 = (Ok res, w1, t1) -> res = MSG_DRY_RUN).
  { intros w0 res w1 t1. unfold _registrar_ponto. rewrite Hdry. intros H.
    apply bind_inv_Ok in H as (? & ? & ? & ? & _ & H & _).
    apply bind_inv_Ok in H as (? & ? & ? & ? & _ & H & _). unfold ret in H.
    injection H as Hres _ _. symmetry. exact Hres. }
  unfold _registrar_ponto at 1 2. rewrite Hdry.
  split; [|split].
  - intros b w1 t1 u w2 H Hu. rewrite (bind_Ok _ _ _ _ _ _ H).
    unfold bind, call, ret. rewrite Hu. reflexivity.
  - unfold bind at 1.
    destruct (reach_enabled_final cfg fuel w) as [[[b|e|] w1] t1]; simpl;
      [|exists []; rewrite app_nil_r; auto ..].
    unfold bind, call, ret.
    destruct (drv _ current_url w1) as [[e|u] w2]; simpl; eexists; split;
      try reflexivity; right; eexists; reflexivity.
  - intros env trigger p w' t H.
    apply run_inv_Ok in H as (res & ? & ? & ? & ? & ? & ? & ? & Hres & ->).
    apply Hreg in Hres as ->.
    unfold build_payload. destruct (_location_human cfg). eexists. split; [reflexivity|].
    simpl. auto 10.
Qed.

(** C2.  Two inputs, both with the dry-run flag set and both reaching the
    enabled final button, on which the code does not do what the claim
    says.

    On a browser that already shows the clock-in page, the dashboard stage
    finds the final button through its third locator, which is also the
    third final locator, and clicks it; the flow then finds that same
    button enabled and returns the "DRY RUN: ... clique final não
    executado." text: the button was clicked all the same.

    On a browser whose session is lost just after the button was seen
    enabled, the [driver.current_url] read of the dry run's log line
    raises, and so does [_registrar_ponto], with that exception: the dry-run
    outcome is not returned. *)
Theorem dry_run_failing_inputs :
  PUNCH_DRY_RUN (cfg0 true) = true
  /\ dash_btns !! 2%nat = final_locators !! 2%nat
  /\ (fst (fst (@reach_enabled_final sim Pages.on_marcacao (cfg0 true) 240 sim0)) = Ok Pages.FINAL_BUTTON
      /\ fst (fst (@_registrar_ponto sim Pages.on_marcacao (cfg0 true) 240 sim0)) = Ok MSG_DRY_RUN
      /\ omap clicked (snd (@_registrar_ponto sim Pages.on_marcacao (cfg0 true) 240 sim0))
         = [Pages.FINAL_BUTTON])
  /\ (fst (fst (@reach_enabled_final sim (Pages.url_dies (20101 # 20)) (cfg0 true) 240 sim0))
      = Ok 1%N
      /\ fst (fst (@_registrar_ponto sim (Pages.url_dies (20101 # 20)) (cfg0 true) 240 sim0))
         = Raise (Exn WebDriverException (selenium_str (utf8 "chrome not reachable")))).
Proof. repeat split; vm_compute; reflexivity. Qed.

(** ** Production mode *)

Section First.
Context {W : Type} {HW : Host W}.

Lemma first_call {A} (c : dcall A) (w : W) :
  exists a r w' t, call c w = (r, w', DCall c a :: t).
Proof. unfold call. destruct (drv A c w) as [[e|a] w']; eauto 6. Qed.

Lemma first_bind {A B C} (c : dcall C) (m : M W devent A) (k : A -> M W devent B) :
  (forall w, exists a r w' t, m w = (r, w', DCall c a :: t)) ->
  forall w, exists a r w' t, bind m k w = (r, w', DCall c a :: t).
Proof.
  intros Hm w. destruct (Hm w) as (a & r & w1 & t & H). unfold bind. rewrite H.
  destruct r as [x|e|]; eauto 6. destruct (k x w1) as [[r2 w2] t2]. simpl. eauto 6.
Qed.

Lemma first_try_except {A C} (c : dcall C) (m : M W devent A) h :
  (forall w, exists a r w' t, m w = (r, w', DCall c a :: t)) ->
  forall w, exists a r w' t, try_except m h w = (r, w', DCall c a :: t).
Proof.
  intros Hm w. destruct (Hm w) as (a & r & w1 & t & H). unfold try_except. rewrite H.
  destruct r as [x|e|]; eauto 6. destruct (h e w1) as [[r2 w2] t2]. simpl. eauto 6.
Qed.

End First.

(** X6.  In production mode the flow does not stop at the enabled final
    button: the next thing it asks of the browser is [find_element] on the
    first of the final locators, with which the final click looks the
    button up again, and the only text it can return is "Ponto
    registrado.". *)
Lemma production_goes_on {W : Type} {HW : Host W} (cfg : config) (fuel : nat) (w : W) b w1 t1 :
  PUNCH_DRY_RUN cfg = false ->
  reach_enabled_final cfg fuel w = (Ok b, w1, t1) ->
  exists loc rest a r w2 t2,
    final_locators = loc :: rest
    /\ _registrar_ponto cfg fuel w = (r, w2, t1 ++ DCall (find_element loc) a :: t2)
    /\ (forall res, r = Ok res -> res = MSG_REGISTERED).
Proof.
  intros Hdry H.
  assert (Hres : forall res w2 t2,
             _registrar_ponto cfg fuel w = (Ok res, w2, t2) -> res = MSG_REGISTERED).
  { intros res w2 t2 Hr. unfold _registrar_ponto in Hr. rewrite Hdry in Hr.
    apply bind_inv_Ok in Hr as (? & ? & ? & ? & _ & Hr & _).
    apply bind_inv_Ok in Hr as (? & ? & ? & ? & _ & Hr & _).
    apply bind_inv_Ok in Hr as (? & ? & ? & ? & _ & Hr & _).
    unfold ret in Hr. injection Hr as Hr _ _. symmetry. exact Hr. }
  revert Hres. unfold _registrar_ponto. rewrite Hdry.
  rewrite (bind_Ok _ _ _ _ _ _ H).
  unfold final_locators at 1.
  match goal with
  | |- context [click_final cfg fuel b] =>
    destruct (first_bind (find_element (hd (By_ID, []) final_locators))
                (click_final cfg fuel b) (fun _ => confirmation ;; ret MSG_REGISTERED)) with (w := w1)
      as (a & r & w2 & t2 & Hk)
  end.
  - unfold click_final, final_locators. cbn [find_first hd].
    apply first_try_except, first_bind, first_try_except, first_bind. intros w0.
    apply first_call.
  - rewrite Hk. intros Hres. eexists _, _, a, r, w2, t2. split; [reflexivity|].
    split; [reflexivity|]. intros res ->. eapply Hres. reflexivity.
Qed.

Lemma production_goes_on_witness :
  exists loc rest a r w2 t2,
    final_locators = loc :: rest
    /\ @_registrar_ponto sim (sim_host healthy) (cfg0 false) 100 sim0
       = (r, w2, snd (@reach_enabled_final sim (sim_host healthy) (cfg0 false) 100 sim0)
                 ++ DCall (find_element loc) a :: t2)
    /\ (forall res, r = Ok res -> res = MSG_REGISTERED).
Proof.
  assert (Hr : fst (fst (@reach_enabled_final sim (sim_host healthy) (cfg0 false) 100 sim0))
               = Ok 1%N) by (vm_compute; reflexivity).
  destruct (@reach_enabled_final sim (sim_host healthy) (cfg0 false) 100 sim0)
    as [[r w1] t1] eqn:E.
  simpl in Hr. subst r.
  exact (@production_goes_on sim (sim_host healthy) (cfg0 false) 100 sim0 1%N w1 t1
           eq_refl E).
Defined.

(** ** C9: the diagnostic excerpt *)

(** C9.  When the search for the final button ends at its deadline with
    nothing found, [_registrar_ponto] raises a RuntimeError whose text is
    the fixed message followed by an excerpt of the page; the excerpt is at
    most 2000 characters long (the code cuts it at 800), contains no
    whitespace but single spaces between words, and for every page source
    the browser returns it is the prefix of the source with its runs of
    whitespace collapsed.  [run_rhid_punch] passes the text on behind its
    own prefix. *)
Theorem missing_final_button_error {W : Type} {HW : Host W} (cfg : config) (fuel : nat)
    (w w1 : W) (t1 : list devent) :
  find_final_button cfg fuel w = (Ok None, w1, t1) ->
  exists excerpt w2 t2,
    _registrar_ponto cfg fuel w =
      (Raise (Exn RuntimeError (MSG_NO_FINAL_BUTTON ++ excerpt)), w2, t1 ++ t2)
    /\ (length excerpt <= 2000)%nat
    /\ (length excerpt <= 800)%nat
    /\ ws_collapsed excerpt = true
    /\ (forall src w', drv _ page_source w1 = (inr (Some src), w') ->
          excerpt = py_prefix 800 (py_prefix 2000 (collapse_ws src)))
    /\ exn_str (wrap_failure (Exn RuntimeError (MSG_NO_FINAL_BUTTON ++ excerpt))) =
       MSG_FAIL ++ MSG_NO_FINAL_BUTTON ++ excerpt.
Proof.
  intros H.
  destruct (dump_small_html_spec w1) as (html & w2 & t2 & Hd & Hc & Hl & Hs).
  destruct (screenshot_returns cfg w2) as (w3 & t3 & Hsh).
  exists (py_prefix 800 html), w3, (t2 ++ t3 ++ []).
  split; [|split; [|split; [|split; [|split]]]].
  - unfold _registrar_ponto, reach_enabled_final.
    unfold bind at 1. unfold bind at 1. rewrite H.
    unfold final_button_missing. rewrite (bind_Ok _ _ _ _ _ _ Hd).
    rewrite (bind_Ok _ _ _ _ _ _ Hsh). unfold raise. reflexivity.
  - unfold py_prefix. rewrite length_take. lia.
  - unfold py_prefix. rewrite length_take. lia.
  - apply ws_collapsed_take. assumption.
  - intros src w' Hsrc. rewrite (Hs _ _ Hsrc). reflexivity.
  - reflexivity.
Qed.

Lemma missing_final_button_error_witness :
  exists excerpt,
    fst (fst (@_registrar_ponto sim (sim_host no_button) (cfg0 false) 100 sim0)) =
    Raise (Exn RuntimeError (MSG_NO_FINAL_BUTTON ++ excerpt))
    /\ excerpt = utf8 "<html> <body> Carregando... </body> </html>".
Proof.
  assert (Hr : fst (fst (@find_final_button sim (sim_host no_button) (cfg0 false) 100 sim0))
               = Ok None) by (vm_compute; reflexivity).
  destruct (@find_final_button sim (sim_host no_button) (cfg0 false) 100 sim0)
    as [[r w1] t1] eqn:E.
  simpl in Hr. subst r.
  destruct (@missing_final_button_error sim (sim_host no_button) (cfg0 false) 100 sim0 w1 t1 E)
    as (excerpt & w2 & t2 & H & _ & _ & _ & Hs & _).
  exists excerpt. rewrite H. split; [reflexivity|].
  rewrite (Hs _ w1 eq_refl). vm_compute. reflexivity.
Defined.

(** X5.  The whitespace-collapsed page source ([" ".join(html.split())])
    has the words of the source, in order, and no whitespace but single
    spaces between them. *)
Lemma collapse_keeps_words (src : pystr) :
  py_split (collapse_ws src) = py_split src /\ ws_collapsed (collapse_ws src) = true.
Proof. split; [apply split_collapse|apply collapse_ws_collapsed]. Qed.

(** ** C6: teardown *)

(** C6.  Once [_build_driver] has returned a session, every way the rest
    of [run_rhid_punch] ends (a payload, or an exception at any stage of
    the body) goes through the [finally] block: [driver.quit()] is called,
    then [shutil.rmtree] on each directory of [_tmp_dirs], whatever these
    calls answer; the outcome is the body's, wrapped by the [except]
    clauses; and no directory created during the run is left without an
    [rmtree] after its creation. *)
Theorem teardown_always_runs {W : Type} {HW : Host W} (cfg : config) (env : environ)
    (fuel : nat) (trigger : option pystr) (w : W) t0 w0 d w1 t1 r w2 t2 :
  utc_now w = (t0, w0) ->
  _build_driver cfg w0 = (Ok d, w1, t1) ->
  punch_body cfg env fuel (default (utf8 "manual") trigger) t0 w1 = (r, w2, t2) ->
  r <> Diverged ->
  exists rq w3 tc w4,
    drv _ driver_quit w2 = (rq, w3)
    /\ run_rhid_punch cfg env fuel trigger w =
       (wrapped r, w4, t1 ++ t2 ++ Low (DCall driver_quit rq) :: tc)
    /\ Forall2 (fun e p => removed e = Some p) tc (_tmp_dirs d)
    /\ live (t1 ++ t2 ++ Low (DCall driver_quit rq) :: tc) = [].
Proof.
  intros Hnow Hb Hp Hr.
  destruct (run_with_session cfg env fuel trigger w _ _ _ _ _ _ _ _ Hnow Hb Hp Hr)
    as (rq & w3 & tc & w4 & Hq & Hrun & Hc).
  exists rq, w3, tc, w4. split; [assumption|]. split; [assumption|]. split.
  - apply removes_removed. assumption.
  - unfold live. rewrite live_from_app.
    pose proof (build_driver_live cfg _ _ _ _ Hb) as Hl. unfold live in Hl. rewrite Hl.
    rewrite live_from_app.
    rewrite (live_from_neutral t2) by (eapply punch_body_neutral; eauto).
    cbn [live_from allocated removed].
    rewrite (live_from_removals _ _ _ Hc). apply filter_out_all. auto.
Qed.

Lemma teardown_always_runs_witness :
  live (snd (@run_rhid_punch sim (sim_host no_button) (cfg0 false) env0 100 None sim0)) = []
  /\ existsb is_quit
       (snd (@run_rhid_punch sim (sim_host no_button) (cfg0 false) env0 100 None sim0)) = true.
Proof.
  assert (Hb : fst (fst (@_build_driver sim (sim_host no_button) (cfg0 false) sim0)) =
               Ok {| session := 1;
                     _tmp_dirs := [utf8 "/tmp/rhid-chrome/data-0";
                                   utf8 "/tmp/rhid-chrome/cache-1";
                                   utf8 "/tmp/rhid-chrome/profile-2"] |})
    by (vm_compute; reflexivity).
  destruct (@_build_driver sim (sim_host no_button) (cfg0 false) sim0) as [[rb w1] t1] eqn:Eb.
  simpl in Hb. subst rb.
  destruct (@punch_body sim (sim_host no_button) (cfg0 false) env0 100
              (default (utf8 "manual") None) 1000 w1) as [[r w2] t2] eqn:Ep.
  assert (Hr : r <> Diverged).
  { assert (Hw : w1 = snd (fst (@_build_driver sim (sim_host no_button) (cfg0 false) sim0)))
      by (rewrite Eb; reflexivity).
    assert (Hx : r = fst (fst (@punch_body sim (sim_host no_button) (cfg0 false) env0 100
                                 (default (utf8 "manual") None) 1000 w1)))
      by (rewrite Ep; reflexivity).
    rewrite Hx, Hw. vm_compute. discriminate. }
  destruct (@teardown_always_runs sim (sim_host no_button) (cfg0 false) env0 100 None
              sim0 1000 sim0 _ w1 t1 r w2 t2 eq_refl Eb Ep Hr)
    as (rq & w3 & tc & w4 & _ & Hrun & _ & Hlive).
  rewrite Hrun. cbn [snd]. split; [assumption|].
  rewrite !existsb_app. simpl. rewrite !orb_true_r. reflexivity.
Defined.

(** ** C7: the launch retry *)

(** C7.  When the first launch attempt raises a WebDriverException (which
    SessionNotCreatedException is), [_build_driver] calls [rmtree] on the
    directories of that attempt, allocates new ones, sleeps 0.8 s and makes
    a second attempt with the new directories.  If that one succeeds its
    driver is returned; if it fails, [_build_driver] raises (the second
    exception, unless the allocation that follows it fails first) and no
    further launch step is made. *)
Theorem build_driver_retries_once {W : Type} {HW : Host W} (cfg : config)
    (w : W) dirs w1 t1 e1 w2 t2 :
  alloc_dirs cfg w = (Ok dirs, w1, t1) ->
  launch cfg dirs w1 = (Raise e1, w2, t2) ->
  isinstance_WebDriverException e1 = true ->
  exists w3 t3,
    _cleanup_tmp_list (dirs_list dirs) w2 = (Ok tt, w3, t3)
    /\ Forall2 (fun e p => removed e = Some p) t3 (dirs_list dirs)
    /\ forall dirs' w4 t4,
         alloc_dirs cfg w3 = (Ok dirs', w4, t4) ->
         forall r2 w5 t5,
           launch cfg dirs' (time_sleep BACKOFF w4) = (r2, w5, t5) ->
           let attempts := t1 ++ t2 ++ t3 ++ t4 ++ Low (DSleep BACKOFF) :: t5 in
           Forall (fun e => is_launch e = false) (t1 ++ t3 ++ t4)
           /\ match r2 with
              | Ok d =>
                _build_driver cfg w = (Ok d, w5, attempts)
                /\ _tmp_dirs d = dirs_list dirs'
              | Raise e2 =>
                exists e w6 t6,
                  _build_driver cfg w = (Raise e, w6, attempts ++ t6)
                  /\ Forall (fun e => is_launch e = false) t6
                  /\ (e = e2
                      \/ (isinstance_WebDriverException e2 = true
                          /\ exists w7 t7 w8 t8,
                               _cleanup_tmp_list (dirs_list dirs') w5 = (Ok tt, w7, t7)
                               /\ alloc_dirs cfg w7 = (Raise e, w8, t8)))
              | Diverged => False
              end.
Proof.
  intros Ha Hl Hwd.
  destruct (cleanup_spec (dirs_list dirs) w2) as (w3 & t3 & Hc & Hr).
  exists w3, t3. split; [assumption|]. split; [apply removes_removed; assumption|].
  intros dirs' w4 t4 Ha' r2 w5 t5 Hl2 attempts.
  split.
  { apply Forall_app. split; [apply alloc_not_launch; eapply alloc_dirs_inv; eauto|].
    apply Forall_app. split; [eapply removes_not_launch; eauto|].
    apply alloc_not_launch; eapply alloc_dirs_inv; eauto. }
  pose proof (launch_inv cfg _ _ _ _ _ Hl2) as (_ & Hnd & Hd).
  assert (Hbd : _build_driver cfg w =
                (let '(r, w', t) :=
                   match r2 with
                   | Raise e2 =>
                     (if isinstance_WebDriverException e2 then
                        _cleanup_tmp_list (dirs_list dirs') ;;
                        alloc_dirs cfg ;;
                        lift (sleep BACKOFF) ;;
                        raise_last (Some e2)
                      else
                        _cleanup_tmp_list (dirs_list dirs') ;;
                        raise_last (Some e2)) w5
                   | r => (r, w5, [])
                   end in
                 (r, w', attempts ++ t))).
  { unfold _build_driver. rewrite (bind_Ok _ _ _ _ _ _ Ha).
    cbn [build_attempts]. unfold try_except at 1. rewrite Hl, Hwd.
    rewrite (bind_Ok _ _ _ _ _ _ Hc), (bind_Ok _ _ _ _ _ _ Ha').
    unfold bind at 1. unfold lift at 1, sleep at 1.
    unfold try_except at 1. rewrite Hl2. subst attempts.
    destruct r2 as [d|e2|]; [norm_app; reflexivity| |norm_app; reflexivity].
    match goal with |- context [(if ?c then ?a else ?b) w5] =>
      destruct ((if c then a else b) w5) as [[r' w'] t'] end.
    norm_app. reflexivity. }
  rewrite Hbd. clear Hbd.
  destruct r2 as [d|e2|]; [| |congruence].
  - split; [|apply Hd; reflexivity]. rewrite app_nil_r. reflexivity.
  - destruct (cleanup_spec (dirs_list dirs') w5) as (w7 & t7 & Hc2 & Hr2).
    destruct (isinstance_WebDriverException e2) eqn:Hwd2.
    + rewrite (bind_Ok _ _ _ _ _ _ Hc2).
      destruct (alloc_dirs cfg w7) as [[[dirs''|e3|] w8] t8] eqn:Ha2.
      * rewrite (bind_Ok _ _ _ _ _ _ Ha2).
        exists e2, (time_sleep BACKOFF w8), (t7 ++ t8 ++ [Low (DSleep BACKOFF)]).
        split; [|split; [|left; reflexivity]].
        -- unfold bind, lift, sleep, raise_last, raise. norm_app. reflexivity.
        -- apply Forall_app. split; [eapply removes_not_launch; eauto|].
           apply Forall_app. split; [|repeat constructor].
           apply alloc_not_launch; eapply alloc_dirs_inv; eauto.
      * rewrite (bind_Raise _ _ _ _ _ _ Ha2).
        exists e3, w8, (t7 ++ t8). split; [|split].
        -- reflexivity.
        -- apply Forall_app. split; [eapply removes_not_launch; eauto|].
           apply alloc_not_launch; eapply alloc_dirs_inv; eauto.
        -- right. split; [reflexivity|]. eauto 8.
      * exfalso. eapply alloc_dirs_inv in Ha2 as (_ & Hnd2 & _). congruence.
    + rewrite (bind_Ok _ _ _ _ _ _ Hc2).
      exists e2, w7, t7. split; [|split; [|left; reflexivity]].
      * unfold raise_last, raise. norm_app. reflexivity.
      * eapply removes_not_launch; eauto.
Qed.

Lemma build_driver_retries_once_witness :
  exists d,
    fst (fst (@_build_driver sim (sim_host flaky_chrome) (cfg0 false) sim0)) = Ok d
    /\ _tmp_dirs d = [utf8 "/tmp/rhid-chrome/data-3";
                      utf8 "/tmp/rhid-chrome/cache-4";
                      utf8 "/tmp/rhid-chrome/profile-5"].
Proof.
  pose (H := @sim_host flaky_chrome).
  destruct (@alloc_dirs sim H (cfg0 false) sim0) as [[ra w1] t1] eqn:Ea.
  assert (Hra : exists dirs, ra = Ok dirs /\ dirs_list dirs =
                  [utf8 "/tmp/rhid-chrome/data-0";
                   utf8 "/tmp/rhid-chrome/cache-1";
                   utf8 "/tmp/rhid-chrome/profile-2"]).
  { vm_compute in Ea. injection Ea as <- _ _. eexists. split; reflexivity. }
  destruct Hra as (dirs & -> & Hdirs).
  destruct (@launch sim H (cfg0 false) dirs w1) as [[rl w2] t2] eqn:El.
  assert (Hrl : exists e1, rl = Raise e1 /\ isinstance_WebDriverException e1 = true).
  { vm_compute in Ea. injection Ea as <- <- _. vm_compute in El.
    injection El as <- _ _. eexists. split; reflexivity. }
  destruct Hrl as (e1 & -> & Hwd).
  destruct (@build_driver_retries_once sim H (cfg0 false) sim0 dirs w1 t1 e1 w2 t2 Ea El Hwd)
    as (w3 & t3 & Hc & _ & Hnext).
  destruct (@alloc_dirs sim H (cfg0 false) w3) as [[ra' w4] t4] eqn:Ea'.
  assert (Hra' : exists dirs', ra' = Ok dirs' /\ dirs_list dirs' =
                  [utf8 "/tmp/rhid-chrome/data-3";
                   utf8 "/tmp/rhid-chrome/cache-4";
                   utf8 "/tmp/rhid-chrome/profile-5"]).
  { vm_compute in Ea. injection Ea as <- <- _. vm_compute in El. injection El as _ <- _.
    rewrite Hdirs in Hc. vm_compute in Hc. injection Hc as <- _.
    vm_compute in Ea'. injection Ea' as <- _ _. eexists. split; reflexivity. }
  destruct Hra' as (dirs' & -> & Hdirs').
  destruct (@launch sim H (cfg0 false) dirs' (time_sleep BACKOFF w4)) as [[r2 w5] t5] eqn:El2.
  assert (Hr2 : exists d, r2 = Ok d).
  { vm_compute in Ea. injection Ea as <- <- _. vm_compute in El. injection El as _ <- _.
    rewrite Hdirs in Hc. vm_compute in Hc. injection Hc as <- _.
    vm_compute in Ea'. injection Ea' as <- <- _.
    vm_compute in El2. injection El2 as <- _ _. eexists. reflexivity. }
  destruct Hr2 as (d & ->).
  destruct (Hnext dirs' w4 t4 eq_refl _ _ _ El2) as (_ & Hbd & Hd).
  exists d. unfold H in *. rewrite Hbd. split; [reflexivity|]. rewrite Hd. assumption.
Defined.

(** ** C1: missing credentials *)

(** C1 (amended).  With RHID_EMAIL or RHID_PASSWORD empty or unset,
    [run_rhid_punch] still creates the browser session first.  If the
    session is created, the run raises "Falha ao registrar ponto:
    Credenciais RHID não configuradas ..." without any call on the page:
    the only driver call is [quit], followed by the removal of the
    session's directories.  If the session cannot be created, the run
    raises that failure, wrapped, and not the configuration error. *)
Theorem credentials_checked_after_launch {W : Type} {HW : Host W} (cfg : config)
    (env : environ) (fuel : nat) (trigger : option pystr) (w : W) t0 w0 :
  py_not (default [] (env !! "RHID_EMAIL"%string))
  || py_not (default [] (env !! "RHID_PASSWORD"%string)) = true ->
  utc_now w = (t0, w0) ->
  (forall d w1 t1,
     _build_driver cfg w0 = (Ok d, w1, t1) ->
     exists rq w3 tc w4,
       drv _ driver_quit w1 = (rq, w3)
       /\ run_rhid_punch cfg env fuel trigger w =
          (Raise (Exn RuntimeError (MSG_FAIL ++ MSG_NO_CREDENTIALS)), w4,
           t1 ++ Low (DCall driver_quit rq) :: tc)
       /\ Forall2 (fun e p => removed e = Some p) tc (_tmp_dirs d))
  /\ (forall e w1 t1,
        _build_driver cfg w0 = (Raise e, w1, t1) ->
        run_rhid_punch cfg env fuel trigger w = (Raise (wrap_failure e), w1, t1)).
Proof.
  intros Hcred Hnow. split.
  - intros d w1 t1 Hb.
    assert (Hp : punch_body cfg env fuel (default (utf8 "manual") trigger) t0 w1 =
                 (Raise (Exn RuntimeError MSG_NO_CREDENTIALS), w1, [])).
    { unfold punch_body. rewrite Hcred. reflexivity. }
    destruct (run_with_session cfg env fuel trigger w _ _ _ _ _ _ _ _ Hnow Hb Hp)
      as (rq & w3 & tc & w4 & Hq & Hrun & Hc); [discriminate|].
    exists rq, w3, tc, w4. split; [assumption|]. split.
    + rewrite Hrun. reflexivity.
    + apply removes_removed. assumption.
  - intros e w1 t1 Hb.
    rewrite (run_unfold cfg env fuel trigger w t0 w0 Hnow).
    unfold bind, try_except. rewrite Hb. unfold raise. rewrite app_nil_r. reflexivity.
Qed.

Lemma credentials_checked_after_launch_witness :
  fst (fst (@run_rhid_punch sim (sim_host healthy) (cfg0 false) ∅ 100 None sim0)) =
  Raise (Exn RuntimeError (MSG_FAIL ++ MSG_NO_CREDENTIALS)).
Proof.
  assert (Hb : exists d, fst (fst (@_build_driver sim (sim_host healthy) (cfg0 false) sim0)) = Ok d)
    by (eexists; vm_compute; reflexivity).
  destruct Hb as [d Hb].
  destruct (@_build_driver sim (sim_host healthy) (cfg0 false) sim0) as [[rb w1] t1] eqn:Eb.
  simpl in Hb. subst rb.
  assert (Hc : py_not (default [] ((∅ : environ) !! "RHID_EMAIL"%string))
               || py_not (default [] ((∅ : environ) !! "RHID_PASSWORD"%string)) = true)
    by (vm_compute; reflexivity).
  destruct (proj1 (@credentials_checked_after_launch sim (sim_host healthy) (cfg0 false) ∅
                     100 None sim0 1000 sim0 Hc eq_refl) d w1 t1 Eb)
    as (rq & w3 & tc & w4 & _ & Hrun & _).
  rewrite Hrun. reflexivity.
Defined.

(** C1 as stated fails: without credentials, on a host where Chrome
    starts, the run ends in the configuration error after three directories
    were created and a session was started. *)
Lemma missing_credentials_launch_first :
  let '(r, _, t) := @run_rhid_punch sim (sim_host healthy) (cfg0 false) ∅ 100 None sim0 in
  r = Raise (Exn RuntimeError (MSG_FAIL ++ MSG_NO_CREDENTIALS))
  /\ existsb session_created t = true
  /\ omap allocated t = [utf8 "/tmp/rhid-chrome/data-0";
                         utf8 "/tmp/rhid-chrome/cache-1";
                         utf8 "/tmp/rhid-chrome/profile-2"].
Proof. vm_compute. auto. Qed.


(** ** Termination

    On a timely host every loop of the flow ends: each turn sleeps a fixed
    time, so the distance to the deadline shrinks by a fixed amount. *)
Create HintDb tame.

Section Tame.
Context {W : Type} {HW : Host W} {HT : Timely W}.
Variable cfg : config.

Lemma later_refl (w : W) : later w w.
Proof. split; apply Qle_refl. Qed.

Lemma later_trans (w1 w2 w3 : W) : later w1 w2 -> later w2 w3 -> later w1 w3.
Proof. intros [? ?] [? ?]. split; eapply Qle_trans; eauto. Qed.

Lemma tame_at_ret {A} (a : A) w : tame_at w (ret a).
Proof. split; [apply later_refl|discriminate]. Qed.

Lemma tame_at_raise {A} e w : tame_at w (@raise W devent A e).
Proof. split; [apply later_refl|discriminate]. Qed.

Lemma tame_at_bind {A B} (m : M W devent A) (k : A -> M W devent B) w :
  tame_at w m ->
  (forall a w1 t1, m w = (Ok a, w1, t1) -> later w w1 -> tame_at w1 (k a)) ->
  tame_at w (bind m k).
Proof.
  unfold tame_at, bind. intros [Hl Hd] Hk.
  destruct (m w) as [[[a|e|] w1] t1] eqn:Em; simpl in *; [| auto | congruence].
  specialize (Hk a w1 t1 eq_refl Hl). destruct Hk as [Hl2 Hd2].
  destruct (k a w1) as [[r2 w2] t2]. simpl in *. split; [|assumption].
  eapply later_trans; eauto.
Qed.

Lemma tame_at_try_except {A} (m : M W devent A) h w :
  tame_at w m ->
  (forall e w1 t1, m w = (Raise e, w1, t1) -> later w w1 -> tame_at w1 (h e)) ->
  tame_at w (try_except m h).
Proof.
  unfold tame_at, try_except. intros [Hl Hd] Hh.
  destruct (m w) as [[[a|e|] w1] t1] eqn:Em; simpl in *; [auto | | congruence].
  specialize (Hh e w1 t1 eq_refl Hl). destruct Hh as [Hl2 Hd2].
  destruct (h e w1) as [[r2 w2] t2]. simpl in *. split; [|assumption].
  eapply later_trans; eauto.
Qed.

Lemma tame_ret {A} (a : A) : tame (@ret W devent A a).
Proof. intros w. apply tame_at_ret. Qed.

Lemma tame_raise {A} e : tame (@raise W devent A e).
Proof. intros w. apply tame_at_raise. Qed.

Lemma tame_bind {A B} (m : M W devent A) (k : A -> M W devent B) :
  tame m -> (forall a, tame (k a)) -> tame (bind m k).
Proof. intros Hm Hk w. apply tame_at_bind; [apply Hm|]. intros. apply Hk. Qed.

Lemma tame_try_except {A} (m : M W devent A) h :
  tame m -> (forall e, tame (h e)) -> tame (try_except m h).
Proof. intros Hm Hh w. apply tame_at_try_except; [apply Hm|]. intros. apply Hh. Qed.

Lemma tame_call {A} (c : dcall A) : tame (call c).
Proof.
  intros w. unfold tame_at, call. pose proof (drv_later A c w) as H.
  destruct (drv A c w) as [[e|a] w']; simpl in *; split; auto; discriminate.
Qed.

Lemma tame_sleep d : (0 <= d)%Q -> tame (sleep d).
Proof.
  intros Hd w. unfold tame_at, sleep. simpl. split; [|discriminate].
  pose proof (sleep_wall d w). pose proof (sleep_mono d w). split; lra.
Qed.

Lemma tame_now : tame now.
Proof.
  intros w. unfold tame_at, now. pose proof (time_later w) as H.
  destruct (time_time w) as [t w']. simpl in *. split; [assumption|discriminate].
Qed.

Lemma tame_monotonic : tame monotonic.
Proof.
  intros w. unfold tame_at, monotonic. pose proof (monotonic_later w) as H.
  destruct (time_monotonic w) as [t w']. simpl in *. split; [assumption|discriminate].
Qed.

Lemma tame_if {A} (b : bool) (m1 m2 : M W devent A) :
  tame m1 -> tame m2 -> tame (if b then m1 else m2).
Proof. destruct b; auto. Qed.


Lemma succ_Q (n : nat) : (inject_Z (Z.of_nat (S n)) == inject_Z (Z.of_nat n) + 1)%Q.
Proof. rewrite Nat2Z.inj_succ. unfold Z.succ. rewrite inject_Z_plus. reflexivity. Qed.

Lemma sleep_inv d (w w1 : W) t1 u :
  sleep d w = (Ok u, w1, t1) ->
  (wall w + d <= wall w1)%Q /\ (mono w + d <= mono w1)%Q.
Proof.
  unfold sleep. intros [= _ <- _]. split; [apply sleep_wall|apply sleep_mono].
Qed.

Lemma now_inv (w w1 : W) t t1 : now w = (Ok t, w1, t1) -> t = wall w.
Proof. unfold now, wall. destruct (time_time w). intros [= <- _ _]. reflexivity. Qed.

Lemma monotonic_inv (w w1 : W) t t1 : monotonic w = (Ok t, w1, t1) -> t = mono w.
Proof. unfold monotonic, mono. destruct (time_monotonic w). intros [= <- _ _]. reflexivity. Qed.

Ltac tame_step :=
  match goal with
  | |- tame (bind _ _) => apply tame_bind; [|intros ?]
  | |- tame (try_except _ _) => apply tame_try_except; [|intros ?]
  | |- tame (call _) => apply tame_call
  | |- tame (sleep _) => apply tame_sleep; discriminate
  | |- tame now => apply tame_now
  | |- tame monotonic => apply tame_monotonic
  | |- tame (ret _) => apply tame_ret
  | |- tame (raise _) => apply tame_raise
  | |- tame (let _ := _ in _) => cbv zeta
  | |- tame (if ?b then _ else _) => destruct b
  | |- tame (match ?x with _ => _ end) => destruct x
  | |- tame _ => solve [auto with tame]
  end.
Ltac tame_tac := repeat tame_step.

(** *** The polling wait *)
Lemma tame_until_loop {A} (method : M W devent (option A)) end_time :
  tame method ->
  forall n fuel w,
    (end_time - mono w < (1#2) * inject_Z (Z.of_nat n))%Q -> (n < fuel)%nat ->
    tame_at w (until_loop fuel end_time method).
Proof.
  intros Hm. induction n as [|n IH]; intros fuel w Hpot Hf;
    (destruct fuel as [|fuel]; [lia|]); cbn [until_loop].
  - apply tame_at_bind; [apply tame_try_except; [assumption|intros e; tame_tac]|].
    intros [a|] w1 t1 _ [_ H1]; [apply tame_at_ret|].
    apply tame_at_bind; [apply tame_sleep; discriminate|].
    intros u w2 t2 Hs _. apply sleep_inv in Hs as [_ H2].
    apply tame_at_bind; [apply tame_monotonic|].
    intros t w3 t3 Ht _. apply monotonic_inv in Ht. subst t.
    assert (Hlt : Qltb end_time (mono w2) = true).
    { apply Qltb_true. change (inject_Z (Z.of_nat 0)) with 0%Q in Hpot. lra. }
    rewrite Hlt. apply tame_at_raise.
  - apply tame_at_bind; [apply tame_try_except; [assumption|intros e; tame_tac]|].
    intros [a|] w1 t1 _ [_ H1]; [apply tame_at_ret|].
    apply tame_at_bind; [apply tame_sleep; discriminate|].
    intros u w2 t2 Hs _. apply sleep_inv in Hs as [_ H2].
    apply tame_at_bind; [apply tame_monotonic|].
    intros t w3 t3 Ht [_ H3]. apply monotonic_inv in Ht. subst t.
    destruct (Qltb end_time (mono w2)); [apply tame_at_raise|].
    apply IH; [|lia]. rewrite succ_Q in Hpot. lra.
Qed.

Lemma tame_WebDriverWait {A} (method : M W devent (option A)) timeout n fuel :
  tame method -> polls timeout n -> (n < fuel)%nat ->
  tame (WebDriverWait_until fuel timeout method).
Proof.
  intros Hm Hn Hf w. unfold WebDriverWait_until.
  apply tame_at_bind; [apply tame_monotonic|].
  intros t0 w1 t1 Ht [_ H1]. apply monotonic_inv in Ht. subst t0.
  apply (tame_until_loop _ _ Hm n); [|assumption]. unfold polls in Hn. lra.
Qed.


Lemma tame_later {A} (m : M W devent A) w r w1 t1 :
  tame_at w m -> m w = (r, w1, t1) -> later w w1.
Proof. intros [H _] E. rewrite E in H. exact H. Qed.

(** *** Steps without a loop of their own *)
Lemma tame_dump n : tame (_dump_small_html n).
Proof. unfold _dump_small_html. tame_tac. Qed.

Lemma tame_screenshot : tame (_screenshot cfg).
Proof. unfold _screenshot. tame_tac. Qed.

Lemma tame_wait_visible loc t : tame (wait_visible loc t).
Proof. unfold wait_visible. tame_tac. Qed.

Lemma tame_find_first_visible locs t : forall last, tame (find_first_visible_from last locs t).
Proof.
  induction locs as [|loc rest IH]; intros last; simpl; [tame_tac|].
  apply tame_try_except; [apply tame_wait_visible|]. intros e. apply IH.
Qed.

Lemma tame_maybe_already_logged : tame (maybe_already_logged cfg).
Proof. unfold maybe_already_logged. tame_tac. Qed.

Lemma tame_type_attempt loc text t : tame (type_attempt loc text t).
Proof. unfold type_attempt. tame_tac. Qed.

Lemma tame_type_loop loc text t n : forall last, tame (type_loop n last loc text t).
Proof.
  induction n as [|n IH]; intros last; simpl; [tame_tac|].
  apply tame_try_except; [apply tame_bind; [apply tame_type_attempt|intros; tame_tac]|].
  intros e. apply tame_if; [|tame_tac].
  apply tame_bind; [apply tame_sleep; discriminate|]. intros _. apply IH.
Qed.

Lemma tame_type_with_retry loc text n t : tame (type_with_retry loc text n t).
Proof.
  unfold type_with_retry. apply tame_bind; [apply tame_type_loop|]. intros r. tame_tac.
Qed.

Lemma tame_any_displayed nodes : tame (any_displayed nodes).
Proof.
  induction nodes as [|n rest IH]; simpl; [tame_tac|].
  apply tame_bind; [apply tame_call|]. intros [|]; [|assumption].
  apply tame_bind; [apply tame_call|]. intros vis.
  apply tame_if; [tame_tac|assumption].
Qed.

Lemma tame_overlay_present sels : tame (overlay_present sels).
Proof.
  induction sels as [|sel rest IH]; simpl; [tame_tac|].
  apply tame_bind; [apply tame_call|]. intros nodes.
  apply tame_bind; [apply tame_any_displayed|]. intros [|]; [tame_tac|assumption].
Qed.

Lemma tame_point_hits el : tame (_point_hits_element el).
Proof. unfold _point_hits_element. tame_tac. Qed.

Lemma tame_click_pass t locs : forall last, tame (click_pass locs last t).
Proof.
  induction locs as [|loc rest IH]; intros last; simpl; [tame_tac|].
  apply tame_try_except; [tame_tac|]. intros e.
  apply tame_if; [|apply IH].
  apply tame_bind; [apply tame_sleep; discriminate|]. intros _. apply IH.
Qed.

Lemma tame_click_attempts t locs n : forall last, tame (click_attempts n locs last t).
Proof.
  induction n as [|n IH]; intros last; simpl; [tame_tac|].
  apply tame_bind; [apply tame_click_pass|]. intros [le|[]]; [apply IH|tame_tac].
Qed.

Lemma tame_click_with_retry locs n t : tame (click_with_retry locs n t).
Proof.
  unfold click_with_retry. apply tame_bind; [apply tame_click_attempts|]. intros r. tame_tac.
Qed.

Lemma tame_post_login_probe : tame post_login_probe.
Proof. unfold post_login_probe. tame_tac. Qed.

Lemma tame_visible_or_none loc t : tame (_visible_or_none loc t).
Proof. unfold _visible_or_none. tame_tac. Qed.

Lemma tame_first_dash_btn locs : tame (first_dash_btn locs).
Proof.
  induction locs as [|loc rest IH]; simpl; [tame_tac|].
  apply tame_bind; [apply tame_visible_or_none|]. intros [e|]; [tame_tac|assumption].
Qed.

Lemma tame_dashboard_stage : tame dashboard_stage.
Proof.
  unfold dashboard_stage. apply tame_bind; [apply tame_first_dash_btn|].
  intros [b|]; [|tame_tac].
  apply tame_try_except; [tame_tac|]. intros e. apply tame_click_with_retry.
Qed.

Lemma tame_first_present locs : tame (first_present locs).
Proof.
  induction locs as [|loc rest IH]; simpl; [tame_tac|].
  apply tame_try_except; [tame_tac|]. intros e. assumption.
Qed.

Lemma tame_find_first locs : tame (find_first locs).
Proof.
  induction locs as [|loc rest IH]; simpl; [tame_tac|].
  apply tame_try_except; [tame_tac|]. intros e. assumption.
Qed.

Lemma tame_enabled : tame _enabled.
Proof.
  unfold _enabled. apply tame_try_except; [|intros e; tame_tac].
  apply tame_bind; [apply tame_find_first|]. intros [b|]; tame_tac.
Qed.

Lemma tame_confirmation : tame confirmation.
Proof. unfold confirmation. tame_tac. Qed.


(** *** Fuel *)
Lemma polls_TIMEOUT : polls (TIMEOUT cfg) (2 * Z.to_nat (TIMEOUT_SECONDS cfg) + 1).
Proof.
  unfold polls, TIMEOUT.
  assert (H : (TIMEOUT_SECONDS cfg <= Z.of_nat (Z.to_nat (TIMEOUT_SECONDS cfg)))%Z) by lia.
  rewrite Zle_Qle in H.
  replace (Z.of_nat (2 * Z.to_nat (TIMEOUT_SECONDS cfg) + 1))
    with (2 * Z.of_nat (Z.to_nat (TIMEOUT_SECONDS cfg)) + 1)%Z by lia.
  rewrite inject_Z_plus, inject_Z_mult.
  change (inject_Z 2) with 2%Q. change (inject_Z 1) with 1%Q. lra.
Qed.

Lemma tame_wait_TIMEOUT {A} (method : M W devent (option A)) fuel :
  enough cfg fuel -> tame method -> tame (WebDriverWait_until fuel (TIMEOUT cfg) method).
Proof.
  intros Hf Hm. apply (tame_WebDriverWait _ _ _ _ Hm polls_TIMEOUT).
  unfold enough, fuel_bound in Hf. lia.
Qed.

Lemma tame_wait_dom_ready fuel : enough cfg fuel -> tame (wait_dom_ready fuel (TIMEOUT cfg)).
Proof. intros Hf. apply tame_wait_TIMEOUT; [assumption|tame_tac]. Qed.

Lemma tame_wait_url fuel needle :
  enough cfg fuel -> tame (_wait_url_contains fuel needle (TIMEOUT cfg)).
Proof.
  intros Hf. unfold _wait_url_contains. apply tame_try_except.
  - apply tame_bind; [apply tame_wait_TIMEOUT; [assumption|tame_tac]|]. intros; tame_tac.
  - intros e. tame_tac.
Qed.

Lemma tame_wait_enabled fuel : enough cfg fuel -> tame (wait_enabled cfg fuel).
Proof.
  intros Hf. unfold wait_enabled. apply tame_try_except.
  - apply tame_wait_TIMEOUT; [assumption|].
    apply tame_bind; [apply tame_enabled|]. intros; tame_tac.
  - intros e. apply tame_if; [|tame_tac].
    apply tame_bind; [apply tame_screenshot|]. intros; tame_tac.
Qed.

(** *** The three hand-written polling loops *)
Lemma tame_locate_final deadline :
  forall n fuel w,
    (deadline - wall w < (3#10) * inject_Z (Z.of_nat n))%Q -> (n < fuel)%nat ->
    tame_at w (locate_final fuel deadline).
Proof.
  induction n as [|n IH]; intros fuel w Hpot Hf;
    (destruct fuel as [|fuel]; [lia|]); cbn [locate_final];
    (apply tame_at_bind; [apply tame_now|]);
    intros t w1 t1 Ht [H1 _]; apply now_inv in Ht; subst t.
  - assert (Hge : Qltb (wall w) deadline = false).
    { apply Qltb_false. change (inject_Z (Z.of_nat 0)) with 0%Q in Hpot. lra. }
    rewrite Hge. apply tame_at_ret.
  - destruct (Qltb (wall w) deadline); [|apply tame_at_ret].
    apply tame_at_bind; [apply tame_first_present|].
    intros [el|] w2 t2 _ [H2 _]; [apply tame_bind; [apply tame_now|intros; tame_tac]|].
    apply tame_at_bind; [apply tame_sleep; discriminate|].
    intros u w3 t3 Hs _. apply sleep_inv in Hs as [H3 _].
    apply IH; [|lia]. rewrite succ_Q in Hpot. lra.
Qed.

Lemma tame_wait_no_overlays_loop end_ :
  forall n fuel w,
    (end_ - wall w < (3#20) * inject_Z (Z.of_nat n))%Q -> (n < fuel)%nat ->
    tame_at w (wait_no_overlays_loop fuel end_).
Proof.
  induction n as [|n IH]; intros fuel w Hpot Hf;
    (destruct fuel as [|fuel]; [lia|]); cbn [wait_no_overlays_loop];
    (apply tame_at_bind; [apply tame_now|]);
    intros t w1 t1 Ht [H1 _]; apply now_inv in Ht; subst t.
  - assert (Hge : Qltb (wall w) end_ = false).
    { apply Qltb_false. change (inject_Z (Z.of_nat 0)) with 0%Q in Hpot. lra. }
    rewrite Hge. apply tame_at_ret.
  - destruct (Qltb (wall w) end_); [|apply tame_at_ret].
    apply tame_at_bind.
    { apply tame_try_except; [|intros; tame_tac].
      apply tame_bind; [apply tame_overlay_present|intros; tame_tac]. }
    intros [|] w2 t2 _ [H2 _]; [apply tame_at_ret|].
    apply tame_at_bind; [apply tame_sleep; discriminate|].
    intros u w3 t3 Hs _. apply sleep_inv in Hs as [H3 _].
    apply IH; [|lia]. rewrite succ_Q in Hpot. lra.
Qed.

Lemma tame_wait_no_overlays fuel : (14 < fuel)%nat -> tame (_wait_no_overlays fuel 2).
Proof.
  intros Hf w. unfold _wait_no_overlays.
  apply tame_at_bind; [apply tame_now|].
  intros t w1 t1 Ht [H1 _]. apply now_inv in Ht. subst t.
  apply (tame_wait_no_overlays_loop _ 14); [|assumption].
  change (inject_Z (Z.of_nat 14)) with 14%Q. lra.
Qed.


#[local] Hint Resolve tame_point_hits tame_wait_no_overlays tame_find_first
  tame_screenshot tame_dump tame_confirmation tame_dashboard_stage : tame.

Lemma tame_robust_click_pass fuel el : (14 < fuel)%nat -> tame (robust_click_pass fuel el).
Proof. intros Hf. unfold robust_click_pass. tame_tac. Qed.

Lemma wall_later (w w1 : W) : later w w1 -> (wall w <= wall w1)%Q.
Proof. intros [H _]. exact H. Qed.

(** A pass that ends in [continue] has slept for at least 0.15 s. *)
Lemma robust_click_pass_continue fuel el w w' t :
  (14 < fuel)%nat ->
  robust_click_pass fuel el w = (Ok PassContinue, w', t) ->
  (wall w + (3#20) <= wall w')%Q.
Proof.
  intros Hf H. unfold robust_click_pass in H.
  apply try_except_inv_Ok in H as [H|(e & w1 & t1 & t2 & _ & H & _)];
    [|unfold ret in H; discriminate H].
  apply bind_inv_Ok in H as (u1 & w1 & ? & ? & E1 & H & _).
  apply (tame_later _ _ _ _ _ (tame_call _ w)), wall_later in E1.
  apply bind_inv_Ok in H as (u2 & w2 & ? & ? & E2 & H & _).
  apply (tame_later _ _ _ _ _ (tame_wait_no_overlays _ Hf w1)), wall_later in E2.
  apply bind_inv_Ok in H as (u3 & w3 & ? & ? & E3 & H & _).
  apply sleep_inv in E3 as [E3 _].
  apply bind_inv_Ok in H as (displayed & w4 & ? & ? & E4 & H & _).
  apply (tame_later _ _ _ _ _ (tame_call _ w3)), wall_later in E4.
  apply bind_inv_Ok in H as (enabled & w5 & ? & ? & E5 & H & _).
  assert (L5 : (wall w4 <= wall w5)%Q).
  { eapply wall_later, tame_later; [|exact E5]. apply tame_if; tame_tac. }
  clear E5.
  destruct (negb displayed || negb enabled).
  - apply bind_inv_Ok in H as (u6 & w6 & ? & ? & E6 & H & _).
    apply sleep_inv in E6 as [E6 _]. unfold ret in H. injection H as Hw _. subst w'. lra.
  - apply bind_inv_Ok in H as (hits & w6 & ? & ? & E6 & H & _).
    apply (tame_later _ _ _ _ _ (tame_point_hits _ w5)), wall_later in E6.
    apply bind_inv_Ok in H as (obscured & w7 & ? & ? & E7 & H & _).
    assert (L7 : (wall w6 <= wall w7)%Q).
    { eapply wall_later, tame_later; [|exact E7]. apply tame_if; tame_tac. }
    clear E7.
    destruct obscured.
    + apply bind_inv_Ok in H as (u8 & w8 & ? & ? & E8 & H & _).
      apply sleep_inv in E8 as [E8 _]. unfold ret in H. injection H as Hw _. subst w'. lra.
    + apply bind_inv_Ok in H as ([e1|] & w8 & ? & ? & _ & H & _);
        [|unfold ret in H; discriminate H].
      apply bind_inv_Ok in H as ([e2|] & w9 & ? & ? & _ & H & _);
        [|unfold ret in H; discriminate H].
      apply bind_inv_Ok in H as ([e3|] & w10 & ? & ? & _ & H & _);
        unfold ret in H; discriminate H.
Qed.

Lemma tame_robust_click_loop el end_ :
  forall n fuel last_exc w,
    (end_ - wall w < (3#20) * inject_Z (Z.of_nat n))%Q -> (n + 15 < fuel)%nat ->
    tame_at w (robust_click_loop fuel end_ last_exc el).
Proof.
  induction n as [|n IH]; intros fuel last_exc w Hpot Hf;
    (destruct fuel as [|fuel]; [lia|]); cbn [robust_click_loop];
    (apply tame_at_bind; [apply tame_now|]);
    intros t w1 t1 Ht [H1 _]; apply now_inv in Ht; subst t.
  - assert (Hge : Qltb (wall w) end_ = false).
    { apply Qltb_false. change (inject_Z (Z.of_nat 0)) with 0%Q in Hpot. lra. }
    rewrite Hge. apply tame_at_raise.
  - destruct (Qltb (wall w) end_); [|apply tame_at_raise].
    apply tame_at_bind; [apply tame_robust_click_pass; lia|].
    rewrite succ_Q in Hpot.
    intros [| |le] w2 t2 Hp [H2 _]; [apply tame_at_ret| |].
    + apply robust_click_pass_continue in Hp; [|lia]. apply IH; [lra|lia].
    + apply tame_at_bind; [apply tame_sleep; discriminate|].
      intros u w3 t3 Hs _. apply sleep_inv in Hs as [H3 _]. apply IH; [lra|lia].
Qed.

Lemma tame_robust_click fuel el timeout n :
  (timeout < (3#20) * inject_Z (Z.of_nat n))%Q -> (n + 15 < fuel)%nat ->
  tame (robust_click fuel el timeout).
Proof.
  intros Hn Hf w. unfold robust_click.
  apply tame_at_bind; [apply tame_now|].
  intros t w1 t1 Ht [H1 _]. apply now_inv in Ht. subst t.
  apply (tame_robust_click_loop _ _ n); [lra|assumption].
Qed.

Lemma enough_100 fuel : enough cfg fuel -> (100 <= fuel)%nat.
Proof. unfold enough, fuel_bound. lia. Qed.

Lemma tame_click_final fuel b : enough cfg fuel -> tame (click_final cfg fuel b).
Proof.
  intros Hf. apply enough_100 in Hf. unfold click_final.
  apply tame_try_except.
  - apply tame_bind; [apply tame_find_first|]. intros fresh.
    apply (tame_robust_click _ _ _ 67); [reflexivity|lia].
  - intros e. apply tame_try_except; [|intros; tame_tac].
    unfold fallback_click, final_locators.
    apply tame_bind; [apply tame_call|]. intros el.
    apply (tame_robust_click _ _ _ 41); [reflexivity|lia].
Qed.

Lemma polls_locate : 
  (TIMEOUT cfg < (3#10) * inject_Z (Z.of_nat (4 * Z.to_nat (TIMEOUT_SECONDS cfg) + 1)))%Q.
Proof.
  unfold TIMEOUT.
  assert (H : (TIMEOUT_SECONDS cfg <= Z.of_nat (Z.to_nat (TIMEOUT_SECONDS cfg)))%Z) by lia.
  assert (H0 : (0 <= Z.of_nat (Z.to_nat (TIMEOUT_SECONDS cfg)))%Z) by lia.
  rewrite Zle_Qle in H. rewrite Zle_Qle in H0.
  replace (Z.of_nat (4 * Z.to_nat (TIMEOUT_SECONDS cfg) + 1))
    with (4 * Z.of_nat (Z.to_nat (TIMEOUT_SECONDS cfg)) + 1)%Z by lia.
  rewrite inject_Z_plus, inject_Z_mult.
  change (inject_Z 4) with 4%Q. change (inject_Z 1) with 1%Q.
  change (inject_Z 0) with 0%Q in H0. lra.
Qed.

Lemma tame_find_final_button fuel : enough cfg fuel -> tame (find_final_button cfg fuel).
Proof.
  intros Hf. unfold find_final_button.
  apply tame_bind; [apply tame_dashboard_stage|]. intros _.
  apply tame_bind; [apply tame_wait_url; assumption|]. intros _ w.
  apply tame_at_bind; [apply tame_now|].
  intros t w1 t1 Ht [H1 _]. apply now_inv in Ht. subst t.
  apply (tame_locate_final _ (4 * Z.to_nat (TIMEOUT_SECONDS cfg) + 1)).
  - pose proof polls_locate. lra.
  - unfold enough, fuel_bound in Hf. lia.
Qed.

Lemma tame_reach_enabled_final fuel : enough cfg fuel -> tame (reach_enabled_final cfg fuel).
Proof.
  intros Hf. unfold reach_enabled_final.
  apply tame_bind; [apply tame_find_final_button; assumption|].
  intros [b|].
  - apply tame_bind; [apply tame_wait_enabled; assumption|intros; tame_tac].
  - unfold final_button_missing. tame_tac.
Qed.

Lemma tame_registrar_ponto fuel : enough cfg fuel -> tame (_registrar_ponto cfg fuel).
Proof.
  intros Hf. unfold _registrar_ponto.
  apply tame_bind; [apply tame_reach_enabled_final; assumption|]. intros b.
  apply tame_if; [tame_tac|].
  apply tame_bind; [apply tame_click_final; assumption|]. intros; tame_tac.
Qed.

Lemma tame_login env fuel email senha : enough cfg fuel -> tame (_login cfg env fuel email senha).
Proof.
  intros Hf. unfold _login.
  destruct (environ_get_or env _ _) as [url|]; [|tame_tac].
  apply tame_if; [tame_tac|].
  apply tame_bind; [apply tame_call|]. intros _.
  apply tame_bind; [apply tame_wait_dom_ready; assumption|]. intros _.
  apply tame_bind; [apply tame_sleep; discriminate|]. intros _.
  apply tame_bind; [apply tame_maybe_already_logged|]. intros logged.
  apply tame_if; [tame_tac|].
  repeat (apply tame_bind;
          [first [apply tame_find_first_visible | apply tame_type_with_retry
                 | apply tame_click_with_retry]|intros _]).
  apply tame_try_except; [|intros; tame_tac].
  apply tame_bind; [|intros; tame_tac].
  apply tame_wait_TIMEOUT; [assumption|apply tame_post_login_probe].
Qed.


(** *** The session level *)
Lemma halts_ret {E A} (a : A) : halts (@ret W E A a).
Proof. intros w. discriminate. Qed.

Lemma halts_raise {E A} e : halts (@raise W E A e).
Proof. intros w. discriminate. Qed.

Lemma halts_bind {E A B} (m : M W E A) (k : A -> M W E B) :
  halts m -> (forall a, halts (k a)) -> halts (bind m k).
Proof.
  intros Hm Hk w. unfold bind. specialize (Hm w).
  destruct (m w) as [[[a|e|] w1] t1]; simpl in *; [|discriminate|congruence].
  specialize (Hk a w1). destruct (k a w1) as [[r w2] t2]. exact Hk.
Qed.

Lemma halts_try_except {E A} (m : M W E A) h :
  halts m -> (forall e, halts (h e)) -> halts (try_except m h).
Proof.
  intros Hm Hh w. unfold try_except. specialize (Hm w).
  destruct (m w) as [[[a|e|] w1] t1]; simpl in *; [discriminate| |congruence].
  specialize (Hh e w1). destruct (h e w1) as [[r w2] t2]. exact Hh.
Qed.

Lemma halts_try_finally {E A} (m : M W E A) f :
  halts m -> halts f -> halts (try_finally m f).
Proof.
  intros Hm Hf w. unfold try_finally. specialize (Hm w).
  destruct (m w) as [[[a|e|] w1] t1]; simpl in *; [| |congruence];
    specialize (Hf w1); destruct (f w1) as [[[u|e'|] w2] t2]; simpl in *;
    congruence.
Qed.

Lemma halts_lift {A} (m : M W devent A) : tame m -> halts (lift m).
Proof.
  intros Hm w. destruct (Hm w) as [_ H]. unfold lift.
  destruct (m w) as [[r w1] t1]. exact H.
Qed.

Lemma halts_syscall {A} (c : scall A) : halts (syscall c).
Proof. intros w. unfold syscall. destruct (sys A c w) as [[e|a] w1]; discriminate. Qed.

Lemma halts_utcnow : halts utcnow.
Proof. intros w. unfold utcnow. destruct (utc_now w). discriminate. Qed.

Lemma halts_now_human : halts _now_human.
Proof. intros w. unfold _now_human. destruct (now_human w). discriminate. Qed.

Lemma halts_if {E A} (b : bool) (m1 m2 : M W E A) :
  halts m1 -> halts m2 -> halts (if b then m1 else m2).
Proof. destruct b; auto. Qed.

Ltac halts_step :=
  match goal with
  | |- halts (bind _ _) => apply halts_bind; [|intros ?]
  | |- halts (try_except _ _) => apply halts_try_except; [|intros ?]
  | |- halts (try_finally _ _) => apply halts_try_finally
  | |- halts (syscall _) => apply halts_syscall
  | |- halts utcnow => apply halts_utcnow
  | |- halts _now_human => apply halts_now_human
  | |- halts (ret _) => apply halts_ret
  | |- halts (raise _) => apply halts_raise
  | |- halts (let _ := _ in _) => cbv zeta
  | |- halts (if _ then _ else _) => apply halts_if
  | |- halts (match ?x with _ => _ end) => destruct x
  | |- halts (lift _) => apply halts_lift
  | |- halts _ => solve [auto with tame]
  | |- tame _ => solve [tame_tac]
  end.
Ltac halts_tac := repeat halts_step.

Lemma halts_cleanup paths : halts (_cleanup_tmp_list paths).
Proof. induction paths as [|p rest IH]; simpl; halts_tac. Qed.

Lemma halts_alloc_dirs : halts (alloc_dirs cfg).
Proof. unfold alloc_dirs, _mktemp_under_base. halts_tac. Qed.

Lemma halts_launch dirs : halts (launch cfg dirs).
Proof. unfold launch, _make_chrome_options. destruct dirs as [[? ?] ?]. halts_tac. Qed.

#[local] Hint Resolve halts_cleanup halts_alloc_dirs halts_launch : tame.

Lemma halts_build_attempts attempts : forall dirs last, halts (build_attempts cfg attempts dirs last).
Proof.
  induction attempts as [|a rest IH]; intros dirs last; simpl;
    [unfold raise_last; halts_tac|].
  apply halts_try_except; [apply halts_launch|]. intros e.
  apply halts_if; [|unfold raise_last; halts_tac].
  apply halts_bind; [apply halts_cleanup|]. intros _.
  apply halts_bind; [apply halts_alloc_dirs|]. intros dirs'.
  apply halts_bind; [apply halts_lift, tame_sleep; discriminate|]. intros _. apply IH.
Qed.

Lemma halts_build_driver : halts (_build_driver cfg).
Proof.
  unfold _build_driver. apply halts_bind; [apply halts_alloc_dirs|].
  intros dirs. apply halts_build_attempts.
Qed.

Lemma halts_teardown d : halts (teardown d).
Proof. unfold teardown. halts_tac. Qed.

Lemma halts_punch_body env fuel trigger started_at :
  enough cfg fuel -> halts (punch_body cfg env fuel trigger started_at).
Proof.
  intros Hf. unfold punch_body. cbv zeta. apply halts_if; [halts_tac|].
  apply halts_bind; [apply halts_lift, tame_login; assumption|]. intros _.
  apply halts_bind; [apply halts_lift, tame_registrar_ponto; assumption|]. intros r.
  halts_tac.
Qed.

Lemma halts_run env fuel trigger :
  enough cfg fuel -> halts (run_rhid_punch cfg env fuel trigger).
Proof.
  intros Hf. unfold run_rhid_punch. cbv zeta.
  apply halts_bind; [apply halts_utcnow|]. intros t0.
  apply halts_bind.
  { apply halts_try_except; [apply halts_build_driver|intros; halts_tac]. }
  intros d. apply halts_try_finally; [|apply halts_teardown].
  apply halts_try_except; [apply halts_punch_body; assumption|intros; halts_tac].
Qed.

End Tame.

(** ** The robust click *)
Section Click.
Context {W : Type} {HW : Host W}.

Lemma emits_try_except {E A} (P : E -> Prop) (m : M W E A) h :
  emits P m -> (forall e, emits P (h e)) -> emits P (try_except m h).
Proof.
  intros Hm Hh w r w' t. unfold try_except.
  destruct (m w) as [[[a|e|] w1] t1] eqn:Em; specialize (Hm _ _ _ _ Em).
  - intros [= <- <- <-]. assumption.
  - destruct (h e w1) as [[r2 w2] t2] eqn:Eh. specialize (Hh _ _ _ _ _ Eh).
    intros [= <- <- <-]. apply Forall_app. auto.
  - intros [= <- <- <-]. assumption.
Qed.

Lemma emits_call {A} (P : devent -> Prop) (c : dcall A) :
  (forall r, P (DCall c r)) -> emits P (call c).
Proof.
  intros Hc w r w' t. unfold call.
  destruct (drv A c w) as [[e|a] w1]; intros [= <- <- <-]; repeat constructor; apply Hc.
Qed.

Lemma emits_sleep (P : devent -> Prop) d : P (DSleep d) -> emits P (sleep d).
Proof. intros Hd w r w' t [= <- <- <-]. repeat constructor. assumption. Qed.

Lemma emits_now (P : devent -> Prop) : emits P (@now W HW).
Proof.
  intros w r w' t. unfold now. destruct (time_time w). intros [= <- <- <-]. constructor.
Qed.

Lemma emits_diverge {E A} (P : E -> Prop) : emits P (@diverge W E A).
Proof. intros w r w' t [= <- <- <-]. constructor. Qed.

Lemma emits_if {E A} (P : E -> Prop) (b : bool) (m1 m2 : M W E A) :
  emits P m1 -> emits P m2 -> emits P (if b then m1 else m2).
Proof. destruct b; auto. Qed.

Ltac calm_step :=
  match goal with
  | |- emits calm (bind _ _) => apply emits_bind; [|intros ?]
  | |- emits calm (try_except _ _) => apply emits_try_except; [|intros ?]
  | |- emits calm (call _) => apply emits_call; intros ?; reflexivity
  | |- emits calm (sleep _) => apply emits_sleep; reflexivity
  | |- emits calm now => apply emits_now
  | |- emits calm (ret _) => apply emits_ret
  | |- emits calm (raise _) => apply emits_raise
  | |- emits calm diverge => apply emits_diverge
  | |- emits calm (if _ then _ else _) => apply emits_if
  | |- emits calm (match ?x with _ => _ end) => destruct x
  | |- emits calm _ => solve [auto]
  end.
Ltac calm_tac := repeat calm_step.

Lemma calm_any_displayed nodes : emits calm (any_displayed nodes).
Proof. induction nodes as [|n rest IH]; cbn [any_displayed]; calm_tac. Qed.

Lemma calm_overlay_present sels : emits calm (overlay_present sels).
Proof.
  pose proof calm_any_displayed.
  induction sels as [|s rest IH]; cbn [overlay_present]; calm_tac.
Qed.

Lemma calm_wait_no_overlays_loop end_ fuel : emits calm (wait_no_overlays_loop fuel end_).
Proof.
  pose proof calm_overlay_present.
  induction fuel as [|fuel IH]; cbn [wait_no_overlays_loop]; calm_tac.
Qed.

Lemma calm_point_hits el : emits calm (_point_hits_element el).
Proof. unfold _point_hits_element. calm_tac. Qed.

Lemma calm_robust_click_pass fuel el : emits calm (robust_click_pass fuel el).
Proof.
  pose proof (calm_point_hits el). unfold robust_click_pass, _wait_no_overlays.
  pose proof (fun e => calm_wait_no_overlays_loop e fuel). calm_tac.
Qed.

Lemma calm_robust_click_loop el end_ fuel :
  forall last, emits calm (robust_click_loop fuel end_ last el).
Proof.
  pose proof calm_robust_click_pass.
  induction fuel as [|fuel IH]; intros last; cbn [robust_click_loop]; calm_tac.
Qed.

(** *** A click that returns has clicked *)
Lemma ends_with_click_app el t1 t2 :
  ends_with_click el t2 -> ends_with_click el (t1 ++ t2).
Proof.
  intros (t0 & c & -> & Hc). exists (t1 ++ t0), c. rewrite app_assoc. auto.
Qed.

Lemma call_inv_Ok {A} (c : dcall A) w a w' t :
  call c w = (Ok a, w', t) -> t = [DCall c (inr a)].
Proof.
  unfold call. destruct (drv A c w) as [[e|a0] w1]; intros [= <- <- <-]. reflexivity.
Qed.

Lemma click_step_inv (c : dcall unit) (h : exn -> M W devent (option exn)) el w w' t :
  is_click_of el c ->
  (forall e w1 w2 t2, h e w1 <> (Ok None, w2, t2)) ->
  try_except (call c ;; ret None) h w = (Ok None, w', t) ->
  ends_with_click el t.
Proof.
  intros Hc Hh H.
  apply try_except_inv_Ok in H as [H|(e & w1 & t1 & t2 & _ & H & _)];
    [|exfalso; eapply Hh; eauto].
  apply bind_inv_Ok in H as ([] & w1 & t1 & t2 & H1 & H2 & ->).
  apply call_inv_Ok in H1 as ->. unfold ret in H2. injection H2 as _ <-.
  exists [], c. auto.
Qed.

Lemma robust_click_pass_return fuel el w w' t :
  robust_click_pass fuel el w = (Ok PassReturn, w', t) -> ends_with_click el t.
Proof.
  intros H. unfold robust_click_pass in H.
  apply try_except_inv_Ok in H as [H|(e & w1 & t1 & t2 & _ & H & _)];
    [|unfold ret in H; discriminate H].
  do 5 (apply bind_inv_Ok in H as (? & ? & ? & ? & _ & H & ->);
        apply ends_with_click_app).
  destruct (negb _ || negb _).
  { apply bind_inv_Ok in H as (? & ? & ? & ? & _ & H & _). unfold ret in H. discriminate H. }
  do 2 (apply bind_inv_Ok in H as (? & ? & ? & ? & _ & H & ->);
        apply ends_with_click_app).
  match type of H with (if ?b then _ else _) _ = _ => destruct b end.
  { apply bind_inv_Ok in H as (? & ? & ? & ? & _ & H & _). unfold ret in H. discriminate H. }
  apply bind_inv_Ok in H as ([e1|] & w8 & t8 & t9 & H1 & H & ->).
  2:{ unfold ret in H. injection H as _ <-. rewrite app_nil_r.
      eapply (click_step_inv (el_click el)); [left; reflexivity| |exact H1].
      intros e w1 w2 t2. cbv beta.
      destruct (isinstance_of ElementClickInterceptedException e
                || isinstance_of ElementNotInteractableException e);
        intros Hx; unfold ret, raise in Hx; discriminate Hx. }
  apply ends_with_click_app.
  apply bind_inv_Ok in H as ([e2|] & w9 & t10 & t11 & H2 & H & ->).
  2:{ unfold ret in H. injection H as _ <-. rewrite app_nil_r.
      eapply (click_step_inv (actions_click el)); [right; left; reflexivity| |exact H2].
      intros e w1 w2 t2 Hx. unfold ret in Hx. discriminate Hx. }
  apply ends_with_click_app.
  apply bind_inv_Ok in H as ([e3|] & w10 & t12 & t13 & H3 & H & ->).
  { unfold ret in H. discriminate H. }
  unfold ret in H. injection H as _ <-. rewrite app_nil_r.
  eapply (click_step_inv (js_click el)); [right; right; reflexivity| |exact H3].
  intros e w1 w2 t2 Hx. unfold ret in Hx. discriminate Hx.
Qed.

Lemma robust_click_loop_return el end_ fuel : forall last w w' t,
  robust_click_loop fuel end_ last el w = (Ok tt, w', t) -> ends_with_click el t.
Proof.
  induction fuel as [|fuel IH]; intros last w w' t H; cbn [robust_click_loop] in H; [discriminate H|].
  apply bind_inv_Ok in H as (tn & w1 & t1 & t2 & _ & H & ->). apply ends_with_click_app.
  destruct (Qltb tn end_); [|discriminate H].
  apply bind_inv_Ok in H as ([| |le] & w2 & t3 & t4 & Hp & H & ->).
  - unfold ret in H. injection H as _ <-. rewrite app_nil_r.
    eapply robust_click_pass_return. eassumption.
  - apply ends_with_click_app. eapply IH. eassumption.
  - apply ends_with_click_app.
    apply bind_inv_Ok in H as (? & ? & ? & ? & _ & H & ->). apply ends_with_click_app.
    eapply IH. eassumption.
Qed.

End Click.

(** X9.  [robust_click] works on the page as it is: it never loads a page,
    and when it returns, the last thing it did is a click on the element
    that went through, by one of its three strategies (the native click,
    the ActionChains click, the dispatched MouseEvent). *)
Theorem robust_click_clicks_in_place {W : Type} {HW : Host W} (fuel : nat)
    (el : element) (timeout : Q) (w : W) r w' t :
  robust_click fuel el timeout w = (r, w', t) ->
  Forall (fun e => is_page_load e = false) t
  /\ (r = Ok tt -> ends_with_click el t).
Proof.
  intros H. split.
  - revert H. apply (emits_bind calm);
      [apply emits_now|intros t0; apply calm_robust_click_loop].
  - intros ->. unfold robust_click in H.
    apply bind_inv_Ok in H as (tn & w1 & t1 & t2 & _ & H & ->).
    apply ends_with_click_app. eapply robust_click_loop_return. eassumption.
Qed.

Lemma robust_click_clicks_in_place_witness :
  fst (fst (@robust_click sim (sim_host spinner) 100 1%N 10 sim0)) = Ok tt
  /\ Forall (fun e => is_page_load e = false)
            (snd (@robust_click sim (sim_host spinner) 100 1%N 10 sim0))
  /\ ends_with_click 1%N (snd (@robust_click sim (sim_host spinner) 100 1%N 10 sim0)).
Proof.
  assert (Hr : fst (fst (@robust_click sim (sim_host spinner) 100 1%N 10 sim0)) = Ok tt)
    by (vm_compute; reflexivity).
  destruct (@robust_click sim (sim_host spinner) 100 1%N 10 sim0) as [[r w'] t] eqn:E.
  simpl in Hr. subst r.
  destruct (@robust_click_clicks_in_place sim (sim_host spinner) 100 1%N 10 sim0 _ _ _ E)
    as [Hcalm Hclick].
  split; [reflexivity|]. split; [exact Hcalm|exact (Hclick eq_refl)].
Defined.

(** ** The confirmation

    X10.  In production mode, when the click went through and neither the
    confirmation element (8 s) nor the confirmation text (6 s) shows up
    before its timeout, [_registrar_ponto] still returns
    "Ponto registrado.". *)
Theorem unconfirmed_click_reports_success {W : Type} {HW : Host W} (cfg : config)
    (fuel : nat) (w : W) b w1 t1 w2 t2 e1 w3 e2 w4 :
  PUNCH_DRY_RUN cfg = false ->
  reach_enabled_final cfg fuel w = (Ok b, w1, t1) ->
  click_final cfg fuel b w1 = (Ok tt, w2, t2) ->
  drv _ (wait_until_EC 8 presence_of_element_located confirmation_css) w2 = (inl e1, w3) ->
  isinstance_of TimeoutException e1 = true ->
  drv _ (wait_until_EC 6 presence_of_element_located confirmation_text_xpath) w3
    = (inl e2, w4) ->
  isinstance_of TimeoutException e2 = true ->
  _registrar_ponto cfg fuel w
  = (Ok MSG_REGISTERED, w4,
     t1 ++ t2
     ++ [DCall (wait_until_EC 8 presence_of_element_located confirmation_css) (inl e1);
         DCall (wait_until_EC 6 presence_of_element_located confirmation_text_xpath)
           (inl e2)]).
Proof.
  intros Hdry Hr Hc H1 He1 H2 He2.
  assert (Hconf : confirmation w2
                  = (Ok tt, w4,
                     [DCall (wait_until_EC 8 presence_of_element_located confirmation_css)
                        (inl e1);
                      DCall (wait_until_EC 6 presence_of_element_located
                               confirmation_text_xpath) (inl e2)])).
  { unfold confirmation, try_except at 1, bind at 1, call at 1. rewrite H1, He1.
    unfold try_except, bind, call. rewrite H2, He2. reflexivity. }
  unfold _registrar_ponto. rewrite Hdry.
  rewrite (bind_Ok _ _ _ _ _ _ Hr), (bind_Ok _ _ _ _ _ _ Hc), (bind_Ok _ _ _ _ _ _ Hconf).
  unfold ret. rewrite app_nil_r. reflexivity.
Qed.

Lemma unconfirmed_click_reports_success_witness :
  fst (fst (@_registrar_ponto sim (sim_host silent) (cfg0 false) 100 sim0)) = Ok MSG_REGISTERED.
Proof.
  pose (H := sim_host silent). pose (cfg := cfg0 false).
  pose (r := @reach_enabled_final sim H cfg 100 sim0).
  pose (c := @click_final sim H cfg 100 1%N (snd (fst r))).
  pose (to := Exn TimeoutException (selenium_str [])).
  assert (E := @unconfirmed_click_reports_success sim H cfg 100 sim0 1%N
             (snd (fst r)) (snd r) (snd (fst c)) (snd c)
             to (tick 8 (snd (fst c))) to (tick 6 (tick 8 (snd (fst c))))).
  unfold H, cfg in E. rewrite E; [reflexivity|vm_compute; reflexivity ..].
Defined.

(** ** The simulated host keeps time *)
Lemma sim_tick_later sc d w : (0 <= d)%Q -> @later sim (sim_host sc) w (tick d w).
Proof.
  intros Hd. unfold later, wall, mono. simpl. rewrite Qred_correct. lra.
Qed.

Lemma sim_timely sc : @Timely sim (sim_host sc).
Proof.
  split.
  - intros w. apply sim_tick_later. discriminate.
  - intros w. apply sim_tick_later. discriminate.
  - intros A c w.
    assert (Hr : @later sim (sim_host sc) w w) by (split; apply Qle_refl).
    destruct c as [| | | | | |t ec loc| | | | | | | | | | | | | | | |];
      simpl; try exact Hr;
      try (repeat (match goal with
                   | |- context [match ?x with _ => _ end] => destruct x; simpl
                   end); exact Hr).
    destruct (_ || _); [|exact Hr]. simpl.
    destruct (Qle_bool 0 t) eqn:E; [|exact Hr].
    apply sim_tick_later. apply Qle_bool_iff. exact E.
  - intros d w. unfold wall. simpl. rewrite Qred_correct. apply Qle_refl.
  - intros d w. unfold mono. simpl. rewrite Qred_correct. apply Qle_refl.
Qed.

(** ** Termination of a run *)

(** X1.  On a host whose clocks never go back and whose [time.sleep]
    lasts at least as long as asked, [run_rhid_punch] ends, with a payload
    or with an exception: every loop of the flow stops at its deadline,
    within [fuel_bound] turns.  (Each single call on the browser, Selenium's
    waits on an expected condition included, is answered by the host.) *)
Theorem run_terminates {W : Type} {HW : Host W} {HT : Timely W} (cfg : config)
    (env : environ) (fuel : nat) (trigger : option pystr) (w : W) :
  enough cfg fuel ->
  exists r w' t, run_rhid_punch cfg env fuel trigger w = (r, w', t) /\ r <> Diverged.
Proof.
  intros Hf. pose proof (halts_run cfg env fuel trigger Hf w) as H.
  destruct (run_rhid_punch cfg env fuel trigger w) as [[r w'] t].
  exists r, w', t. split; [reflexivity|exact H].
Qed.

Lemma run_terminates_witness :
  enough (cfg0 true) 240
  /\ exists r w' t,
       @run_rhid_punch sim (sim_host healthy) (cfg0 true) env0 240 None sim0 = (r, w', t)
       /\ r <> Diverged.
Proof.
  assert (Hf : enough (cfg0 true) 240) by (unfold enough, fuel_bound; simpl; lia).
  split; [exact Hf|].
  exact (@run_terminates sim (sim_host healthy) (sim_timely healthy) (cfg0 true) env0 240
           None sim0 Hf).
Defined.

(** X2.  On such a host, once [_build_driver] has returned a session the
    run ends, [driver.quit()] has been called, and every directory created
    during the run has been handed to [rmtree]. *)
Theorem teardown_on_timely_host {W : Type} {HW : Host W} {HT : Timely W} (cfg : config)
    (env : environ) (fuel : nat) (trigger : option pystr) (w : W) t0 w0 d w1 t1 :
  enough cfg fuel ->
  utc_now w = (t0, w0) ->
  _build_driver cfg w0 = (Ok d, w1, t1) ->
  exists r w' t,
    run_rhid_punch cfg env fuel trigger w = (r, w', t)
    /\ r <> Diverged
    /\ existsb is_quit t = true
    /\ live t = [].
Proof.
  intros Hf Hnow Hb.
  pose proof (halts_punch_body cfg env fuel (default (utf8 "manual") trigger) t0 Hf w1) as Hr.
  destruct (punch_body cfg env fuel (default (utf8 "manual") trigger) t0 w1)
    as [[r w2] t2] eqn:Hp.
  simpl in Hr.
  destruct (run_with_session cfg env fuel trigger w _ _ _ _ _ _ _ _ Hnow Hb Hp Hr)
    as (rq & w3 & tc & w4 & Hq & Hrun & Hc).
  eexists _, _, _. split; [exact Hrun|]. split; [|split].
  - destruct r; simpl; congruence.
  - rewrite !existsb_app. simpl. rewrite !orb_true_r. reflexivity.
  - unfold live. rewrite live_from_app.
    pose proof (build_driver_live cfg _ _ _ _ Hb) as Hl. unfold live in Hl. rewrite Hl.
    rewrite live_from_app.
    rewrite (live_from_neutral t2) by (eapply punch_body_neutral; eauto).
    cbn [live_from allocated removed].
    rewrite (live_from_removals _ _ _ Hc). apply filter_out_all. auto.
Qed.

Lemma teardown_on_timely_host_witness :
  exists r w' t,
    @run_rhid_punch sim (sim_host no_button) (cfg0 false) env0 240 None sim0 = (r, w', t)
    /\ r <> Diverged
    /\ existsb is_quit t = true
    /\ live t = [].
Proof.
  assert (Hf : enough (cfg0 false) 240) by (unfold enough, fuel_bound; simpl; lia).
  assert (Hb : fst (fst (@_build_driver sim (sim_host no_button) (cfg0 false) sim0)) =
               Ok {| session := 1;
                     _tmp_dirs := [utf8 "/tmp/rhid-chrome/data-0";
                                   utf8 "/tmp/rhid-chrome/cache-1";
                                   utf8 "/tmp/rhid-chrome/profile-2"] |})
    by (vm_compute; reflexivity).
  destruct (@_build_driver sim (sim_host no_button) (cfg0 false) sim0) as [[rb w1] t1] eqn:Eb.
  simpl in Hb. subst rb.
  exact (@teardown_on_timely_host sim (sim_host no_button) (sim_timely no_button)
           (cfg0 false) env0 240 None sim0 1000 sim0 _ w1 t1 Hf eq_refl Eb).
Defined.

(** ** Launch failures

    X3.  When both launch attempts raise a WebDriverException, the
    directories of each attempt are removed, but the [except] clause of the
    second attempt allocates a third set before the loop ends: the run
    raises the second failure, wrapped, and the directories of that third
    set (two at least) are left on disk, as [driver] is still [None] in the
    [finally] block. *)
Theorem retry_directories_leak {W : Type} {HW : Host W} (cfg : config) (env : environ)
    (fuel : nat) (trigger : option pystr) (w : W)
    t0 w0 d1 w1 t1 e1 w2 t2 w3 t3 d2 w4 t4 e2 w5 t5 w6 t6 d3 w7 t7 :
  utc_now w = (t0, w0) ->
  alloc_dirs cfg w0 = (Ok d1, w1, t1) ->
  launch cfg d1 w1 = (Raise e1, w2, t2) ->
  isinstance_WebDriverException e1 = true ->
  _cleanup_tmp_list (dirs_list d1) w2 = (Ok tt, w3, t3) ->
  alloc_dirs cfg w3 = (Ok d2, w4, t4) ->
  launch cfg d2 (time_sleep BACKOFF w4) = (Raise e2, w5, t5) ->
  isinstance_WebDriverException e2 = true ->
  _cleanup_tmp_list (dirs_list d2) w5 = (Ok tt, w6, t6) ->
  alloc_dirs cfg w6 = (Ok d3, w7, t7) ->
  let t := t1 ++ t2 ++ t3 ++ t4 ++ Low (DSleep BACKOFF) :: t5 ++ t6 ++ t7
           ++ [Low (DSleep BACKOFF)] in
  run_rhid_punch cfg env fuel trigger w
    = (Raise (wrap_failure e2), time_sleep BACKOFF w7, t)
  /\ live t = dirs_list d3
  /\ (2 <= length (live t))%nat.
Proof.
  intros Hnow Ha1 Hl1 Hwd1 Hc1 Ha2 Hl2 Hwd2 Hc2 Ha3 t.
  assert (Hbd : _build_driver cfg w0 = (Raise e2, time_sleep BACKOFF w7, t)).
  { unfold _build_driver. rewrite (bind_Ok _ _ _ _ _ _ Ha1).
    cbn [build_attempts]. unfold try_except at 1. rewrite Hl1, Hwd1.
    rewrite (bind_Ok _ _ _ _ _ _ Hc1), (bind_Ok _ _ _ _ _ _ Ha2).
    unfold bind at 1. unfold lift at 1, sleep at 1.
    unfold try_except at 1. rewrite Hl2, Hwd2.
    rewrite (bind_Ok _ _ _ _ _ _ Hc2), (bind_Ok _ _ _ _ _ _ Ha3).
    unfold bind at 1. unfold lift, sleep, raise_last, raise. simpl.
    unfold t. rewrite ?app_nil_r. norm_app. reflexivity. }
  assert (Hlive : live t = dirs_list d3).
  { destruct (cleanup_spec (dirs_list d1) w2) as (w3' & t3' & Hc1' & Hr1).
    rewrite Hc1 in Hc1'. injection Hc1' as <- <-.
    destruct (cleanup_spec (dirs_list d2) w5) as (w6' & t6' & Hc2' & Hr2).
    rewrite Hc2 in Hc2'. injection Hc2' as <- <-.
    apply alloc_dirs_inv in Ha1 as (_ & _ & Ha1).
    apply alloc_dirs_inv in Ha2 as (_ & _ & Ha2).
    apply alloc_dirs_inv in Ha3 as (_ & _ & Ha3).
    apply launch_inv in Hl1 as (Hn1 & _ & _). apply launch_inv in Hl2 as (Hn2 & _ & _).
    unfold live, t. rewrite live_from_app, (Ha1 _ eq_refl).
    rewrite live_from_app, (live_from_neutral t2) by assumption.
    rewrite live_from_app, (live_from_removals _ _ _ Hr1), filter_out_all by auto.
    rewrite live_from_app, (Ha2 _ eq_refl). cbn [live_from allocated removed].
    rewrite live_from_app, (live_from_neutral t5) by assumption.
    rewrite live_from_app, (live_from_removals _ _ _ Hr2), filter_out_all by auto.
    rewrite live_from_app, (Ha3 _ eq_refl). reflexivity. }
  split; [|split].
  - rewrite (run_unfold cfg env fuel trigger w t0 w0 Hnow).
    unfold bind, try_except at 1. rewrite Hbd. unfold raise. rewrite app_nil_r. reflexivity.
  - exact Hlive.
  - rewrite Hlive. destruct d3 as [[p1 p2] u]. simpl. lia.
Qed.

Lemma retry_directories_leak_witness :
  live (snd (@run_rhid_punch sim (sim_host broken_chrome) (cfg0 false) env0 100 None sim0))
  = [utf8 "/tmp/rhid-chrome/data-6"; utf8 "/tmp/rhid-chrome/cache-7";
     utf8 "/tmp/rhid-chrome/profile-8"].
Proof.
  pose (H := sim_host broken_chrome). pose (cfg := cfg0 false).
  pose (no_dirs := ([], [], None) : tmp_dirs). pose (no_exn := Exn OtherError []).
  pose (a1 := @alloc_dirs sim H cfg sim0).
  pose (d1 := match fst (fst a1) with Ok d => d | _ => no_dirs end).
  pose (l1 := @launch sim H cfg d1 (snd (fst a1))).
  pose (e1 := match fst (fst l1) with Raise e => e | _ => no_exn end).
  pose (c1 := @_cleanup_tmp_list sim H (dirs_list d1) (snd (fst l1))).
  pose (a2 := @alloc_dirs sim H cfg (snd (fst c1))).
  pose (d2 := match fst (fst a2) with Ok d => d | _ => no_dirs end).
  pose (l2 := @launch sim H cfg d2 (tick BACKOFF (snd (fst a2)))).
  pose (e2 := match fst (fst l2) with Raise e => e | _ => no_exn end).
  pose (c2 := @_cleanup_tmp_list sim H (dirs_list d2) (snd (fst l2))).
  pose (a3 := @alloc_dirs sim H cfg (snd (fst c2))).
  pose (d3 := match fst (fst a3) with Ok d => d | _ => no_dirs end).
  destruct (@retry_directories_leak sim H cfg env0 100 None sim0
              1000 sim0 d1 (snd (fst a1)) (snd a1) e1 (snd (fst l1)) (snd l1)
              (snd (fst c1)) (snd c1) d2 (snd (fst a2)) (snd a2)
              e2 (snd (fst l2)) (snd l2) (snd (fst c2)) (snd c2)
              d3 (snd (fst a3)) (snd a3))
    as (Hrun & Hlive & _); [vm_compute; reflexivity ..|].
  unfold H, cfg in *. rewrite Hrun. cbn [snd]. rewrite Hlive. vm_compute. reflexivity.
Defined.

(** X4.  A launch failure that is not a WebDriverException is not
    retried: the directories of the attempt are removed, no further launch
    step is made, and the run raises that failure, wrapped. *)
Theorem unexpected_launch_error_not_retried {W : Type} {HW : Host W} (cfg : config)
    (env : environ) (fuel : nat) (trigger : option pystr) (w : W)
    t0 w0 dirs w1 t1 e w2 t2 :
  utc_now w = (t0, w0) ->
  alloc_dirs cfg w0 = (Ok dirs, w1, t1) ->
  launch cfg dirs w1 = (Raise e, w2, t2) ->
  isinstance_WebDriverException e = false ->
  exists w3 t3,
    _cleanup_tmp_list (dirs_list dirs) w2 = (Ok tt, w3, t3)
    /\ run_rhid_punch cfg env fuel trigger w
       = (Raise (wrap_failure e), w3, t1 ++ t2 ++ t3)
    /\ Forall (fun ev => is_launch ev = false) (t1 ++ t3)
    /\ live (t1 ++ t2 ++ t3) = [].
Proof.
  intros Hnow Ha Hl Hwd.
  destruct (cleanup_spec (dirs_list dirs) w2) as (w3 & t3 & Hc & Hr).
  exists w3, t3. split; [exact Hc|].
  assert (Hbd : _build_driver cfg w0 = (Raise e, w3, t1 ++ t2 ++ t3)).
  { unfold _build_driver. rewrite (bind_Ok _ _ _ _ _ _ Ha).
    cbn [build_attempts]. unfold try_except at 1. rewrite Hl, Hwd.
    rewrite (bind_Ok _ _ _ _ _ _ Hc). unfold raise_last, raise.
    rewrite ?app_nil_r. reflexivity. }
  split; [|split].
  - rewrite (run_unfold cfg env fuel trigger w t0 w0 Hnow).
    unfold bind, try_except at 1. rewrite Hbd. unfold raise. rewrite app_nil_r. reflexivity.
  - apply Forall_app. split; [|eapply removes_not_launch; eauto].
    apply alloc_not_launch. eapply alloc_dirs_inv; eauto.
  - apply alloc_dirs_inv in Ha as (_ & _ & Ha). apply launch_inv in Hl as (Hn & _ & _).
    unfold live. rewrite live_from_app, (Ha _ eq_refl).
    rewrite live_from_app, (live_from_neutral t2) by assumption.
    rewrite (live_from_removals _ _ _ Hr). apply filter_out_all. auto.
Qed.

Lemma unexpected_launch_error_not_retried_witness :
  fst (fst (@run_rhid_punch sim offline_host (cfg0 false) env0 100 None sim0))
  = Raise (Exn RuntimeError
             (MSG_FAIL ++ utf8 "Could not reach host. Are you offline?"))
  /\ live (snd (@run_rhid_punch sim offline_host (cfg0 false) env0 100 None sim0)) = [].
Proof.
  pose (H := offline_host). pose (cfg := cfg0 false).
  pose (no_dirs := ([], [], None) : tmp_dirs). pose (no_exn := Exn OtherError []).
  pose (a1 := @alloc_dirs sim H cfg sim0).
  pose (d1 := match fst (fst a1) with Ok d => d | _ => no_dirs end).
  pose (l1 := @launch sim H cfg d1 (snd (fst a1))).
  pose (e1 := match fst (fst l1) with Raise e => e | _ => no_exn end).
  destruct (@unexpected_launch_error_not_retried sim H cfg env0 100 None sim0
              1000 sim0 d1 (snd (fst a1)) (snd a1) e1 (snd (fst l1)) (snd l1))
    as (w3 & t3 & _ & Hrun & _ & Hlive); [vm_compute; reflexivity ..|].
  unfold H, cfg in *. rewrite Hrun. cbn [fst snd]. split; [|exact Hlive].
  vm_compute. reflexivity.
Defined.

(** ** Helpers that swallow their errors *)

Section Quiet.
Context {W : Type} {HW : Host W}.
Variable cfg : config.

Lemma never_raises_ret {E A} (a : A) : never_raises (@ret W E A a).
Proof. intros w e w' t. discriminate. Qed.

Lemma never_raises_diverge {E A} : never_raises (@diverge W E A).
Proof. intros w e w' t. discriminate. Qed.

Lemma never_raises_bind {E A B} (m : M W E A) (k : A -> M W E B) :
  never_raises m -> (forall a, never_raises (k a)) -> never_raises (bind m k).
Proof.
  intros Hm Hk w e w' t. unfold bind.
  destruct (m w) as [[[a|e0|] w1] t1] eqn:Em; [| exfalso; eapply Hm; eauto | discriminate].
  destruct (k a w1) as [[r w2] t2] eqn:Ek. intros [= -> -> <-]. eapply Hk; eauto.
Qed.

Lemma never_raises_try_except {E A} (m : M W E A) h :
  (forall e, never_raises (h e)) -> never_raises (try_except m h).
Proof.
  intros Hh w e w' t. unfold try_except.
  destruct (m w) as [[[a|e0|] w1] t1] eqn:Em; try discriminate.
  destruct (h e0 w1) as [[r w2] t2] eqn:Eh. intros [= -> -> <-]. eapply Hh; eauto.
Qed.

Lemma never_raises_sleep d : never_raises (@sleep W HW d).
Proof. intros w e w' t. discriminate. Qed.

Lemma never_raises_now : never_raises (@now W HW).
Proof. intros w e w' t. unfold now. destruct (time_time w). discriminate. Qed.

Lemma never_raises_if {E A} (b : bool) (m1 m2 : M W E A) :
  never_raises m1 -> never_raises m2 -> never_raises (if b then m1 else m2).
Proof. destruct b; auto. Qed.

Ltac quiet_step :=
  match goal with
  | |- never_raises (try_except _ _) => apply never_raises_try_except; intros ?
  | |- never_raises (bind _ _) => apply never_raises_bind; [|intros ?]
  | |- never_raises (sleep _) => apply never_raises_sleep
  | |- never_raises now => apply never_raises_now
  | |- never_raises (ret _) => apply never_raises_ret
  | |- never_raises diverge => apply never_raises_diverge
  | |- never_raises (if _ then _ else _) => apply never_raises_if
  | |- never_raises (match ?x with _ => _ end) => destruct x
  | |- never_raises _ => solve [auto]
  end.
Ltac quiet_tac := repeat quiet_step.

Lemma quiet_dump n : never_raises (_dump_small_html n).
Proof. unfold _dump_small_html. quiet_tac. Qed.

Lemma quiet_screenshot : never_raises (_screenshot cfg).
Proof. unfold _screenshot. quiet_tac. Qed.

Lemma quiet_maybe_already_logged : never_raises (maybe_already_logged cfg).
Proof. unfold maybe_already_logged. quiet_tac. Qed.

Lemma quiet_point_hits el : never_raises (_point_hits_element el).
Proof. unfold _point_hits_element. quiet_tac. Qed.

Lemma quiet_wait_no_overlays_loop end_ fuel : never_raises (wait_no_overlays_loop fuel end_).
Proof. induction fuel as [|fuel IH]; cbn [wait_no_overlays_loop]; quiet_tac. Qed.

Lemma quiet_wait_no_overlays fuel timeout : never_raises (_wait_no_overlays fuel timeout).
Proof.
  unfold _wait_no_overlays. pose proof quiet_wait_no_overlays_loop. quiet_tac.
Qed.

Lemma quiet_visible_or_none loc t : never_raises (_visible_or_none loc t).
Proof. unfold _visible_or_none. quiet_tac. Qed.

Lemma quiet_cleanup paths : never_raises (_cleanup_tmp_list paths).
Proof. induction paths as [|p rest IH]; cbn [_cleanup_tmp_list]; quiet_tac. Qed.

Lemma quiet_teardown d : never_raises (teardown d).
Proof. unfold teardown. pose proof quiet_cleanup. quiet_tac. Qed.

End Quiet.

(** X11.  The best-effort helpers swallow every exception: whatever the
    browser and the file system answer, [_dump_small_html], [_screenshot],
    [maybe_already_logged], [_point_hits_element], [_wait_no_overlays],
    [_visible_or_none], [_cleanup_tmp_list] and the [finally] block of
    [run_rhid_punch] never end with an exception. *)
Theorem best_effort_helpers_never_raise {W : Type} {HW : Host W} (cfg : config) :
  (forall n, never_raises (_dump_small_html n))
  /\ never_raises (_screenshot cfg)
  /\ never_raises (maybe_already_logged cfg)
  /\ (forall el, never_raises (_point_hits_element el))
  /\ (forall fuel timeout, never_raises (_wait_no_overlays fuel timeout))
  /\ (forall loc t, never_raises (_visible_or_none loc t))
  /\ (forall paths, never_raises (_cleanup_tmp_list paths))
  /\ (forall d, never_raises (teardown d)).
Proof.
  repeat split;
    auto using quiet_dump, quiet_screenshot, quiet_maybe_already_logged, quiet_point_hits,
      quiet_wait_no_overlays, quiet_visible_or_none, quiet_cleanup, quiet_teardown.
Qed.

Lemma bind_call_first {W : Type} {HW : Host W} {A B} (c : dcall A)
    (k : A -> M W devent B) (w : W) :
  exists r0 r w1 t, bind (call c) k w = (r, w1, DCall c r0 :: t).
Proof.
  unfold bind, call. destruct (drv A c w) as [[e|a] w1].
  - eexists _, _, _, _. reflexivity.
  - destruct (k a w1) as [[r w2] t2]. eexists _, _, _, _. reflexivity.
Qed.

(** X12.  [_login] takes the address from RHID_LOGIN_URL, and from RHID_URL
    when that one is missing or empty.  With both missing or empty it
    raises the RuntimeError "Defina RHID_URL (ou RHID_LOGIN_URL) no .env
    para a página de login." before anything is asked of the browser;
    otherwise the first thing it asks of the browser is [driver.get] of
    that address. *)
Theorem login_url_resolution {W : Type} {HW : Host W} (cfg : config) (env : environ)
    (fuel : nat) (email senha : pystr) (w : W) :
  (unset env "RHID_LOGIN_URL" -> unset env "RHID_URL" ->
   _login cfg env fuel email senha w = (Raise (Exn RuntimeError MSG_NO_URL), w, []))
  /\ (forall u : pystr, u <> [] ->
        env !! "RHID_LOGIN_URL"%string = Some u
        \/ (unset env "RHID_LOGIN_URL" /\ env !! "RHID_URL"%string = Some u) ->
        exists r0 r w1 t,
          _login cfg env fuel email senha w = (r, w1, DCall (driver_get u) r0 :: t)).
Proof.
  split.
  - intros [H1|H1] [H2|H2]; unfold _login, environ_get_or; rewrite H1, H2; reflexivity.
  - intros u Hu Hsrc.
    assert (Hurl : environ_get_or env "RHID_LOGIN_URL" "RHID_URL" = Some u).
    { unfold environ_get_or.
      destruct Hsrc as [H1|[[H1|H1] H2]]; rewrite H1; simpl; try assumption.
      destruct u; [congruence|reflexivity]. }
    unfold _login. rewrite Hurl.
    destruct u as [|c u]; [congruence|]. cbn [py_not].
    apply bind_call_first.
Qed.

(** ** Locating, typing and clicking with retries *)

Section Locate.
Context {W : Type} {HW : Host W}.

Lemma find_first_visible_from_spec timeout locs : forall last_exc (w : W) r w' tr,
  find_first_visible_from last_exc locs timeout w = (r, w', tr) ->
  match r with
  | Ok el =>
    exists pre loc post tr0,
      locs = pre ++ loc :: post
      /\ tr = tr0 ++ [DCall (wait_until_EC timeout visibility_of_element_located loc) (inr el)]
      /\ failed_waits timeout visibility_of_element_located tr0 pre
  | Raise e =>
    failed_waits timeout visibility_of_element_located tr locs
    /\ match last tr with
       | Some ev => raised ev = Some e
       | None => e = default (Exn TimeoutException (selenium_str (utf8 "Nenhum seletor visível encontrado."))) last_exc
       end
  | Diverged => False
  end.
Proof.
  induction locs as [|loc rest IH]; intros last_exc w r w' tr; cbn [find_first_visible_from].
  - destruct last_exc as [e|]; unfold raise; intros [= <- <- <-]; split; try constructor; reflexivity.
  - unfold try_except, wait_visible, call.
    destruct (drv _ (wait_until_EC timeout visibility_of_element_located loc) w)
      as [[e|el] w1] eqn:Ed.
    + destruct (find_first_visible_from (Some e) rest timeout w1) as [[r2 w2] t2] eqn:Er.
      intros [= <- <- <-]. specialize (IH _ _ _ _ _ Er).
      destruct r2 as [el|e2|]; [| |assumption].
      * destruct IH as (pre & l & post & tr0 & -> & -> & Hf).
        exists (loc :: pre), l, post, (DCall (wait_until_EC timeout visibility_of_element_located loc) (inl e) :: tr0).
        repeat split. constructor; eauto.
      * destruct IH as [Hf Hl]. split; [constructor; eauto|].
        destruct t2 as [|ev t2]; [simpl in *; subst; reflexivity|].
        cbn [app]. rewrite last_cons_cons.
        destruct (last (ev :: t2)) eqn:El; [exact Hl|].
        apply last_None in El. discriminate El.
    + intros [= <- <- <-]. exists [], loc, rest, []. repeat split. constructor.
Qed.

End Locate.

(** X13.  [find_first_visible] tries the locators in the order given, one
    wait each, and stops at the first one that becomes visible: the element
    returned is the answer of the last wait and every wait before it
    failed.  When it raises, every locator was waited for once and failed,
    and the exception is the one of the last locator; with no locator at
    all it is the TimeoutException "Nenhum seletor visível encontrado.". *)
Theorem find_first_visible_order {W : Type} {HW : Host W} (locs : list locator)
    (timeout : Q) (w : W) r w' tr :
  find_first_visible locs timeout w = (r, w', tr) ->
  match r with
  | Ok el =>
    exists pre loc post tr0,
      locs = pre ++ loc :: post
      /\ tr = tr0 ++ [DCall (wait_until_EC timeout visibility_of_element_located loc) (inr el)]
      /\ failed_waits timeout visibility_of_element_located tr0 pre
  | Raise e =>
    failed_waits timeout visibility_of_element_located tr locs
    /\ match last tr with
       | Some ev => raised ev = Some e
       | None => locs = [] /\ e = Exn TimeoutException (selenium_str (utf8 "Nenhum seletor visível encontrado."))
       end
  | Diverged => False
  end.
Proof.
  intros H. apply find_first_visible_from_spec in H.
  destruct r as [el|e|]; try assumption.
  destruct H as [Hf Hl]. split; [assumption|].
  destruct (last tr) eqn:El; [assumption|].
  split; [|assumption].
  apply last_None in El. subst tr. inversion Hf. reflexivity.
Qed.

Section Retry.
Context {W : Type} {HW : Host W}.

Lemma last_In {A} (l : list A) x : last l = Some x -> In x l.
Proof.
  induction l as [|y l IH]; [discriminate|].
  destruct l as [|z l]; [intros [= ->]; left; reflexivity|].
  rewrite last_cons_cons. intros H. right. auto.
Qed.

Lemma last_raised_in e tr : last_raised tr = Some e -> raised_in e tr.
Proof.
  unfold last_raised. destruct (last tr) as [ev|] eqn:El; [|discriminate].
  intros H. exists ev. split; [apply last_In; assumption|assumption].
Qed.

Lemma raised_in_app_l e t1 t2 : raised_in e t1 -> raised_in e (t1 ++ t2).
Proof. intros (ev & Hin & Hr). exists ev. split; [apply in_or_app; auto|assumption]. Qed.

Lemma raised_in_app_r e t1 t2 : raised_in e t2 -> raised_in e (t1 ++ t2).
Proof. intros (ev & Hin & Hr). exists ev. split; [apply in_or_app; auto|assumption]. Qed.

Lemma sends_app t1 t2 : sends (t1 ++ t2) = (sends t1 + sends t2)%nat.
Proof.
  induction t1 as [|[A c r|d] t1 IH]; simpl; [reflexivity| |assumption].
  destruct c; simpl; rewrite IH; reflexivity.
Qed.

Lemma clicks_app t1 t2 : clicks (t1 ++ t2) = (clicks t1 + clicks t2)%nat.
Proof.
  induction t1 as [|[A c r|d] t1 IH]; simpl; [reflexivity| |assumption].
  destruct c; simpl; rewrite IH; reflexivity.
Qed.

Lemma last_app_cons {A} (l1 l2 : list A) x : last (l1 ++ x :: l2) = last (x :: l2).
Proof. rewrite last_app. destruct (last (x :: l2)) eqn:E; [reflexivity|].
  apply last_None in E. discriminate. Qed.

Ltac run_calls :=
  repeat match goal with
         | |- context [drv ?A ?c ?w] =>
           let e := fresh "e" in let a := fresh "a" in let w1 := fresh "w" in
           destruct (drv A c w) as [[e|a] w1]
         | |- context [isinstance_of ?c ?e] => destruct (isinstance_of c e)
         end.

Lemma type_attempt_spec loc text t (w : W) r w' tr :
  type_attempt loc text t w = (r, w', tr) ->
  (sends tr <= 1)%nat
  /\ match r with
     | Ok _ => exists el, last tr = Some (DCall (el_send_keys el text) (inr tt))
     | Raise e => last_raised tr = Some e
     | Diverged => False
     end.
Proof.
  unfold type_attempt, bind, try_except, call, sleep, ret, raise.
  run_calls; intros [= <- <- <-]; (split; [simpl; lia|]);
    try reflexivity;
    repeat match goal with u : unit |- _ => destruct u end;
    eexists; reflexivity.
Qed.


Lemma type_loop_spec loc text t n : forall last_exc (w : W) r w' tr,
  type_loop n last_exc loc text t w = (r, w', tr) ->
  (sends tr <= n)%nat
  /\ match r with
     | Ok (inr _) => exists el, last tr = Some (DCall (el_send_keys el text) (inr tt))
     | Ok (inl l') => l' = last_exc \/ exists e, l' = Some e /\ raised_in e tr
     | _ => False
     end.
Proof.
  induction n as [|n IH]; intros last_exc w r w' tr; cbn [type_loop].
  - unfold ret. intros [= <- <- <-]. split; [simpl; lia|auto].
  - unfold try_except, bind.
    destruct (type_attempt loc text t w) as [[[[]|e|] w1] t1] eqn:Ea;
      apply type_attempt_spec in Ea as [Hs Ha]; [| |contradiction].
    + unfold ret. intros [= <- <- <-]. rewrite app_nil_r. split; [lia|assumption].
    + apply last_raised_in in Ha.
      destruct (isinstance_of StaleElementReferenceException e).
      * unfold sleep at 1.
        destruct (type_loop n (Some e) loc text t (time_sleep (1 # 5) w1))
          as [[r2 w2] t2] eqn:El.
        intros [= <- <- <-]. apply IH in El as [Hs2 Hr].
        rewrite !sends_app. cbn [sends]. split; [simpl; lia|].
        destruct r2 as [[l'|[]]|e2|]; try contradiction.
        -- right. destruct Hr as [->|(e2 & -> & Hin)]; exists e2 || idtac.
           ++ exists e. split; [reflexivity|]. apply raised_in_app_l. assumption.
           ++ split; [reflexivity|]. apply raised_in_app_r.
              apply (raised_in_app_r _ [DSleep (1 # 5)]). assumption.
        -- destruct Hr as [el Hl]. exists el.
           destruct t2 as [|x t2]; [discriminate|].
           cbn [app]. rewrite (last_app_cons t1 (x :: t2) (DSleep (1 # 5))).
           rewrite last_cons_cons. assumption.
      * unfold ret. intros [= <- <- <-]. rewrite app_nil_r. split; [lia|].
        right. exists e. auto.
Qed.

Lemma type_with_retry_spec loc text n t (w : W) r w' tr :
  type_with_retry loc text n t w = (r, w', tr) ->
  (sends tr <= n)%nat
  /\ match r with
     | Ok _ =>
       exists el, last tr = Some (DCall (el_send_keys el text) (inr tt))
                  \/ last tr = Some (DCall (js_set_value el text) (inr tt))
     | Raise e =>
       raised_in e tr
       /\ exists e',
            last tr = Some (DCall (wait_until_EC t presence_of_element_located loc) (inl e'))
            \/ exists el, last tr = Some (DCall (js_set_value el text) (inl e'))
     | Diverged => False
     end.
Proof.
  unfold type_with_retry, bind.
  destruct (type_loop n None loc text t w) as [[r1 w1] t1] eqn:El.
  apply type_loop_spec in El as [Hs Hr].
  destruct r1 as [[l'|[]]|e1|]; try contradiction.
  - unfold try_except, bind, call, ret, raise.
    destruct (drv _ (wait_until_EC t presence_of_element_located loc) w1) as [[e'|el] w2].
    + intros [= <- <- <-]. rewrite ?app_nil_r, !sends_app. cbn [sends]. split; [simpl; lia|].
      split.
      * destruct Hr as [->|(e0 & -> & Hin)]; simpl.
        -- apply raised_in_app_r. exists (DCall (wait_until_EC t presence_of_element_located loc) (inl e')).
           split; [left; reflexivity|reflexivity].
        -- apply raised_in_app_l. assumption.
      * exists e'. left. rewrite last_snoc. reflexivity.
    + destruct (drv _ (js_set_value el text) w2) as [[e'|[]] w3]; intros [= <- <- <-];
        rewrite ?app_nil_r, !sends_app; cbn [sends app]; (split; [simpl; lia|]).
      * split.
        -- destruct Hr as [->|(e0 & -> & Hin)]; simpl.
           ++ apply raised_in_app_r. exists (DCall (js_set_value el text) (inl e')).
              split; [right; left; reflexivity|reflexivity].
           ++ apply raised_in_app_l. assumption.
        -- exists e'. right. exists el.
           rewrite (last_app_cons t1 [DCall (js_set_value el text) (inl e')]).
           reflexivity.
      * exists el. right.
        rewrite (last_app_cons t1 [DCall (js_set_value el text) (inr tt)]). reflexivity.
  - unfold ret. intros [= <- <- <-]. rewrite app_nil_r. split; [assumption|].
    destruct Hr as [el Hl]. exists el. left. assumption.
Qed.


Lemma click_pass_spec t locs : forall last_exc (w : W) r w' tr,
  click_pass locs last_exc t w = (r, w', tr) ->
  (clicks tr <= length locs)%nat
  /\ match r with
     | Ok (inr _) => exists el, last tr = Some (DCall (el_click el) (inr tt))
     | Ok (inl l') =>
       (l' = last_exc /\ tr = [] /\ locs = []) \/ exists e, l' = Some e /\ raised_in e tr
     | _ => False
     end.
Proof.
  induction locs as [|loc rest IH]; intros last_exc w r w' tr; cbn [click_pass].
  - unfold ret. intros [= <- <- <-]. split; [simpl; lia|auto].
  - set (body := (el <- call (wait_until_EC t element_to_be_clickable loc) ;;
                  call (js_scrollIntoView el) ;; sleep (1#20) ;; call (el_click el) ;;
                  ret (inr tt : option exn + unit))).
    assert (Hbody : forall r1 w1 t1, body w = (r1, w1, t1) ->
              (clicks t1 <= 1)%nat
              /\ match r1 with
                 | Ok (inr _) => exists el, last t1 = Some (DCall (el_click el) (inr tt))
                 | Raise e => last_raised t1 = Some e
                 | _ => False
                 end).
    { intros r1 w1 t1. unfold body, bind, call, sleep, ret.
      run_calls; intros [= <- <- <-]; (split; [simpl; lia|]); try reflexivity;
        repeat match goal with u : unit |- _ => destruct u end; eexists; reflexivity. }
    unfold try_except. fold body.
    destruct (body w) as [[r1 w1] t1] eqn:Eb.
    destruct (Hbody _ _ _ eq_refl) as [Hc Hr]. clear Hbody.
    destruct r1 as [[l|[]]|e|]; try contradiction.
    + intros [= <- <- <-]. split; [simpl; lia|assumption].
    + apply last_raised_in in Hr.
      assert (Hrest : forall w2 r2 w3 t2 pre,
                click_pass rest (Some e) t w2 = (r2, w3, t2) ->
                (clicks pre = 0)%nat ->
                (clicks (t1 ++ pre ++ t2) <= length (loc :: rest))%nat
                /\ match r2 with
                   | Ok (inr _) =>
                     exists el, last (t1 ++ pre ++ t2) = Some (DCall (el_click el) (inr tt))
                   | Ok (inl l') =>
                     (l' = last_exc /\ t1 ++ pre ++ t2 = [] /\ loc :: rest = [])
                     \/ exists e0, l' = Some e0 /\ raised_in e0 (t1 ++ pre ++ t2)
                   | _ => False
                   end).
      { intros w2 r2 w3 t2 pre Hp Hpre. apply IH in Hp as [Hc2 Hr2].
        rewrite !clicks_app. split; [simpl; lia|].
        destruct r2 as [[l'|[]]|e2|]; try contradiction.
        - right. destruct Hr2 as [(-> & _ & _)|(e0 & -> & Hin)].
          + exists e. split; [reflexivity|]. apply raised_in_app_l. assumption.
          + exists e0. split; [reflexivity|]. do 2 apply raised_in_app_r. assumption.
        - destruct Hr2 as [el Hl]. exists el.
          destruct t2 as [|x t2]; [discriminate|].
          rewrite app_assoc, last_app_cons. assumption. }
      destruct (_ || _).
      * unfold bind at 1, sleep at 1.
        destruct (click_pass rest (Some e) t (time_sleep (1 # 5) w1)) as [[r2 w3] t2] eqn:Ep.
        intros [= <- <- <-]. apply (Hrest _ _ _ _ [DSleep (1#5)] Ep). reflexivity.
      * destruct (click_pass rest (Some e) t w1) as [[r2 w3] t2] eqn:Ep.
        intros [= <- <- <-]. apply (Hrest _ _ _ _ [] Ep). reflexivity.
Qed.

Lemma click_attempts_spec t locs n : forall last_exc (w : W) r w' tr,
  click_attempts n locs last_exc t w = (r, w', tr) ->
  (clicks tr <= n * length locs)%nat
  /\ match r with
     | Ok (inr _) => exists el, last tr = Some (DCall (el_click el) (inr tt))
     | Ok (inl l') =>
       (l' = last_exc /\ tr = [] /\ (n = 0%nat \/ locs = []))
       \/ exists e, l' = Some e /\ raised_in e tr
     | _ => False
     end.
Proof.
  induction n as [|n IH]; intros last_exc w r w' tr; cbn [click_attempts].
  - unfold ret. intros [= <- <- <-]. split; [simpl; lia|auto].
  - unfold bind.
    destruct (click_pass locs last_exc t w) as [[r1 w1] t1] eqn:Ep.
    apply click_pass_spec in Ep as [Hc Hr].
    destruct r1 as [[l1|[]]|e|]; try contradiction.
    + destruct (click_attempts n locs l1 t w1) as [[r2 w2] t2] eqn:Ea.
      intros [= <- <- <-]. apply IH in Ea as [Hc2 Hr2].
      rewrite clicks_app. split; [lia|].
      destruct r2 as [[l2|[]]|e2|]; try contradiction.
      * destruct Hr2 as [(-> & -> & Hn)|(e0 & -> & Hin)].
        -- rewrite app_nil_r.
           destruct Hr as [(-> & -> & ->)|(e0 & -> & Hin)]; [left; auto|right; eauto].
        -- right. exists e0. split; [reflexivity|]. apply raised_in_app_r. assumption.
      * destruct Hr2 as [el Hl]. exists el.
        destruct t2 as [|x t2]; [discriminate|]. rewrite last_app_cons. assumption.
    + unfold ret. intros [= <- <- <-]. rewrite app_nil_r. split; [lia|assumption].
Qed.

End Retry.

Import Pages.

Lemma find_first_visible_order_witness :
  let run := @find_first_visible sim no_id EMAIL_SELECTORS 10 sim0 in
  exists pre loc post tr0 el,
    fst (fst run) = Ok el
    /\ EMAIL_SELECTORS = pre ++ loc :: post
    /\ snd run
       = tr0 ++ [DCall (wait_until_EC 10 visibility_of_element_located loc) (inr el)]
    /\ failed_waits 10 visibility_of_element_located tr0 pre
    /\ length (snd run) = 2%nat.
Proof.
  cbv zeta.
  assert (Hr : fst (fst (@find_first_visible sim no_id EMAIL_SELECTORS 10 sim0)) = Ok 1%N)
    by (vm_compute; reflexivity).
  assert (Hn : length (snd (@find_first_visible sim no_id EMAIL_SELECTORS 10 sim0)) = 2%nat)
    by (vm_compute; reflexivity).
  destruct (@find_first_visible sim no_id EMAIL_SELECTORS 10 sim0) as [[r w'] tr] eqn:E.
  simpl in Hr, Hn. subst r.
  destruct (@find_first_visible_order sim no_id _ _ _ _ _ _ E)
    as (pre & loc & post & tr0 & Hl & Ht & Hf).
  exists pre, loc, post, tr0, 1%N. repeat split; assumption.
Defined.

(** X14.  [type_with_retry] calls [send_keys] at most [attempts] times.
    When it returns, the last thing asked of the browser is a [send_keys]
    of the text or the script that sets the value, and that call succeeded.
    When it raises, the script fallback was tried and failed (at its wait
    or at the script), and the exception raised is one the browser
    answered with during the call. *)
Theorem type_with_retry_outcome {W : Type} {HW : Host W} (loc : locator) (text : pystr)
    (attempts : nat) (timeout_each : Q) (w : W) r w' tr :
  type_with_retry loc text attempts timeout_each w = (r, w', tr) ->
  (sends tr <= attempts)%nat
  /\ match r with
     | Ok _ =>
       exists el, last tr = Some (DCall (el_send_keys el text) (inr tt))
                  \/ last tr = Some (DCall (js_set_value el text) (inr tt))
     | Raise e =>
       raised_in e tr
       /\ exists e',
            last tr = Some (DCall (wait_until_EC timeout_each presence_of_element_located loc)
                              (inl e'))
            \/ exists el, last tr = Some (DCall (js_set_value el text) (inl e'))
     | Diverged => False
     end.
Proof. apply type_with_retry_spec. Qed.

Lemma type_with_retry_outcome_witness :
  let run := @type_with_retry sim readonly (By_ID, utf8 "email") (utf8 "ana") 3 10 sim0 in
  fst (fst run) = Ok tt
  /\ (sends (snd run) <= 3)%nat
  /\ exists el, last (snd run) = Some (DCall (el_send_keys el (utf8 "ana")) (inr tt))
                \/ last (snd run) = Some (DCall (js_set_value el (utf8 "ana")) (inr tt)).
Proof.
  cbv zeta.
  assert (Hr : fst (fst (@type_with_retry sim readonly (By_ID, utf8 "email") (utf8 "ana")
                           3 10 sim0)) = Ok tt) by (vm_compute; reflexivity).
  destruct (@type_with_retry sim readonly (By_ID, utf8 "email") (utf8 "ana") 3 10 sim0)
    as [[r w'] tr] eqn:E.
  simpl in Hr. subst r.
  destruct (@type_with_retry_outcome sim readonly _ _ _ _ _ _ _ _ E) as [Hs Hl].
  split; [reflexivity|]. split; assumption.
Defined.

(** X15.  [click_with_retry] clicks at most [attempts] times per locator.
    When it returns, the last thing asked of the browser is a click that
    succeeded.  When it raises, the exception is one the browser answered
    with, or, when nothing was asked of the browser because there is no
    attempt or no locator, the RuntimeError "Falha ao clicar no elemento
    após múltiplas tentativas.". *)
Theorem click_with_retry_outcome {W : Type} {HW : Host W} (locators : list locator)
    (attempts : nat) (timeout_each : Q) (w : W) r w' tr :
  click_with_retry locators attempts timeout_each w = (r, w', tr) ->
  (clicks tr <= attempts * length locators)%nat
  /\ match r with
     | Ok _ => exists el, last tr = Some (DCall (el_click el) (inr tt))
     | Raise e =>
       raised_in e tr
       \/ (e = Exn RuntimeError
                      (utf8 "Falha ao clicar no elemento após múltiplas tentativas.")
           /\ tr = []
           /\ (attempts = 0%nat \/ locators = []))
     | Diverged => False
     end.
Proof.
  unfold click_with_retry, bind.
  destruct (click_attempts attempts locators None timeout_each w) as [[r1 w1] t1] eqn:Ea.
  apply click_attempts_spec in Ea as [Hc Hr].
  destruct r1 as [[l'|[]]|e1|]; try contradiction.
  - unfold raise. intros [= <- <- <-]. rewrite app_nil_r. split; [assumption|].
    destruct Hr as [(-> & -> & Hn)|(e0 & -> & Hin)]; [right|left; exact Hin].
    split; [reflexivity|]. split; [reflexivity|exact Hn].
  - unfold ret. intros [= <- <- <-]. rewrite app_nil_r. split; assumption.
Qed.

Lemma click_with_retry_outcome_witness :
  let run := @click_with_retry sim (sim_host healthy) LOGIN_BTN_SELECTORS 3 10 sim0 in
  fst (fst run) = Ok tt
  /\ (clicks (snd run) <= 3 * 3)%nat
  /\ exists el, last (snd run) = Some (DCall (el_click el) (inr tt)).
Proof.
  cbv zeta.
  assert (Hr : fst (fst (@click_with_retry sim (sim_host healthy) LOGIN_BTN_SELECTORS
                           3 10 sim0)) = Ok tt) by (vm_compute; reflexivity).
  destruct (@click_with_retry sim (sim_host healthy) LOGIN_BTN_SELECTORS 3 10 sim0)
    as [[r w'] tr] eqn:E.
  simpl in Hr. subst r.
  destruct (@click_with_retry_outcome sim (sim_host healthy) _ _ _ _ _ _ _ E) as [Hs Hl].
  split; [reflexivity|]. split; assumption.
Defined.

(** ** A button that never becomes enabled *)
Section GiveUp.
Context {W : Type} {HW : Host W} {HT : Timely W}.
Variable cfg : config.

Lemma until_loop_none {A} (method : M W devent (option A)) end_time :
  (forall w, fst (fst (method w)) = Ok None) ->
  forall fuel w r w' t,
    until_loop fuel end_time method w = (r, w', t) ->
    r = Raise (Exn TimeoutException (selenium_str [])) \/ r = Diverged.
Proof.
  intros Hnone. induction fuel as [|fuel IH]; intros w r w' t; cbn [until_loop].
  - unfold diverge. intros [= <- _ _]. right. reflexivity.
  - unfold bind at 1, try_except at 1. pose proof (Hnone w) as Hw.
    destruct (method w) as [[r0 w1] t1]. simpl in Hw. subst r0.
    unfold bind at 1, sleep at 1. unfold bind at 1, monotonic at 1.
    destruct (time_monotonic (time_sleep (1 # 2) w1)) as [tm w3].
    destruct (Qltb end_time tm).
    + unfold raise. intros [= <- _ _]. left. reflexivity.
    + destruct (until_loop fuel end_time method w3) as [[r2 w4] t4] eqn:Eu.
      intros [= <- _ _]. eapply IH. eassumption.
Qed.

Lemma wait_gives_up {A} (method : M W devent (option A)) fuel :
  enough cfg fuel -> tame method ->
  (forall w, fst (fst (method w)) = Ok None) ->
  forall w, exists w' t,
    WebDriverWait_until fuel (TIMEOUT cfg) method w
    = (Raise (Exn TimeoutException (selenium_str [])), w', t).
Proof.
  intros Hf Hm Hnone w.
  destruct (tame_wait_TIMEOUT cfg method fuel Hf Hm w) as [_ Hd].
  destruct (WebDriverWait_until fuel (TIMEOUT cfg) method w) as [[r w'] t] eqn:Ew.
  simpl in Hd. exists w', t.
  unfold WebDriverWait_until, bind, monotonic in Ew.
  destruct (time_monotonic w) as [t0 w1].
  destruct (until_loop fuel (t0 + TIMEOUT cfg) method w1) as [[r2 w2] t2] eqn:Eu.
  injection Ew as <- <- <-.
  apply (until_loop_none method _ Hnone) in Eu as [-> | ->]; [reflexivity|congruence].
Qed.

End GiveUp.

(** X16.  On a host that keeps time, when [_enabled()] answers False in
    every state, the wait for the final button ends, with the fuel of
    [fuel_bound], in the RuntimeError "Botão FINAL não habilitou dentro do
    timeout. Verifique geolocalização/permite GPS.": it does not go on for
    ever, and it does not return. *)
Theorem disabled_button_fails {W : Type} {HW : Host W} {HT : Timely W} (cfg : config)
    (fuel : nat) (w : W) :
  enough cfg fuel ->
  (forall w0 : W, fst (fst (_enabled w0)) = Ok false) ->
  exists w' t,
    wait_enabled cfg fuel w = (Raise (Exn RuntimeError MSG_NOT_ENABLED), w', t).
Proof.
  intros Hf Hdis. unfold wait_enabled, try_except.
  destruct (wait_gives_up cfg (b <- _enabled ;; ret (truthy b)) fuel Hf) with (w := w)
    as (w1 & t1 & Hw).
  - apply tame_bind; [apply tame_enabled|intros; apply tame_ret].
  - intros w0. specialize (Hdis w0). unfold bind, ret.
    destruct (_enabled w0) as [[r0 w2] t2]. simpl in Hdis. subst r0. reflexivity.
  - rewrite Hw. cbn [isinstance_of exn_cls].
    destruct (screenshot_returns cfg w1) as (w2 & t2 & Hs).
    rewrite (bind_Ok _ _ _ _ _ _ Hs). unfold raise. eexists _, _. reflexivity.
Qed.

Lemma page_timely (d : forall A, dcall A -> sim -> (exn + A) * sim) :
  (forall A c w, @later sim (sim_host healthy) w (snd (d A c w))) ->
  @Timely sim (page_host d).
Proof.
  intros Hd. pose proof (sim_timely healthy) as HT. split.
  - exact (@time_later sim (sim_host healthy) HT).
  - exact (@monotonic_later sim (sim_host healthy) HT).
  - exact Hd.
  - exact (@sleep_wall sim (sim_host healthy) HT).
  - exact (@sleep_mono sim (sim_host healthy) HT).
Qed.

Lemma stuck_timely : @Timely sim stuck.
Proof.
  apply page_timely. intros A c w.
  pose proof (@drv_later sim (sim_host healthy) (sim_timely healthy) A c w) as H.
  destruct c; exact H.
Qed.

Lemma disabled_button_fails_witness :
  exists w' t,
    @wait_enabled sim stuck (cfg0 false) 240 sim0
    = (Raise (Exn RuntimeError MSG_NOT_ENABLED), w', t).
Proof.
  apply (@disabled_button_fails sim stuck stuck_timely (cfg0 false) 240 sim0).
  - unfold enough, fuel_bound. simpl. lia.
  - intros w0. vm_compute. reflexivity.
Defined.

(** ** What leaves [run_rhid_punch] *)

Section Wrapped.
Context {W : Type} {HW : Host W}.
Variable cfg : config.
Variable env : environ.




End Wrapped.



(** ** Where the browser is sent *)

Section Loads.
Context {W : Type} {HW : Host W}.
Variable cfg : config.
Variable env : environ.

Lemma emits_monotonic (P : devent -> Prop) : emits P (@monotonic W HW).
Proof.
  intros w r w' t. unfold monotonic. destruct (time_monotonic w).
  intros [= <- <- <-]. constructor.
Qed.

Ltac still_step :=
  match goal with
  | |- emits calm (bind _ _) => apply emits_bind; [|intros ?]
  | |- emits calm (try_except _ _) => apply emits_try_except; [|intros ?]
  | |- emits calm (call _) => apply emits_call; intros ?; reflexivity
  | |- emits calm (sleep _) => apply emits_sleep; reflexivity
  | |- emits calm now => apply emits_now
  | |- emits calm monotonic => apply emits_monotonic
  | |- emits calm (ret _) => apply emits_ret
  | |- emits calm (raise _) => apply emits_raise
  | |- emits calm diverge => apply emits_diverge
  | |- emits calm (if _ then _ else _) => apply emits_if
  | |- emits calm (match ?x with _ => _ end) => destruct x
  | |- emits calm _ => solve [auto]
  end.
Ltac still_tac := repeat still_step.

Lemma calm_until_loop {A} (method : M W devent (option A)) end_time fuel :
  emits calm method -> emits calm (until_loop fuel end_time method).
Proof. intros Hm. induction fuel as [|fuel IH]; cbn [until_loop]; still_tac. Qed.

Lemma calm_wait_until {A} (method : M W devent (option A)) timeout fuel :
  emits calm method -> emits calm (WebDriverWait_until fuel timeout method).
Proof.
  intros Hm. pose proof (fun e => calm_until_loop method e fuel Hm).
  unfold WebDriverWait_until. still_tac.
Qed.

Lemma calm_wait_dom_ready fuel timeout : emits calm (wait_dom_ready fuel timeout).
Proof. unfold wait_dom_ready. apply calm_wait_until. still_tac. Qed.

Lemma calm_maybe_already_logged : emits calm (maybe_already_logged cfg).
Proof. unfold maybe_already_logged. still_tac. Qed.

Lemma calm_find_first_visible locs timeout : forall last_exc,
  emits calm (find_first_visible_from last_exc locs timeout).
Proof.
  induction locs as [|loc rest IH]; intros last_exc; cbn [find_first_visible_from];
    unfold wait_visible; still_tac.
Qed.

Lemma calm_type_attempt loc text t : emits calm (type_attempt loc text t).
Proof. unfold type_attempt. still_tac. Qed.

Lemma calm_type_loop loc text t n : forall last_exc,
  emits calm (type_loop n last_exc loc text t).
Proof.
  pose proof (calm_type_attempt loc text t).
  induction n as [|n IH]; intros last_exc; cbn [type_loop]; still_tac.
Qed.

Lemma calm_type_with_retry loc text n t : emits calm (type_with_retry loc text n t).
Proof. pose proof (calm_type_loop loc text t n). unfold type_with_retry. still_tac. Qed.

Lemma calm_click_pass t locs : forall last_exc, emits calm (click_pass locs last_exc t).
Proof. induction locs as [|loc rest IH]; intros last_exc; cbn [click_pass]; still_tac. Qed.

Lemma calm_click_attempts t locs n : forall last_exc,
  emits calm (click_attempts n locs last_exc t).
Proof.
  pose proof (calm_click_pass t locs).
  induction n as [|n IH]; intros last_exc; cbn [click_attempts]; still_tac.
Qed.

Lemma calm_click_with_retry locs n t : emits calm (click_with_retry locs n t).
Proof. pose proof (calm_click_attempts t locs n). unfold click_with_retry. still_tac. Qed.

Lemma calm_post_login_probe : emits calm (@post_login_probe W HW).
Proof. unfold post_login_probe. still_tac. Qed.

Lemma calm_wait_url_contains fuel needle timeout :
  emits calm (_wait_url_contains fuel needle timeout).
Proof.
  unfold _wait_url_contains. apply emits_try_except; [|intros ?; still_tac].
  apply emits_bind; [|intros ?; still_tac]. apply calm_wait_until. still_tac.
Qed.

Lemma calm_visible_or_none loc t : emits calm (_visible_or_none loc t).
Proof. unfold _visible_or_none. still_tac. Qed.

Lemma calm_first_dash_btn locs : emits calm (first_dash_btn locs).
Proof.
  pose proof calm_visible_or_none.
  induction locs as [|loc rest IH]; cbn [first_dash_btn]; still_tac.
Qed.

Lemma calm_dashboard_stage : emits calm (@dashboard_stage W HW).
Proof.
  pose proof calm_first_dash_btn. pose proof calm_click_with_retry.
  unfold dashboard_stage. still_tac.
Qed.

Lemma calm_first_present locs : emits calm (first_present locs).
Proof. induction locs as [|loc rest IH]; cbn [first_present]; still_tac. Qed.

Lemma calm_locate_final deadline fuel : emits calm (locate_final fuel deadline).
Proof.
  pose proof calm_first_present.
  induction fuel as [|fuel IH]; cbn [locate_final]; still_tac.
Qed.

Lemma calm_find_first locs : emits calm (find_first locs).
Proof. induction locs as [|loc rest IH]; cbn [find_first]; still_tac. Qed.

Lemma calm_enabled : emits calm (@_enabled W HW).
Proof. pose proof calm_find_first. unfold _enabled. still_tac. Qed.

Lemma calm_screenshot : emits calm (_screenshot cfg).
Proof. unfold _screenshot. still_tac. Qed.

Lemma calm_wait_enabled fuel : emits calm (wait_enabled cfg fuel).
Proof.
  pose proof calm_screenshot.
  unfold wait_enabled. apply emits_try_except; [|intros ?; still_tac].
  apply calm_wait_until. pose proof calm_enabled. still_tac.
Qed.

Lemma calm_dump n : emits calm (_dump_small_html n).
Proof. unfold _dump_small_html. still_tac. Qed.

Lemma calm_reach_enabled_final fuel : emits calm (reach_enabled_final cfg fuel).
Proof.
  pose proof calm_dashboard_stage. pose proof calm_wait_url_contains.
  pose proof calm_locate_final. pose proof calm_wait_enabled.
  pose proof calm_dump. pose proof calm_screenshot.
  unfold reach_enabled_final, find_final_button, final_button_missing. still_tac.
Qed.

Lemma calm_robust_click fuel el timeout : emits calm (robust_click fuel el timeout).
Proof.
  pose proof (fun e l => calm_robust_click_loop el e fuel l).
  unfold robust_click. still_tac.
Qed.

Lemma calm_click_final fuel b : emits calm (click_final cfg fuel b).
Proof.
  pose proof calm_find_first. pose proof calm_robust_click. pose proof calm_screenshot.
  unfold click_final, fallback_click. still_tac.
Qed.

Lemma calm_confirmation : emits calm (@confirmation W HW).
Proof. unfold confirmation. still_tac. Qed.

Lemma calm_registrar_ponto fuel : emits calm (_registrar_ponto cfg fuel).
Proof.
  pose proof calm_reach_enabled_final. pose proof calm_click_final.
  pose proof calm_confirmation.
  unfold _registrar_ponto. still_tac.
Qed.

(** *** The one page load of [_login] *)
Lemma calm_no_load t : Forall calm t -> omap page_load_of t = [].
Proof.
  induction 1 as [|e t He _ IH]; [reflexivity|]. cbn [omap list_omap].
  destruct e as [A c r|d]; [|exact IH].
  destruct c; try exact IH. discriminate He.
Qed.

Lemma login_loads fuel email senha w r w' t :
  _login cfg env fuel email senha w = (r, w', t) ->
  omap page_load_of t = []
  \/ omap page_load_of t = option_list (environ_get_or env "RHID_LOGIN_URL" "RHID_URL").
Proof.
  unfold _login.
  destruct (environ_get_or env "RHID_LOGIN_URL" "RHID_URL") as [url|];
    [|intros [= <- <- <-]; now left].
  destruct (py_not url); [intros [= <- <- <-]; now left|].
  unfold bind at 1. unfold call at 1.
  destruct (drv unit (driver_get url) w) as [[e|[]] w1].
  - intros [= <- <- <-]. now right.
  - match goal with
    | |- context [match ?m w1 with _ => _ end] => destruct (m w1) as [[r2 w2] t2] eqn:Ek
    end.
    assert (Hc : Forall calm t2).
    { revert Ek.
      pose proof calm_wait_dom_ready. pose proof calm_maybe_already_logged.
      pose proof calm_find_first_visible. pose proof calm_type_with_retry.
      pose proof calm_click_with_retry.
      match goal with |- ?m w1 = _ -> _ => cut (emits calm m); [intros Hm; apply Hm|] end.
      unfold find_first_visible.
      repeat first
        [ apply calm_wait_until; [apply calm_post_login_probe]
        | still_step ]. }
    intros [= <- <- <-]. right. cbn [app omap list_omap page_load_of option_list].
    rewrite (calm_no_load t2 Hc). reflexivity.
Qed.

(** *** The run *)
Lemma quiet_no_load t : Forall loads_nothing t -> page_loads t = [].
Proof.
  unfold page_loads. induction 1 as [|e t He _ IH]; [reflexivity|].
  cbn [omap list_omap]. destruct e as [d|A c r]; [|exact IH].
  cbn [loads_nothing] in He. destruct d as [A c r|d]; [|exact IH].
  destruct c; try exact IH. discriminate He.
Qed.

Lemma page_loads_app t1 t2 : page_loads (t1 ++ t2) = page_loads t1 ++ page_loads t2.
Proof. unfold page_loads. apply omap_app. Qed.

Lemma page_loads_low t : page_loads (map Low t) = omap page_load_of t.
Proof.
  unfold page_loads. induction t as [|e t IH]; [reflexivity|].
  cbn [map omap list_omap]. rewrite IH. reflexivity.
Qed.

Lemma emits_lift_calm {A} (m : M W devent A) :
  emits calm m -> emits loads_nothing (lift m).
Proof.
  intros Hm w r w' t. unfold lift. destruct (m w) as [[r1 w1] t1] eqn:Em.
  intros [= <- <- <-]. specialize (Hm _ _ _ _ Em).
  clear Em. induction Hm as [|e t He _ IH]; cbn [map]; constructor; [exact He|exact IH].
Qed.

Lemma emits_syscall {A} (P : event -> Prop) (c : scall A) :
  (forall r, P (SCall c r)) -> emits P (syscall c).
Proof.
  intros Hc w r w' t. unfold syscall.
  destruct (sys A c w) as [[e|a] w1]; intros [= <- <- <-]; repeat constructor; apply Hc.
Qed.

Lemma emits_try_finally {E A} (P : E -> Prop) (m : M W E A) f :
  emits P m -> emits P f -> emits P (try_finally m f).
Proof.
  intros Hm Hf w r w' t. unfold try_finally.
  destruct (m w) as [[r1 w1] t1] eqn:Em. specialize (Hm _ _ _ _ Em).
  destruct (f w1) as [[r2 w2] t2] eqn:Ef. specialize (Hf _ _ _ _ Ef).
  destruct r1 as [a|e|]; destruct r2 as [u|e2|]; intros [= <- <- <-];
    try assumption; apply Forall_app; auto.
Qed.

Ltac hush_step :=
  match goal with
  | |- emits loads_nothing (bind _ _) => apply emits_bind; [|intros ?]
  | |- emits loads_nothing (try_except _ _) => apply emits_try_except; [|intros ?]
  | |- emits loads_nothing (syscall _) => apply emits_syscall; intros ?; exact I
  | |- emits loads_nothing (lift _) => apply emits_lift_calm
  | |- emits loads_nothing utcnow => apply emits_utcnow
  | |- emits loads_nothing _now_human => apply emits_now_human
  | |- emits loads_nothing (ret _) => apply emits_ret
  | |- emits loads_nothing (raise _) => apply emits_raise
  | |- emits loads_nothing (if _ then _ else _) => apply emits_if
  | |- emits loads_nothing (match ?x with _ => _ end) => destruct x
  | |- emits calm _ => still_step
  | |- emits loads_nothing _ => solve [auto]
  end.
Ltac hush_tac := repeat hush_step.

Lemma hush_cleanup paths : emits loads_nothing (_cleanup_tmp_list paths).
Proof. induction paths as [|d rest IH]; cbn [_cleanup_tmp_list]; hush_tac. Qed.

Lemma hush_alloc_dirs : emits loads_nothing (alloc_dirs cfg).
Proof. unfold alloc_dirs, _mktemp_under_base. hush_tac. Qed.

Lemma hush_launch dirs : emits loads_nothing (launch cfg dirs).
Proof. unfold launch, _make_chrome_options. destruct dirs as [[? ?] ?]. hush_tac. Qed.

Lemma hush_build_attempts attempts : forall dirs last_err,
  emits loads_nothing (build_attempts cfg attempts dirs last_err).
Proof.
  pose proof hush_launch. pose proof hush_cleanup. pose proof hush_alloc_dirs.
  induction attempts as [|a rest IH]; intros dirs last_err; cbn [build_attempts];
    unfold raise_last; hush_tac.
Qed.

Lemma hush_build_driver : emits loads_nothing (_build_driver cfg).
Proof.
  pose proof hush_alloc_dirs. pose proof hush_build_attempts.
  unfold _build_driver. hush_tac.
Qed.

Lemma hush_teardown d : emits loads_nothing (teardown d).
Proof. pose proof hush_cleanup. unfold teardown. hush_tac. Qed.

Lemma loads_only_bind_r {A B} target (m : M W event A) (k : A -> M W event B) :
  loads_only target m -> (forall a, emits loads_nothing (k a)) ->
  loads_only target (bind m k).
Proof.
  intros Hm Hk w r w' t. unfold bind.
  destruct (m w) as [[[a|e|] w1] t1] eqn:Em; specialize (Hm _ _ _ _ Em).
  - destruct (k a w1) as [[r2 w2] t2] eqn:Ek. specialize (Hk _ _ _ _ _ Ek).
    intros [= <- <- <-]. rewrite page_loads_app, (quiet_no_load _ Hk), app_nil_r.
    exact Hm.
  - intros [= <- <- <-]. exact Hm.
  - intros [= <- <- <-]. exact Hm.
Qed.

Lemma loads_only_bind_l {A B} target (m : M W event A) (k : A -> M W event B) :
  emits loads_nothing m -> (forall a, loads_only target (k a)) ->
  loads_only target (bind m k).
Proof.
  intros Hm Hk w r w' t. unfold bind.
  destruct (m w) as [[[a|e|] w1] t1] eqn:Em; specialize (Hm _ _ _ _ Em).
  - destruct (k a w1) as [[r2 w2] t2] eqn:Ek. specialize (Hk _ _ _ _ _ Ek).
    intros [= <- <- <-]. rewrite page_loads_app, (quiet_no_load _ Hm). exact Hk.
  - intros [= <- <- <-]. left. apply quiet_no_load. exact Hm.
  - intros [= <- <- <-]. left. apply quiet_no_load. exact Hm.
Qed.

Lemma loads_only_try_except {A} target (m : M W event A) h :
  loads_only target m -> (forall e, emits loads_nothing (h e)) ->
  loads_only target (try_except m h).
Proof.
  intros Hm Hh w r w' t. unfold try_except.
  destruct (m w) as [[[a|e|] w1] t1] eqn:Em; specialize (Hm _ _ _ _ Em).
  - intros [= <- <- <-]. exact Hm.
  - destruct (h e w1) as [[r2 w2] t2] eqn:Eh. specialize (Hh _ _ _ _ _ Eh).
    intros [= <- <- <-]. rewrite page_loads_app, (quiet_no_load _ Hh), app_nil_r.
    exact Hm.
  - intros [= <- <- <-]. exact Hm.
Qed.

Lemma loads_only_try_finally {A} target (m : M W event A) f :
  loads_only target m -> emits loads_nothing f -> loads_only target (try_finally m f).
Proof.
  intros Hm Hf w r w' t. unfold try_finally.
  destruct (m w) as [[r1 w1] t1] eqn:Em. specialize (Hm _ _ _ _ Em).
  destruct (f w1) as [[r2 w2] t2] eqn:Ef. specialize (Hf _ _ _ _ Ef).
  destruct r1 as [a|e|]; destruct r2 as [u|e2|]; intros [= <- <- <-];
    try exact Hm; rewrite page_loads_app, (quiet_no_load _ Hf), app_nil_r; exact Hm.
Qed.

Lemma loads_only_punch_body fuel trigger started :
  loads_only (environ_get_or env "RHID_LOGIN_URL" "RHID_URL")
    (punch_body cfg env fuel trigger started).
Proof.
  unfold punch_body. destruct (_ || _).
  - intros w r w' t [= <- <- <-]. now left.
  - apply loads_only_bind_r.
    + intros w r w' t. unfold lift.
      destruct (_login cfg env fuel _ _ w) as [[r1 w1] t1] eqn:El.
      intros [= <- <- <-]. rewrite page_loads_low. eapply login_loads. eassumption.
    + intros _. pose proof calm_registrar_ponto. hush_tac.
Qed.

Lemma loads_only_run fuel trigger :
  loads_only (environ_get_or env "RHID_LOGIN_URL" "RHID_URL")
    (run_rhid_punch cfg env fuel trigger).
Proof.
  unfold run_rhid_punch.
  apply loads_only_bind_l; [apply emits_utcnow|intros started].
  apply loads_only_bind_l.
  - pose proof hush_build_driver. hush_tac.
  - intros d. apply loads_only_try_finally; [|apply hush_teardown].
    apply loads_only_try_except; [apply loads_only_punch_body|]. intros e. hush_tac.
Qed.

End Loads.

(** X20.  During a run the browser is sent to at most one address, by one
    [driver.get]: the value of RHID_LOGIN_URL, or that of RHID_URL when the
    former is missing or empty.  Everything else, up to the final click, is
    done on the page the browser is on. *)
Theorem run_loads_login_page_only {W : Type} {HW : Host W} (cfg : config) (env : environ)
    (fuel : nat) (trigger : option pystr) (w : W) r w' t :
  run_rhid_punch cfg env fuel trigger w = (r, w', t) ->
  page_loads t = []
  \/ exists url, page_loads t = [url]
       /\ (env !! "RHID_LOGIN_URL"%string = Some url
           \/ (unset env "RHID_LOGIN_URL" /\ env !! "RHID_URL"%string = Some url)).
Proof.
  intros H. apply loads_only_run in H as [H|H]; [now left|].
  unfold environ_get_or in H.
  destruct (env !! "RHID_LOGIN_URL"%string) as [v|] eqn:E1.
  - destruct (py_not v) eqn:Ev.
    + destruct (env !! "RHID_URL"%string) as [u|] eqn:E2; [|now left].
      right. exists u. split; [exact H|]. right. split; [|reflexivity].
      right. destruct v; [exact E1|discriminate Ev].
    + right. exists v. split; [exact H|]. now left.
  - destruct (env !! "RHID_URL"%string) as [u|] eqn:E2; [|now left].
    right. exists u. split; [exact H|]. right. split; [now left|reflexivity].
Qed.

Lemma run_loads_login_page_only_witness :
  page_loads (snd (@run_rhid_punch sim (sim_host healthy) (cfg0 true) env0 240
                     (Some (utf8 "button")) sim0))
  = [utf8 "https://rhid.example/#/login"].
Proof.
  assert (Hn : page_loads (snd (@run_rhid_punch sim (sim_host healthy) (cfg0 true) env0 240
                 (Some (utf8 "button")) sim0)) <> []).
  { vm_compute. discriminate. }
  destruct (@run_rhid_punch sim (sim_host healthy) (cfg0 true) env0 240
              (Some (utf8 "button")) sim0) as [[r w1] t1] eqn:E.
  cbn [snd] in *.
  destruct (@run_loads_login_page_only sim (sim_host healthy) (cfg0 true) env0 240
              (Some (utf8 "button")) sim0 r w1 t1 E) as [H|(url & -> & Hu)];
    [contradiction|].
  destruct Hu as [Hu|[_ Hu]]; vm_compute in Hu; [discriminate Hu|].
  injection Hu as <-. vm_compute. reflexivity.
Defined.

End AutomatorFacts.
(* ===================================================================== *)
(** * The Discord front end: theorems                                      *)
(* ===================================================================== *)

Module BotFacts.
Import Bot PyFacts.

Section Gate.
Variable W : Z.

Lemma punch_gate_rejects rc u last now :
  rc !! u = Some last -> (now - last < inject_Z W)%Q ->
  punch_gate W rc u now = (rc, Rejected (Qfloor (inject_Z W - (now - last)))).
Proof.
  intros Hl Hlt. unfold punch_gate. rewrite Hl. simpl.
  pose proof (proj2 (Qltb_true _ _) Hlt) as ->.
  rewrite py_int_floor; [reflexivity|].
  apply Qlt_le_weak.
  apply (proj1 (Qlt_minus_iff (now - last) (inject_Z W))). exact Hlt.
Qed.

Lemma punch_gate_accepts rc u last now :
  rc !! u = Some last -> (inject_Z W <= now - last)%Q ->
  punch_gate W rc u now = (<[u := now]> rc, Accepted).
Proof.
  intros Hl Hle. unfold punch_gate. rewrite Hl. simpl.
  pose proof (proj2 (Qltb_false _ _) Hle) as ->. reflexivity.
Qed.

Lemma punch_gate_recent rc u now :
  fst (punch_gate W rc u now) =
  match snd (punch_gate W rc u now) with
  | Accepted => <[u := now]> rc
  | Rejected _ => rc
  end.
Proof. unfold punch_gate. destruct (Qltb _ _); reflexivity. Qed.

Lemma recent_acquire i tr s : recent (acquire i tr s) = recent s.
Proof. unfold acquire. destruct (_ && _); reflexivity. Qed.

Lemma recent_step_other s e :
  accepted_now W s e = [] -> recent (step W s e) = recent s.
Proof.
  destruct e as [[|] u now|i|i r]; simpl.
  - pose proof (punch_gate_recent (recent s) u now) as Hg.
    destruct (punch_gate W (recent s) u now) as [rc [n|]]; simpl in *; [|discriminate].
    intros _. exact Hg.
  - reflexivity.
  - intros _. destruct (tasks s !! i) as [t|]; [|reflexivity].
    destruct (phase_of t) as [|[|]| |]; try reflexivity.
    apply recent_acquire.
  - intros _. destruct (tasks s !! i) as [[k v [|b|tr|r']]|]; reflexivity.
Qed.

Lemma recent_step_accept s u now :
  snd (punch_gate W (recent s) u now) = Accepted ->
  recent (step W s (Arrive Button u now)) = <[u := now]> (recent s).
Proof.
  simpl. pose proof (punch_gate_recent (recent s) u now) as Hg.
  destruct (punch_gate W (recent s) u now) as [rc [n|]]; simpl in *; [discriminate|].
  intros _. exact Hg.
Qed.

Lemma last_accepted_app u l1 l2 :
  last_accepted u (l1 ++ l2) =
  match last_accepted u l2 with
  | Some t => Some t
  | None => last_accepted u l1
  end.
Proof.
  induction l1 as [|[v t] l1 IH]; simpl.
  - destruct (last_accepted u l2); reflexivity.
  - rewrite IH. destruct (last_accepted u l2); reflexivity.
Qed.

Lemma recent_step s e u :
  recent (step W s e) !! u =
  match last_accepted u (accepted_now W s e) with
  | Some t => Some t
  | None => recent s !! u
  end.
Proof.
  destruct (accepted_now W s e) as [|[v t] l] eqn:E.
  - simpl. rewrite recent_step_other; auto.
  - destruct e as [[|] v' now|i|i r]; simpl in E; try discriminate.
    destruct (snd (punch_gate W (recent s) v' now)) eqn:G; [discriminate|].
    inversion E; subst. rewrite recent_step_accept by assumption. simpl.
    case_bool_decide; subst.
    + apply lookup_insert_eq.
    + apply lookup_insert_ne. assumption.
Qed.

Lemma recent_run evs : forall s u,
  recent (run W s evs) !! u =
  match last_accepted u (accepted_presses W s evs) with
  | Some t => Some t
  | None => recent s !! u
  end.
Proof.
  induction evs as [|e evs IH]; intros s u; simpl.
  - reflexivity.
  - unfold run in *. simpl. rewrite IH. rewrite last_accepted_app.
    destruct (last_accepted u (accepted_presses W (step W s e) evs)); [reflexivity|].
    apply recent_step.
Qed.


Lemma quiet_history u evs : forall s,
  forallb (not_press_of u) evs = true ->
  last_accepted u (accepted_presses W s evs) = None.
Proof.
  induction evs as [|e evs IH]; intros s H; simpl in *; [reflexivity|].
  apply andb_true_iff in H as [He H].
  rewrite last_accepted_app, IH by assumption.
  destruct e as [[|] v now|i|i r]; simpl in *; try reflexivity.
  destruct (snd (punch_gate W (recent s) v now)); simpl; [reflexivity|].
  apply negb_true_iff in He. rewrite He. reflexivity.
Qed.

(** ** The lock *)
Lemma lookup_set_phase i p ts j :
  phase_of <$> set_phase i p ts !! j =
  if bool_decide (i = j) then (fun _ => p) <$> ts !! j else phase_of <$> ts !! j.
Proof.
  unfold set_phase. case_bool_decide as E.
  - subst. rewrite list_lookup_alter_eq. destruct (ts !! j); reflexivity.
  - rewrite list_lookup_alter_ne by assumption. reflexivity.
Qed.

Lemma lookup_wake ws ts k :
  phase_of <$> wake_up_first ws ts !! k =
  match phase_of <$> ts !! k with
  | Some (WaitingLock b) => Some (WaitingLock (b || bool_decide (head ws = Some k)))
  | o => o
  end.
Proof.
  unfold wake_up_first. destruct ws as [|j ws]; simpl.
  - destruct (ts !! k) as [[? ? [|[|]| |]]|]; reflexivity.
  - destruct (ts !! j) as [[kj uj pj]|] eqn:Ej.
    + destruct pj as [|b| |];
        try (case_bool_decide as E; [inversion E; subst; rewrite Ej; reflexivity|];
             destruct (ts !! k) as [[? ? [|[|]| |]]|]; reflexivity).
      rewrite lookup_set_phase. case_bool_decide as E1.
      * subst. rewrite Ej. simpl. rewrite bool_decide_eq_true_2 by reflexivity.
        rewrite orb_true_r. reflexivity.
      * rewrite bool_decide_eq_false_2 by congruence.
        destruct (ts !! k) as [[? ? [|[|]| |]]|]; reflexivity.
    + case_bool_decide as E; [inversion E; subst; rewrite Ej; reflexivity|].
      destruct (ts !! k) as [[? ? [|[|]| |]]|]; reflexivity.
Qed.

Lemma inv_init : inv init.
Proof.
  split; unfold phase_at; simpl; intros; try discriminate.
  - inversion H.
  - constructor.
Qed.

Lemma phase_at_new k u p s rc i :
  phase_at (new_task k u p s rc) i =
  if bool_decide (i = length (tasks s)) then Some p else phase_at s i.
Proof.
  unfold phase_at, new_task. simpl. case_bool_decide as E.
  - subst. rewrite lookup_app_r by lia. rewrite Nat.sub_diag. reflexivity.
  - destruct (decide (i < length (tasks s))%nat).
    + rewrite lookup_app_l by assumption. reflexivity.
    + rewrite (lookup_ge_None_2 (tasks s ++ _)) by (rewrite length_app; simpl; lia).
      rewrite (lookup_ge_None_2 (tasks s)) by lia. reflexivity.
Qed.

Lemma phase_at_Some_lt s i p : phase_at s i = Some p -> (i < length (tasks s))%nat.
Proof.
  unfold phase_at. intros H. destruct (tasks s !! i) eqn:E; [|discriminate].
  eapply lookup_lt_Some; eauto.
Qed.

Lemma inv_new_task k u p s rc :
  (forall tr, p <> Running tr) -> (forall b, p <> WaitingLock b) ->
  inv s -> inv (new_task k u p s rc).
Proof.
  intros Hr Hw [H1 H2 H3 H4 H5].
  split; intros *; rewrite ?phase_at_new.
  - case_bool_decide; [intros [= E]; exfalso; eapply Hr; eauto|]. apply H1.
  - case_bool_decide; [intros [= E]; exfalso; eapply Hr; eauto|].
    intros Hi. case_bool_decide; [intros [= E]; exfalso; eapply Hr; eauto|].
    eauto.
  - case_bool_decide; [intros [= E]; exfalso; eapply Hw; eauto|]. apply H3.
  - intros Hj. destruct (H4 _ Hj) as [b Hb]. exists b.
    rewrite bool_decide_eq_false_2; [assumption|].
    apply phase_at_Some_lt in Hb. lia.
  - assumption.
Qed.

Lemma phase_at_set_phase s i p j rc l :
  phase_at {| recent := rc; automation_lock := l; tasks := set_phase i p (tasks s) |} j =
  if bool_decide (i = j) then (fun _ => p) <$> phase_at s j else phase_at s j.
Proof.
  unfold phase_at. simpl. rewrite lookup_set_phase.
  case_bool_decide; [|reflexivity]. destruct (tasks s !! j); reflexivity.
Qed.

Lemma head_app_l (l : list nat) x y : head l = Some x -> head (l ++ [y]) = Some x.
Proof. destruct l; simpl; [discriminate|auto]. Qed.

Lemma inv_acquire i tr s :
  inv s -> phase_at s i = Some Deferring -> inv (acquire i tr s).
Proof.
  intros [H1 H2 H3 H4 H5] Hi. unfold acquire.
  destruct (negb _ && _) eqn:Efast.
  - apply andb_true_iff in Efast as [El Ew].
    apply negb_true_iff in El. apply bool_decide_eq_true in Ew.
    split; intros *; rewrite ?phase_at_set_phase; cbn [_locked _waiters automation_lock].
    + reflexivity.
    + case_bool_decide as E1; case_bool_decide as E2; subst; try congruence.
      * intros _ Hj. apply H1 in Hj. congruence.
      * intros Hj _. apply H1 in Hj. congruence.
      * intros Hj _. apply H1 in Hj. congruence.
    + case_bool_decide as E1; [subst; rewrite Hi; discriminate|].
      intros Hj. apply H3 in Hj as [_ Hj]. rewrite Ew in Hj. discriminate.
    + rewrite Ew. intros Hj. inversion Hj.
    + assumption.
  - clear Efast.
    assert (Hni : i ∉ _waiters (automation_lock s)).
    { intros Hin. destruct (H4 _ Hin) as [b Hb]. congruence. }
    split; intros *; rewrite ?phase_at_set_phase; cbn [_locked _waiters automation_lock].
    + case_bool_decide as E1; [subst; rewrite Hi; discriminate|]. apply H1.
    + case_bool_decide as E1; [subst; rewrite Hi; discriminate|].
      intros Hr. case_bool_decide as E2; [subst; rewrite Hi; discriminate|].
      eauto.
    + case_bool_decide as E1; [subst; rewrite Hi; discriminate|].
      intros Hj. apply H3 in Hj as [Hl Hj]. split; [assumption|].
      apply head_app_l; assumption.
    + intros Hj. apply elem_of_app in Hj as [Hj|Hj].
      * destruct (H4 _ Hj) as [b Hb]. exists b.
        rewrite bool_decide_eq_false_2; [assumption|]. congruence.
      * apply list_elem_of_singleton in Hj. subst. exists false.
        rewrite bool_decide_eq_true_2 by reflexivity. rewrite Hi. reflexivity.
    + apply NoDup_app. split; [assumption|]. split.
      * intros x Hx Hx'. apply list_elem_of_singleton in Hx'. subst. auto.
      * apply NoDup_singleton.
Qed.

Lemma deque_remove_head i q : deque_remove i (i :: q) = q.
Proof. simpl. rewrite bool_decide_eq_true_2; reflexivity. Qed.

Lemma inv_acquire_woken i tr s :
  inv s -> phase_at s i = Some (WaitingLock true) -> inv (acquire_woken i tr s).
Proof.
  intros [H1 H2 H3 H4 H5] Hi. unfold acquire_woken.
  destruct (H3 _ Hi) as [Hl Hh].
  destruct (_waiters (automation_lock s)) as [|i' q] eqn:Ew; [discriminate|].
  simpl in Hh. inversion Hh; subst i'. rewrite deque_remove_head.
  apply NoDup_cons in H5 as [Hni Hq].
  split; intros *; rewrite ?phase_at_set_phase; cbn [_locked _waiters automation_lock].
  - reflexivity.
  - case_bool_decide as E1; case_bool_decide as E2; subst; try congruence.
    + intros _ Hj. apply H1 in Hj. congruence.
    + intros Hj _. apply H1 in Hj. congruence.
    + intros Hj _. apply H1 in Hj. congruence.
  - case_bool_decide as E1; [subst; rewrite Hi; discriminate|].
    intros Hj. apply H3 in Hj as [_ Hj]. simpl in Hj. congruence.
  - intros Hj. destruct (H4 j) as [b Hb]; [right; assumption|]. exists b.
    rewrite bool_decide_eq_false_2; [assumption|]. intros ->. auto.
  - assumption.
Qed.

Lemma phase_at_release s i r k :
  phase_at (release_and_reply i r s) k =
  match (if bool_decide (i = k) then (fun _ => Finished r) <$> phase_at s k else phase_at s k) with
  | Some (WaitingLock b) =>
    Some (WaitingLock (b || bool_decide (head (_waiters (automation_lock s)) = Some k)))
  | o => o
  end.
Proof.
  unfold release_and_reply, phase_at at 1. simpl. rewrite lookup_wake.
  rewrite lookup_set_phase. unfold phase_at.
  case_bool_decide; [|reflexivity]. destruct (tasks s !! k); reflexivity.
Qed.

Lemma inv_release i tr r s :
  inv s -> phase_at s i = Some (Running tr) -> inv (release_and_reply i r s).
Proof.
  intros [H1 H2 H3 H4 H5] Hi.
  assert (Hnorun : forall k tr', phase_at (release_and_reply i r s) k <> Some (Running tr')).
  { intros k tr'. rewrite phase_at_release. case_bool_decide as E.
    - subst. rewrite Hi. discriminate.
    - destruct (phase_at s k) as [[|b|tr''|r']|] eqn:Ek; try discriminate.
      exfalso. apply E. eapply H2; eauto. }
  split; intros *.
  - intros Hk. exfalso. eapply Hnorun; eauto.
  - intros Hk. exfalso. eapply Hnorun; eauto.
  - rewrite phase_at_release. simpl. case_bool_decide as E.
    + subst. rewrite Hi. discriminate.
    + destruct (phase_at s i0) as [[|b|tr''|r']|] eqn:Ek; try discriminate.
      destruct b.
      * apply H3 in Ek as [Hl _]. apply H1 in Hi. congruence.
      * simpl. case_bool_decide as Eh; [|discriminate]. auto.
  - simpl. intros Hj. destruct (H4 _ Hj) as [b Hb].
    rewrite phase_at_release. rewrite bool_decide_eq_false_2 by congruence.
    rewrite Hb. eauto.
  - assumption.
Qed.

Lemma inv_step s e : inv s -> inv (step W s e).
Proof.
  intros Hs. destruct e as [[|] u now|i|i r]; simpl.
  - destruct (punch_gate W (recent s) u now) as [rc [n|]];
      apply inv_new_task; auto; discriminate.
  - apply inv_new_task; auto; discriminate.
  - destruct (tasks s !! i) as [t|] eqn:Et; [|assumption].
    destruct (phase_of t) as [|[|]|tr|r] eqn:Ep; try assumption.
    + apply inv_acquire; [assumption|]. unfold phase_at. rewrite Et. simpl. congruence.
    + apply inv_acquire_woken; [assumption|]. unfold phase_at. rewrite Et. simpl. congruence.
  - destruct (tasks s !! i) as [[k v p]|] eqn:Et; [|assumption].
    destruct p as [|b|tr|r']; try assumption.
    eapply inv_release; [assumption|]. unfold phase_at. rewrite Et. reflexivity.
Qed.

Lemma inv_run evs : forall s, inv s -> inv (run W s evs).
Proof.
  induction evs as [|e evs IH]; intros s Hs; [assumption|].
  apply IH. apply inv_step. assumption.
Qed.


Lemma phase_at_acquire i tr s k :
  phase_at (acquire i tr s) k =
  if bool_decide (i = k) then
    (fun _ => if negb (_locked (automation_lock s))
                 && bool_decide (_waiters (automation_lock s) = [])
              then Running tr else WaitingLock false) <$> phase_at s k
  else phase_at s k.
Proof.
  unfold acquire. destruct (negb _ && _); apply phase_at_set_phase.
Qed.


(** ** The trigger tag of a run *)
Lemma lookup_set_phase_task i p (ts : list task) j t :
  set_phase i p ts !! j = Some t ->
  exists t0, ts !! j = Some t0 /\ source_of t = source_of t0
             /\ (phase_of t = phase_of t0 \/ (i = j /\ phase_of t = p)).
Proof.
  unfold set_phase. destruct (decide (i = j)) as [->|Hne].
  - rewrite list_lookup_alter_eq. destruct (ts !! j) as [t0|]; [|discriminate].
    simpl. intros [= <-]. exists t0. simpl. auto.
  - rewrite list_lookup_alter_ne by assumption. intros H. exists t. auto.
Qed.

Lemma lookup_wake_task ws (ts : list task) j t :
  wake_up_first ws ts !! j = Some t ->
  exists t0, ts !! j = Some t0 /\ source_of t = source_of t0
             /\ (phase_of t = phase_of t0 \/ phase_of t = WaitingLock true).
Proof.
  unfold wake_up_first. destruct ws as [|k ws]; [eauto|].
  destruct (ts !! k) as [[ks us [|b|tr|r]]|]; eauto.
  intros H. apply lookup_set_phase_task in H as (t0 & H0 & Hs & [Hp|[_ Hp]]); eauto.
Qed.

Lemma tagged_step s e : tagged s -> tagged (step W s e).
Proof.
  intros Hs. destruct e as [k u now|i|i r]; simpl.
  - assert (Hn : forall p rc, (forall tr, p <> Running tr) -> tagged (new_task k u p s rc)).
    { intros p rc Hp j t tr. unfold new_task. simpl. intros Hj Hr.
      apply lookup_app_Some in Hj as [Hj|[_ Hj]]; [eauto|].
      destruct (j - length (tasks s))%nat; [|discriminate].
      simpl in Hj. injection Hj as <-. simpl in Hr. subst p. exfalso. eapply Hp; eauto. }
    destruct k; [destruct (punch_gate W (recent s) u now) as [rc [n|]]|];
      apply Hn; discriminate.
  - destruct (tasks s !! i) as [t|] eqn:Et; [|assumption].
    destruct (phase_of t) as [|[|]|tr|r] eqn:Ep; try assumption.
    + intros j t' tr. unfold acquire. destruct (negb _ && _); simpl; intros Hj Hr;
        apply lookup_set_phase_task in Hj as (t0 & H0 & Hsrc & [Hp|[-> Hp]]);
        rewrite Hsrc; try (eapply Hs; [eassumption|congruence]); try congruence.
    + intros j t' tr. unfold acquire_woken. simpl. intros Hj Hr.
      apply lookup_set_phase_task in Hj as (t0 & H0 & Hsrc & [Hp|[-> Hp]]);
        rewrite Hsrc; try (eapply Hs; [eassumption|congruence]); congruence.
  - destruct (tasks s !! i) as [[k v p]|] eqn:Et; [|assumption].
    destruct p as [|b|tr|r']; try assumption.
    intros j t' tr'. unfold release_and_reply. simpl. intros Hj Hr.
    apply lookup_wake_task in Hj as (t1 & Hj & Hsrc1 & Hp1).
    apply lookup_set_phase_task in Hj as (t0 & H0 & Hsrc & Hp0).
    rewrite Hsrc1, Hsrc. eapply Hs; [eassumption|].
    destruct Hp1 as [Hp1|Hp1]; [|congruence].
    destruct Hp0 as [Hp0|[_ Hp0]]; congruence.
Qed.

Lemma tagged_run evs : forall s, tagged s -> tagged (run W s evs).
Proof.
  induction evs as [|e evs IH]; intros s Hs; [assumption|].
  apply IH, tagged_step, Hs.
Qed.

End Gate.

(** ** C3: the throttle window *)

(** C3.  After any history of the bot, if the last button press of user
    [u] that the gate accepted was at time [last], then a press of [u] at
    [now] with [now - last < RATE_LIMIT_SECONDS] is answered with "Aguarde
    Ns para tentar novamente." where N is the remaining window
    [RATE_LIMIT_SECONDS - (now - last)] rounded down, and leaves [recent]
    as it was; a press with [now - last >= RATE_LIMIT_SECONDS] is accepted:
    its time is recorded and the handler goes on to defer the answer.
    Times are exact rationals. *)
Theorem punch_throttle_window (W : Z) (evs : list event) (u : Z) (last now : Q) :
  last_accepted u (accepted_presses W init evs) = Some last ->
  let s := run W init evs in
  ((now - last < inject_Z W)%Q ->
     step W s (Arrive Button u now) =
     new_task Button u
       (Finished (SendMessage (wait_text (Qfloor (inject_Z W - (now - last))))))
       s (recent s))
  /\ ((inject_Z W <= now - last)%Q ->
     step W s (Arrive Button u now) =
     new_task Button u Deferring s (<[u := now]> (recent s))).
Proof.
  intros Hlast s.
  assert (Hrc : recent s !! u = Some last).
  { subst s. rewrite recent_run, Hlast. reflexivity. }
  split; intros H; simpl.
  - rewrite (punch_gate_rejects W _ _ _ _ Hrc H). reflexivity.
  - rewrite (punch_gate_accepts W _ _ _ _ Hrc H). reflexivity.
Qed.

Lemma punch_throttle_window_witness :
  step 60 (run 60 init [Arrive Button 7 1000]) (Arrive Button 7 1010) =
  new_task Button 7 (Finished (SendMessage (wait_text 50)))
    (run 60 init [Arrive Button 7 1000]) (recent (run 60 init [Arrive Button 7 1000]))
  /\ step 60 (run 60 init [Arrive Button 7 1000]) (Arrive Button 7 1061) =
     new_task Button 7 Deferring
       (run 60 init [Arrive Button 7 1000])
       (<[7 := 1061%Q]> (recent (run 60 init [Arrive Button 7 1000]))).
Proof.
  split.
  - apply (proj1 (punch_throttle_window 60 [Arrive Button 7 1000] 7 1000 1010 eq_refl)).
    reflexivity.
  - apply (proj2 (punch_throttle_window 60 [Arrive Button 7 1000] 7 1000 1061 eq_refl)).
    discriminate.
Defined.

Example wait_text_50 : wait_text 50 = utf8 "Aguarde 50s para tentar novamente.".
Proof. vm_compute. reflexivity. Qed.

(** ** C10: what the gate writes *)

Lemma punch_gate_window W rc u now :
  (now - default 0%Q (rc !! u) < inject_Z W)%Q ->
  punch_gate W rc u now
  = (rc, Rejected (Qfloor (inject_Z W - (now - default 0%Q (rc !! u))))).
Proof.
  intros Hlt. unfold punch_gate.
  pose proof (proj2 (Qltb_true _ _) Hlt) as ->.
  rewrite py_int_floor; [reflexivity|].
  apply Qlt_le_weak.
  apply (proj1 (Qlt_minus_iff (now - default 0%Q (rc !! u)) (inject_Z W))). exact Hlt.
Qed.

Lemma punch_gate_open W rc u now :
  (inject_Z W <= now - default 0%Q (rc !! u))%Q ->
  punch_gate W rc u now = (<[u := now]> rc, Accepted).
Proof.
  intros Hle. unfold punch_gate.
  pose proof (proj2 (Qltb_false _ _) Hle) as ->. reflexivity.
Qed.

(** C10.  A press of [u] at [now] is judged against the time kept for [u]
    (0 when there is none).  Inside the window it is rejected and [recent]
    stays as it was, so the press is answered with the wait counted from
    the time kept, and any later press is judged as if this one had not
    happened.  Outside the window it is accepted, and in that same step,
    before the handler awaits anything (the lock is untouched and the new
    task has not started its run), [recent[u] = now] is written.  No later
    event other than a press of [u] changes that entry, a run that ends in
    an error included, so a press of [u] within the window after it is
    rejected, with the wait counted from [now]. *)
Theorem throttle_state_updates (W : Z) (s : bot) (u : Z) (now : Q) :
  let last := default 0%Q (recent s !! u) in
  let s' := step W s (Arrive Button u now) in
  ((now - last < inject_Z W)%Q ->
     recent s' = recent s
     /\ tasks s' = tasks s ++ [ {| source_of := Button; user_of := u;
                                   phase_of := Finished (SendMessage
                                     (wait_text (Qfloor (inject_Z W - (now - last))))) |} ]
     /\ (forall v t, punch_gate W (recent s') v t = punch_gate W (recent s) v t))
  /\ ((inject_Z W <= now - last)%Q ->
      recent s' = <[u := now]> (recent s)
      /\ automation_lock s' = automation_lock s
      /\ tasks s' = tasks s ++ [ {| source_of := Button; user_of := u; phase_of := Deferring |} ]
      /\ (forall evs, forallb (not_press_of u) evs = true ->
            recent (run W s' evs) !! u = Some now)
      /\ (forall evs t, forallb (not_press_of u) evs = true ->
            (t - now < inject_Z W)%Q ->
            step W (run W s' evs) (Arrive Button u t) =
            new_task Button u
              (Finished (SendMessage (wait_text (Qfloor (inject_Z W - (t - now))))))
              (run W s' evs) (recent (run W s' evs)))).
Proof.
  intros last s'. split.
  - intros Hlt.
    assert (Hrec : recent s' = recent s).
    { subst s'. cbn [step]. rewrite (punch_gate_window W _ _ _ Hlt). reflexivity. }
    split; [exact Hrec|]. split.
    + subst s'. cbn [step]. rewrite (punch_gate_window W _ _ _ Hlt). reflexivity.
    + intros v t. rewrite Hrec. reflexivity.
  - intros Hle.
    assert (Hstep : s' = new_task Button u Deferring s (<[u := now]> (recent s))).
    { subst s'. cbn [step]. rewrite (punch_gate_open W _ _ _ Hle). reflexivity. }
    assert (Hrec : recent s' = <[u := now]> (recent s)) by (rewrite Hstep; reflexivity).
    assert (Hkeep : forall evs, forallb (not_press_of u) evs = true ->
                              recent (run W s' evs) !! u = Some now).
    { intros evs Hq. rewrite recent_run, quiet_history by assumption.
      rewrite Hrec. apply lookup_insert_eq. }
    split; [exact Hrec|]. split; [rewrite Hstep; reflexivity|].
    split; [rewrite Hstep; reflexivity|]. split; [exact Hkeep|].
    intros evs t Hq Ht. cbn [step].
    rewrite (punch_gate_rejects W _ _ _ _ (Hkeep evs Hq) Ht). reflexivity.
Qed.

Lemma throttle_state_updates_witness :
  let s1 := step 60 init (Arrive Button 7 1000) in
  let s2 := run 60 s1 [Resume 0; RunDone 0 (inl (utf8 "Falha ao registrar ponto: x"))] in
  recent s1 = <[7 := 1000%Q]> (recent init)
  /\ recent s2 !! 7 = Some 1000%Q
  /\ step 60 s2 (Arrive Button 7 1010)
     = new_task Button 7 (Finished (SendMessage (wait_text 50))) s2 (recent s2)
  /\ recent (step 60 s2 (Arrive Button 7 1010)) = recent s2.
Proof.
  cbv zeta.
  destruct (throttle_state_updates 60 init 7 1000) as [_ Hacc].
  destruct Hacc as (Hrec & _ & _ & Hkeep & Hrej); [vm_compute; discriminate|].
  split; [exact Hrec|].
  split; [exact (Hkeep [Resume 0; RunDone 0 (inl (utf8 "Falha ao registrar ponto: x"))]
                   eq_refl)|].
  split.
  - rewrite (Hrej [Resume 0; RunDone 0 (inl (utf8 "Falha ao registrar ponto: x"))] 1010%Q
               eq_refl); [|vm_compute; reflexivity].
    reflexivity.
  - destruct (throttle_state_updates 60
                (run 60 (step 60 init (Arrive Button 7 1000))
                   [Resume 0; RunDone 0 (inl (utf8 "Falha ao registrar ponto: x"))])
                7 1010) as [(Hsame & _) _].
    + rewrite (Hkeep [Resume 0; RunDone 0 (inl (utf8 "Falha ao registrar ponto: x"))]
                 eq_refl).
      vm_compute. reflexivity.
    + exact Hsame.
Defined.

(** ** C4: who is throttled *)

(** C4 (amended).  The throttle is enforced for the button only: a press
    within the window of the user's last recorded press is answered with
    the wait message.  A [/baterponto] command is never rejected and does
    not touch [recent]: its handler defers the answer and, when resumed,
    either takes the lock and starts a run tagged "slash" or queues up for
    the lock. *)
Theorem throttle_button_only (W : Z) (s : bot) (u : Z) (now : Q) :
  (forall last, recent s !! u = Some last -> (now - last < inject_Z W)%Q ->
     step W s (Arrive Button u now) =
     new_task Button u
       (Finished (SendMessage (wait_text (Qfloor (inject_Z W - (now - last))))))
       s (recent s))
  /\ step W s (Arrive Slash u now) = new_task Slash u Deferring s (recent s)
  /\ (let s1 := step W s (Arrive Slash u now) in
      let i := length (tasks s) in
      phase_at (step W s1 (Resume i)) i =
      Some (if negb (_locked (automation_lock s))
               && bool_decide (_waiters (automation_lock s) = [])
            then Running (utf8 "slash") else WaitingLock false)).
Proof.
  split; [|split].
  - intros last Hl Hlt. simpl.
    rewrite (punch_gate_rejects W _ _ _ _ Hl Hlt). reflexivity.
  - reflexivity.
  - cbn zeta. cbn [step].
    assert (Ht : tasks (new_task Slash u Deferring s (recent s)) !! length (tasks s) =
                 Some {| source_of := Slash; user_of := u; phase_of := Deferring |}).
    { unfold new_task. simpl. rewrite lookup_app_r by lia.
      rewrite Nat.sub_diag. reflexivity. }
    rewrite Ht. cbn [phase_of source_of trigger_of].
    rewrite phase_at_acquire. rewrite bool_decide_eq_true_2 by reflexivity.
    unfold phase_at. rewrite Ht. reflexivity.
Qed.

Lemma throttle_button_only_witness :
  step 60 (run 60 init [Arrive Button 7 1000]) (Arrive Button 7 1010) =
  new_task Button 7 (Finished (SendMessage (wait_text 50)))
    (run 60 init [Arrive Button 7 1000]) (recent (run 60 init [Arrive Button 7 1000])).
Proof.
  apply (proj1 (throttle_button_only 60 (run 60 init [Arrive Button 7 1000]) 7 1010) 1000%Q).
  - vm_compute. reflexivity.
  - reflexivity.
Defined.

(** C4 as stated fails for the command: ten seconds after an accepted
    button press of user 7, with a 60 s window, a command of the same user
    starts a run. *)
Lemma slash_command_not_throttled :
  let s := run 60 init
             [Arrive Button 7 1000; Resume 0; RunDone 0 (inl []);
              Arrive Slash 7 1010; Resume 1] in
  phase_at s 1 = Some (Running (utf8 "slash"))
  /\ recent s !! 7 = Some 1000%Q
  /\ (1010 - 1000 < inject_Z 60)%Q.
Proof. vm_compute. auto. Qed.

(** ** C5: one run at a time *)


(** ** C8: the trigger tag *)

(** C8 (amended).  The tag the front end passes is "button" for a button
    press and "slash" for the [/baterponto] command; [run_rhid_punch] uses
    "manual" when no tag is given; and the payload of a run that returns
    carries the tag it was given in its footer, as "Trigger: <tag>". *)
Theorem trigger_tag_in_payload :
  trigger_of Button = utf8 "button"
  /\ trigger_of Slash = utf8 "slash"
  /\ (forall W evs i t tr,
        tasks (run W init evs) !! i = Some t -> phase_of t = Running tr ->
        tr = trigger_of (source_of t))
  /\ (forall (W : Type) (HW : Automator.Host W) cfg env fuel trigger w p w' t,
        Automator.run_rhid_punch cfg env fuel trigger w = (Automator.Ok p, w', t) ->
        exists e, Automator.embeds p = [e]
                  /\ Automator.footer_text e =
                     utf8 "Trigger: " ++ default (utf8 "manual") trigger).
Proof.
  split; [reflexivity|]. split; [reflexivity|]. split.
  - intros W evs. apply tagged_run. intros i t tr H. discriminate.
  - intros W HW cfg env fuel trigger w p w' t H.
    eapply AutomatorFacts.payload_footer. eassumption.
Qed.

(** C8 as stated fails for the command: its run is tagged "slash", not
    "command", and the payload of such a run says "Trigger: slash". *)
Lemma slash_trigger_tag :
  phase_at (run 60 init [Arrive Slash 7 1000; Resume 0]) 0 = Some (Running (utf8 "slash"))
  /\ utf8 "slash" <> utf8 "command"
  /\ (let '(r, _, _) :=
        @Automator.run_rhid_punch Sim.sim (Sim.sim_host Sim.healthy) (Sim.cfg0 true)
          Sim.env0 100 (Some (trigger_of Slash)) Sim.sim0 in
      exists p e, r = Automator.Ok p /\ Automator.embeds p = [e]
                  /\ Automator.footer_text e = utf8 "Trigger: slash").
Proof.
  split; [vm_compute; reflexivity|]. split; [vm_compute; discriminate|].
  vm_compute. eexists _, _. split; [reflexivity|]. split; reflexivity.
Qed.

(** ** Waiting for the lock *)

Lemma source_set_phase i p (ts : list task) j :
  source_of <$> set_phase i p ts !! j = source_of <$> ts !! j.
Proof.
  unfold set_phase. destruct (decide (i = j)) as [->|Hne].
  - rewrite list_lookup_alter_eq. destruct (ts !! j); reflexivity.
  - rewrite list_lookup_alter_ne by assumption. reflexivity.
Qed.

Lemma source_wake ws (ts : list task) j :
  source_of <$> wake_up_first ws ts !! j = source_of <$> ts !! j.
Proof.
  unfold wake_up_first. destruct ws as [|k ws]; [reflexivity|].
  destruct (ts !! k) as [[ks us [|b|tr|r]]|]; try reflexivity.
  apply source_set_phase.
Qed.

(** X7.  When the run of the task that holds the lock ends, the lock is
    released and the first task of the queue is woken; once resumed, that
    task holds the lock and runs with the tag of its own handler, and the
    rest of the queue keeps its order. *)
Theorem lock_handover (W : Z) (s : bot) (i j : nat) (q : list nat) (tr : pystr)
    (result : pystr + Automator.payload) (tj : task) :
  inv s ->
  phase_at s i = Some (Running tr) ->
  _waiters (automation_lock s) = j :: q ->
  tasks s !! j = Some tj ->
  let s1 := step W s (RunDone i result) in
  let s2 := step W s1 (Resume j) in
  phase_at s1 i = Some (Finished (reply_of result))
  /\ phase_at s1 j = Some (WaitingLock true)
  /\ _locked (automation_lock s1) = false
  /\ phase_at s2 j = Some (Running (trigger_of (source_of tj)))
  /\ automation_lock s2 = {| _locked := true; _waiters := q |}.
Proof.
  intros Hinv Hi Hw Hj s1 s2.
  destruct (inv_queue s Hinv j) as [b Hb]; [rewrite Hw; left|].
  assert (Hne : i <> j) by (intros ->; congruence).
  assert (Hs1 : s1 = release_and_reply i (reply_of result) s).
  { unfold s1. simpl. unfold phase_at in Hi.
    destruct (tasks s !! i) as [[k v p]|]; [|discriminate].
    simpl in Hi. injection Hi as ->. reflexivity. }
  assert (H1i : phase_at s1 i = Some (Finished (reply_of result))).
  { rewrite Hs1, phase_at_release, bool_decide_eq_true_2 by reflexivity.
    rewrite Hi. reflexivity. }
  assert (H1j : phase_at s1 j = Some (WaitingLock true)).
  { rewrite Hs1, phase_at_release, bool_decide_eq_false_2 by assumption.
    rewrite Hb, Hw. simpl. rewrite bool_decide_eq_true_2 by reflexivity.
    rewrite orb_true_r. reflexivity. }
  assert (H1w : _waiters (automation_lock s1) = j :: q).
  { rewrite Hs1. simpl. exact Hw. }
  assert (H1s : source_of <$> tasks s1 !! j = Some (source_of tj)).
  { rewrite Hs1. unfold release_and_reply. simpl.
    rewrite source_wake, source_set_phase, Hj. reflexivity. }
  assert (Hs2 : s2 = acquire_woken j (trigger_of (source_of tj)) s1).
  { unfold s2. simpl. unfold phase_at in H1j.
    destruct (tasks s1 !! j) as [[k v p]|]; [|discriminate].
    simpl in H1j, H1s. injection H1j as ->. injection H1s as ->. reflexivity. }
  split; [exact H1i|]. split; [exact H1j|]. split; [rewrite Hs1; reflexivity|].
  split.
  - rewrite Hs2. unfold acquire_woken. rewrite phase_at_set_phase.
    rewrite bool_decide_eq_true_2 by reflexivity. rewrite H1j. reflexivity.
  - rewrite Hs2. unfold acquire_woken. simpl. rewrite H1w, deque_remove_head. reflexivity.
Qed.

Lemma lock_handover_witness :
  let s := run 60 init [Arrive Slash 1 0; Arrive Button 2 100; Resume 0; Resume 1] in
  let s2 := run 60 s [RunDone 0 (inl (utf8 "Timeout")); Resume 1] in
  phase_at s 0 = Some (Running (utf8 "slash"))
  /\ phase_at s 1 = Some (WaitingLock false)
  /\ phase_at s2 1 = Some (Running (utf8 "button"))
  /\ automation_lock s2 = {| _locked := true; _waiters := [] |}.
Proof.
  cbv zeta.
  set (s := run 60 init [Arrive Slash 1 0; Arrive Button 2 100; Resume 0; Resume 1]).
  assert (Hinv : inv s) by (apply inv_run, inv_init).
  assert (H0 : phase_at s 0%nat = Some (Running (utf8 "slash"))) by (vm_compute; reflexivity).
  assert (Hw : _waiters (automation_lock s) = [1%nat]) by (vm_compute; reflexivity).
  assert (Hj : tasks s !! 1%nat
               = Some {| source_of := Button; user_of := 2; phase_of := WaitingLock false |})
    by (vm_compute; reflexivity).
  destruct (lock_handover 60 s 0 1 [] _ (inl (utf8 "Timeout")) _ Hinv H0 Hw Hj)
    as (_ & _ & _ & H2 & H3).
  split; [exact H0|]. split; [vm_compute; reflexivity|]. split; [exact H2|exact H3].
Defined.

(** X8.  A handler that reaches [async with automation_lock] while the
    lock is held is not answered: it joins the end of the queue and waits,
    and [recent] is left as it is. *)
Theorem busy_lock_queues (W : Z) (s : bot) (i : nat) (t : task) :
  tasks s !! i = Some t ->
  phase_of t = Deferring ->
  _locked (automation_lock s) = true ->
  let s' := step W s (Resume i) in
  phase_at s' i = Some (WaitingLock false)
  /\ automation_lock s'
     = {| _locked := true; _waiters := _waiters (automation_lock s) ++ [i] |}
  /\ recent s' = recent s.
Proof.
  intros Hi Hp Hl s'. unfold s'. simpl. rewrite Hi, Hp.
  split; [|split].
  - rewrite phase_at_acquire, bool_decide_eq_true_2 by reflexivity.
    rewrite Hl. unfold phase_at. rewrite Hi. reflexivity.
  - unfold acquire. rewrite Hl. reflexivity.
  - apply recent_acquire.
Qed.

Lemma busy_lock_queues_witness :
  let s := run 60 init [Arrive Slash 1 0; Arrive Button 2 100; Resume 0] in
  phase_at (step 60 s (Resume 1)) 1 = Some (WaitingLock false)
  /\ automation_lock (step 60 s (Resume 1)) = {| _locked := true; _waiters := [1%nat] |}.
Proof.
  cbv zeta.
  set (s := run 60 init [Arrive Slash 1 0; Arrive Button 2 100; Resume 0]).
  destruct (busy_lock_queues 60 s 1
              {| source_of := Button; user_of := 2; phase_of := Deferring |})
    as (H1 & H2 & _); [vm_compute; reflexivity ..|].
  split; [exact H1|]. rewrite H2. vm_compute. reflexivity.
Defined.

(** ** The wait a rejected press is told *)

(** X21.  The number of seconds a rejected press is told to wait lies
    between 0 and RATE_LIMIT_SECONDS, as long as the clock has not gone
    back since the time kept for the user (0 for a user never seen); it is
    0 exactly when less than a second of the window is left. *)
Theorem wait_shown_bounds (W : Z) (rc : gmap Z Q) (u : Z) (now : Q) (n : Z) :
  snd (punch_gate W rc u now) = Rejected n ->
  (default 0%Q (rc !! u) <= now)%Q ->
  0 <= n <= W
  /\ (n = 0 <-> (inject_Z W - 1 < now - default 0%Q (rc !! u))%Q).
Proof.
  unfold punch_gate. set (last := default 0%Q (rc !! u)).
  destruct (Qltb (now - last) (inject_Z W)) eqn:Hlt; [|discriminate].
  cbn [snd]. intros [= <-] Hle.
  apply Qltb_true in Hlt.
  set (r := (inject_Z W - (now - last))%Q).
  assert (Hr0 : (0 < r)%Q) by (unfold r; lra).
  assert (HrW : (r <= inject_Z W)%Q) by (unfold r; lra).
  rewrite py_int_floor by lra.
  assert (H0 : 0 <= Qfloor r).
  { change 0 with (Qfloor 0). apply Qfloor_resp_le. lra. }
  assert (HW : Qfloor r <= W).
  { rewrite <- (Qfloor_Z W). apply Qfloor_resp_le. exact HrW. }
  split; [lia|]. split.
  - intros Hz. pose proof (Qlt_floor r) as Hf. rewrite Hz in Hf.
    change (inject_Z (0 + 1)) with 1%Q in Hf. unfold r in Hf. lra.
  - intros Hlt1. assert (Hr1 : (r < 1)%Q) by (unfold r; lra).
    pose proof (Qfloor_le r) as Hf.
    assert (Hi : (inject_Z (Qfloor r) < inject_Z 1)%Q).
    { change (inject_Z 1) with 1%Q. lra. }
    rewrite <- Zlt_Qlt in Hi. lia.
Qed.

Lemma wait_shown_bounds_witness :
  snd (punch_gate 60 {[ 7 := 1000%Q ]} 7 (2119 # 2)) = Rejected 0.
Proof.
  assert (Hn : exists n, snd (punch_gate 60 {[ 7 := 1000%Q ]} 7 (2119 # 2)) = Rejected n).
  { vm_compute. eexists. reflexivity. }
  destruct Hn as [n Hn]. rewrite Hn. f_equal.
  apply (wait_shown_bounds 60 {[ 7 := 1000%Q ]} 7 (2119 # 2) n Hn).
  - vm_compute. discriminate.
  - vm_compute. reflexivity.
Defined.

End BotFacts.

(* ===================================================================== *)
(** * Rendering a result: theorems                                         *)
(* ===================================================================== *)

Module RenderFacts.
Import Py Automator Sim Render PyFacts AutomatorFacts.

Lemma alias_horario : assoc_get aliases (utf8 "Horário") (utf8 "Horário") = N_HORARIO.
Proof. vm_compute. reflexivity. Qed.
Lemma alias_modo : assoc_get aliases (utf8 "Modo") (utf8 "Modo") = N_MODO.
Proof. vm_compute. reflexivity. Qed.
Lemma alias_email : assoc_get aliases (utf8 "E-mail") (utf8 "E-mail") = N_EMAIL.
Proof. vm_compute. reflexivity. Qed.
Lemma alias_local : assoc_get aliases (utf8 "Localização") (utf8 "Localização") = N_LOCAL.
Proof. vm_compute. reflexivity. Qed.
Lemma alias_etapas : assoc_get aliases (utf8 "Etapas") (utf8 "Etapas") = N_ETAPAS.
Proof. vm_compute. reflexivity. Qed.
Lemma alias_resultado : assoc_get aliases (utf8 "Resultado") (utf8 "Resultado") = N_RESULTADO.
Proof. vm_compute. reflexivity. Qed.
Lemma alias_duracao : assoc_get aliases (utf8 "Duração") (utf8 "Duração") = N_DURACAO.
Proof. vm_compute. reflexivity. Qed.

Lemma location_maps_nonempty cfg m :
  snd (_location_human cfg) = Some m -> py_not m = false.
Proof.
  unfold _location_human.
  destruct (COMPANY_LAT cfg) as [lat|]; [|discriminate].
  destruct (COMPANY_LON cfg) as [lon|]; [|discriminate].
  destruct (py_not lat || py_not lon); [discriminate|].
  cbn [snd]. intros H.
  assert (E : m = utf8 "https://maps.google.com/?q=" ++ py_strip lat ++ utf8 "," ++ py_strip lon)
    by congruence.
  rewrite E.
  assert (Hc : exists c r, utf8 "https://maps.google.com/?q=" = c :: r)
    by (vm_compute; eauto).
  destruct Hc as (c & r & ->). reflexivity.
Qed.

Lemma registrar_result {W} {HW : Host W} cfg fuel w r w' t :
  _registrar_ponto cfg fuel w = (Ok r, w', t) ->
  r = if PUNCH_DRY_RUN cfg then MSG_DRY_RUN else MSG_REGISTERED.
Proof.
  unfold _registrar_ponto. intros H.
  apply bind_inv_Ok in H as (b & ? & ? & ? & _ & H & _).
  destruct (PUNCH_DRY_RUN cfg).
  - apply bind_inv_Ok in H as (? & ? & ? & ? & _ & H & _).
    unfold ret in H. congruence.
  - apply bind_inv_Ok in H as (? & ? & ? & ? & _ & H & _).
    apply bind_inv_Ok in H as (? & ? & ? & ? & _ & H & _).
    unfold ret in H. congruence.
Qed.

Lemma run_inv_payload {W} {HW : Host W} cfg env fuel trigger (w : W) p w' t :
  run_rhid_punch cfg env fuel trigger w = (Ok p, w', t) ->
  exists hora took tq,
    p = build_payload cfg (default (utf8 "manual") trigger)
          (default [] (env !! "RHID_EMAIL"%string))
          (if PUNCH_DRY_RUN cfg then MSG_DRY_RUN else MSG_REGISTERED)
          hora took (isoformat tq).
Proof.
  destruct (utc_now w) as [t0 w0] eqn:Hnow.
  rewrite (run_unfold cfg env fuel trigger w t0 w0 Hnow). intros H.
  apply bind_inv_Ok in H as (d & w1 & t1 & t2 & _ & H & _).
  apply try_finally_inv_Ok in H as (w2 & t3 & t4 & H & _ & _).
  apply try_except_inv_Ok in H as [H|(e & ? & ? & ? & _ & H & _)]; [|discriminate].
  unfold punch_body in H. destruct (_ || _); [discriminate|].
  apply bind_inv_Ok in H as (? & ? & ? & ? & _ & H & _).
  apply bind_inv_Ok in H as (resultado & ? & ? & ? & Hreg & H & _).
  apply lift_inv_Ok in Hreg as (tr & Hreg & _).
  apply registrar_result in Hreg. subst resultado.
  apply bind_inv_Ok in H as (? & ? & ? & ? & _ & H & _).
  apply bind_inv_Ok in H as (? & ? & ? & ? & _ & H & _).
  apply bind_inv_Ok in H as (tq & ? & ? & ? & _ & H & _).
  unfold ret in H. injection H as <- _ _. eauto.
Qed.

Section Shown.
Variable fromisoformat_utc : pystr -> option Q.
Variable strftime_local : Q -> pystr.

(** The embed made of a payload of [build_payload]. *)
Lemma payload_rendering cfg now trigger email resultado hora took ts :
  exists loc view,
    _embed_from_embeds_dict fromisoformat_utc strftime_local now
      (build_payload cfg trigger email resultado hora took ts)
    = (None,
       {| e_title := TITLE; e_description := DESCRIPTION; e_color := 3066993;
          e_timestamp := now;
          e_fields :=
            (if py_not ts then []
             else match fromisoformat_utc (py_replace (utf8 "Z") (utf8 "+00:00") ts) with
                  | Some dt => [ {| f_name := N_HORARIO; f_value := strftime_local dt;
                                    f_inline := true |} ]
                  | None => []
                  end)
            ++ [ {| f_name := N_HORARIO; f_value := hora; f_inline := true |};
                 {| f_name := N_MODO;
                    f_value := if PUNCH_DRY_RUN cfg then utf8 "DRY RUN (simulação)"
                               else utf8 "Produção";
                    f_inline := true |};
                 {| f_name := N_EMAIL; f_value := utf8 "`" ++ email ++ utf8 "`";
                    f_inline := false |};
                 {| f_name := N_LOCAL; f_value := loc; f_inline := false |};
                 {| f_name := N_ETAPAS;
                    f_value := utf8 "login → dashboard → marcação → botão final habilitado ✔";
                    f_inline := false |};
                 {| f_name := N_RESULTADO; f_value := resultado; f_inline := false |};
                 {| f_name := N_DURACAO; f_value := took; f_inline := true |} ];
          e_footer := Some (utf8 "Trigger: " ++ trigger) |},
       view)
    /\ match COMPANY_LAT cfg, COMPANY_LON cfg with
       | Some lat, Some lon =>
         if py_not lat || py_not lon then loc = utf8 "Indefinida" /\ view = None
         else
           loc = (py_strip lat ++ utf8 ", " ++ py_strip lon ++ utf8 " (Empresa)")
                 ++ utf8 " • [Abrir no Maps]("
                 ++ (utf8 "https://maps.google.com/?q=" ++ py_strip lat ++ utf8 ","
                     ++ py_strip lon)
                 ++ utf8 ")"
           /\ view = Some (VStr (utf8 "https://maps.google.com/?q=" ++ py_strip lat
                                 ++ utf8 "," ++ py_strip lon))
       | _, _ => loc = utf8 "Indefinida" /\ view = None
       end.
Proof.
  pose proof (location_maps_nonempty cfg) as Hm.
  assert (Hloc : forall lat lon, COMPANY_LAT cfg = Some lat -> COMPANY_LON cfg = Some lon ->
            py_not lat || py_not lon = false ->
            _location_human cfg
            = (py_strip lat ++ utf8 ", " ++ py_strip lon ++ utf8 " (Empresa)",
               Some (utf8 "https://maps.google.com/?q=" ++ py_strip lat ++ utf8 ","
                     ++ py_strip lon))).
  { intros lat lon H1 H2 H3. unfold _location_human. rewrite H1, H2, H3. reflexivity. }
  assert (Hund : (COMPANY_LAT cfg = None \/ COMPANY_LON cfg = None
                  \/ exists lat lon, COMPANY_LAT cfg = Some lat /\ COMPANY_LON cfg = Some lon
                                      /\ py_not lat || py_not lon = true) ->
            _location_human cfg = (utf8 "Indefinida", None)).
  { unfold _location_human. intros [->|[->|(lat & lon & -> & -> & ->)]]; try reflexivity.
    destruct (COMPANY_LAT cfg); reflexivity. }
  unfold build_payload.
  destruct (_location_human cfg) as [loc_str maps_link] eqn:El.
  cbn [snd] in Hm.
  unfold _embed_from_embeds_dict, _parse_ts_iso_to_utc, _fmt_dt_local.
  cbn [embeds head content maps_url color fields footer_text timestamp map
       f_name f_value f_inline].
  rewrite alias_horario, alias_modo, alias_email, alias_local, alias_etapas,
    alias_resultado, alias_duracao.
  change (py_not []) with true. cbn iota.
  change (3066993 =? 0) with false. cbn iota.
  assert (Hv : match maps_link with
               | Some u => if py_not u then None else Some (VStr u)
               | None => None
               end = option_map VStr maps_link).
  { destruct maps_link as [m|]; [|reflexivity]. rewrite (Hm m eq_refl). reflexivity. }
  rewrite Hv.
  assert (Hmd : match maps_link with
                | Some m => if py_not m then [] else utf8 " • [Abrir no Maps](" ++ m ++ utf8 ")"
                | None => []
                end = match maps_link with
                      | Some m => utf8 " • [Abrir no Maps](" ++ m ++ utf8 ")"
                      | None => []
                      end).
  { destruct maps_link as [m|]; [|reflexivity]. rewrite (Hm m eq_refl). reflexivity. }
  rewrite Hmd.
  eexists _, _. split.
  - destruct (py_not ts); [reflexivity|].
    destruct (fromisoformat_utc _); reflexivity.
  - clear El Hm Hv Hmd.
    destruct (COMPANY_LAT cfg) as [lat|].
    + destruct (COMPANY_LON cfg) as [lon|].
      * destruct (py_not lat || py_not lon) eqn:E3.
        -- assert (Hx : (loc_str, maps_link) = (utf8 "Indefinida", None))
             by (apply Hund; right; right; eauto 6).
           injection Hx as -> ->. split; [apply app_nil_r|reflexivity].
        -- pose proof (Hloc lat lon eq_refl eq_refl E3) as Hx.
           injection Hx as -> ->. split; reflexivity.
      * assert (Hx : (loc_str, maps_link) = (utf8 "Indefinida", None))
          by (apply Hund; right; left; reflexivity).
        injection Hx as -> ->. split; [apply app_nil_r|reflexivity].
    + assert (Hx : (loc_str, maps_link) = (utf8 "Indefinida", None))
        by (apply Hund; left; reflexivity).
      injection Hx as -> ->. split; [apply app_nil_r|reflexivity].
Qed.

(** X17.  What the bot shows for a finished run.  The payload of
    [run_rhid_punch] is rendered with no message text, the green colour of
    the payload, the footer "Trigger: " followed by the trigger, and the
    seven fields of the payload in their order, each under its name with an
    icon: the e-mail is the value of RHID_EMAIL, and "✅ Resultado" holds
    the dry-run message or "Ponto registrado." according to PUNCH_DRY_RUN.
    Before them comes one more "🕒 Horário" field, exactly when the
    payload's timestamp (the ISO text of a clock reading) is not empty and
    parses with its "Z" read as "+00:00"; it holds that instant in the
    local zone, so that the time is then shown twice.  The "Abrir no Maps"
    button is there, with the link in the "📍 Localização" field, exactly
    when COMPANY_LAT and COMPANY_LON are both set and not empty; its
    address is "https://maps.google.com/?q=" followed by the two values,
    stripped, with a comma between them. *)
Theorem finished_run_rendering {W} {HW : Host W} cfg env fuel trigger w p w' t now :
  run_rhid_punch cfg env fuel trigger w = (Ok p, w', t) ->
  exists hora took tq loc view,
    _embed_from_embeds_dict fromisoformat_utc strftime_local now p
    = (None,
       {| e_title := TITLE; e_description := DESCRIPTION; e_color := 3066993;
          e_timestamp := now;
          e_fields :=
            (if py_not (isoformat tq) then []
             else match fromisoformat_utc
                          (py_replace (utf8 "Z") (utf8 "+00:00") (isoformat tq)) with
                  | Some dt => [ {| f_name := N_HORARIO; f_value := strftime_local dt;
                                    f_inline := true |} ]
                  | None => []
                  end)
            ++ [ {| f_name := N_HORARIO; f_value := hora; f_inline := true |};
                 {| f_name := N_MODO;
                    f_value := if PUNCH_DRY_RUN cfg then utf8 "DRY RUN (simulação)"
                               else utf8 "Produção";
                    f_inline := true |};
                 {| f_name := N_EMAIL;
                    f_value := utf8 "`" ++ default [] (env !! "RHID_EMAIL"%string) ++ utf8 "`";
                    f_inline := false |};
                 {| f_name := N_LOCAL; f_value := loc; f_inline := false |};
                 {| f_name := N_ETAPAS;
                    f_value := utf8 "login → dashboard → marcação → botão final habilitado ✔";
                    f_inline := false |};
                 {| f_name := N_RESULTADO;
                    f_value := if PUNCH_DRY_RUN cfg then MSG_DRY_RUN else MSG_REGISTERED;
                    f_inline := false |};
                 {| f_name := N_DURACAO; f_value := took; f_inline := true |} ];
          e_footer := Some (utf8 "Trigger: " ++ default (utf8 "manual") trigger) |},
       view)
    /\ match COMPANY_LAT cfg, COMPANY_LON cfg with
       | Some lat, Some lon =>
         if py_not lat || py_not lon then loc = utf8 "Indefinida" /\ view = None
         else
           loc = (py_strip lat ++ utf8 ", " ++ py_strip lon ++ utf8 " (Empresa)")
                 ++ utf8 " • [Abrir no Maps]("
                 ++ (utf8 "https://maps.google.com/?q=" ++ py_strip lat ++ utf8 ","
                     ++ py_strip lon)
                 ++ utf8 ")"
           /\ view = Some (VStr (utf8 "https://maps.google.com/?q=" ++ py_strip lat
                                 ++ utf8 "," ++ py_strip lon))
       | _, _ => loc = utf8 "Indefinida" /\ view = None
       end.
Proof.
  intros H. apply run_inv_payload in H as (hora & took & tq & ->).
  destruct (payload_rendering cfg now (default (utf8 "manual") trigger)
              (default [] (env !! "RHID_EMAIL"%string))
              (if PUNCH_DRY_RUN cfg then MSG_DRY_RUN else MSG_REGISTERED) hora took
              (isoformat tq)) as (loc & view & E & Hl).
  exists hora, took, tq, loc, view. split; [exact E|exact Hl].
Qed.

Variable strptime_utc : pystr -> option Q.
Variable float_str format_1f : Q -> pystr.

Lemma sublist_one {A} (l : list A) x : l = [] \/ l = [x] -> sublist l [x].
Proof. intros [-> | ->]; [apply sublist_nil_l|reflexivity]. Qed.

(** X18.  A "card" dict is rendered with no message text, the blue colour,
    and the fields Horário, Modo and E-mail always there, followed by some
    of Localização, Etapas, Resultado and Duração in that order.  The time
    shown is the first that parses of "hora_iso", "timestamp" (both ISO)
    and "hora" (day/month/year, " UTC" removed), each looked at only when
    it is a string; when none does, the current time is shown instead. *)
Theorem card_rendering now now' d :
  exists shown rest,
    _embed_from_card_dict fromisoformat_utc strptime_utc strftime_local float_str
      format_1f now now' d
    = (None,
       {| e_title := TITLE; e_description := DESCRIPTION; e_color := 4886754;
          e_timestamp := now;
          e_fields :=
            {| f_name := N_HORARIO; f_value := strftime_local shown; f_inline := true |}
            :: {| f_name := N_MODO;
                  f_value := py_str float_str (default (VStr (utf8 "-")) (d !! "modo"%string));
                  f_inline := true |}
            :: {| f_name := N_EMAIL;
                  f_value := py_str float_str (default (VStr (utf8 "-")) (d !! "email"%string));
                  f_inline := false |}
            :: rest;
          e_footer :=
            Some (utf8 "Trigger: "
                  ++ py_str float_str (default (VStr (utf8 "button")) (d !! "trigger"%string))) |},
       if truthy_val (dict_get d "maps_url") then Some (dict_get d "maps_url") else None)
    /\ sublist (map f_name rest) [N_LOCAL; N_ETAPAS; N_RESULTADO; N_DURACAO]
    /\ (forall s dt, get_str d "hora_iso" = Some s ->
          _parse_ts_iso_to_utc fromisoformat_utc s = Some dt -> shown = dt)
    /\ (get_str d "hora_iso" ≫= _parse_ts_iso_to_utc fromisoformat_utc = None ->
        (forall s dt, get_str d "timestamp" = Some s ->
           _parse_ts_iso_to_utc fromisoformat_utc s = Some dt -> shown = dt)
        /\ (get_str d "timestamp" ≫= _parse_ts_iso_to_utc fromisoformat_utc = None ->
            (forall s dt, get_str d "hora" = Some s ->
               _try_parse_card_hora_to_utc strptime_utc s = Some dt -> shown = dt)
            /\ (get_str d "hora" ≫= _try_parse_card_hora_to_utc strptime_utc = None ->
                shown = now'))).
Proof.
  unfold _embed_from_card_dict. eexists _, _. split; [reflexivity|]. split.
  - rewrite !map_app.
    change [N_LOCAL; N_ETAPAS; N_RESULTADO; N_DURACAO]
      with ([N_LOCAL] ++ [N_ETAPAS] ++ [N_RESULTADO] ++ [N_DURACAO]).
    repeat apply sublist_app; apply sublist_one.
    + destruct (dict_get d "lat"), (dict_get d "lon"); auto.
    + destruct (truthy_val (dict_get d "etapas")); auto.
    + destruct (truthy_val (dict_get d "resultado")); auto.
    + destruct (dict_get d "duracao"); auto.
  - destruct (get_str d "hora_iso" ≫= _parse_ts_iso_to_utc fromisoformat_utc)
      as [dt0|] eqn:E0.
    { split; [|discriminate]. intros s dt Hs Hp. rewrite Hs in E0. cbn in E0, Hp |- *.
      congruence. }
    split; [intros s dt Hs Hp; rewrite Hs in E0; cbn in E0; congruence|]. intros _.
    destruct (get_str d "timestamp" ≫= _parse_ts_iso_to_utc fromisoformat_utc)
      as [dt1|] eqn:E1.
    { split; [|discriminate]. intros s dt Hs Hp. rewrite Hs in E1. cbn in E1, Hp |- *.
      congruence. }
    split; [intros s dt Hs Hp; rewrite Hs in E1; cbn in E1; congruence|]. intros _.
    destruct (get_str d "hora" ≫= _try_parse_card_hora_to_utc strptime_utc)
      as [dt2|] eqn:E2.
    { split; [|discriminate]. intros s dt Hs Hp. rewrite Hs in E2. cbn in E2, Hp |- *.
      congruence. }
    split; [intros s dt Hs Hp; rewrite Hs in E2; cbn in E2; congruence|]. reflexivity.
Qed.

End Shown.

Lemma finished_run_rendering_witness :
  exists p w' t,
    @run_rhid_punch sim (sim_host healthy) (cfg0 true) env0 240 (Some (utf8 "button")) sim0
    = (Ok p, w', t)
    /\ exists E,
         _embed_from_embeds_dict
           (fun s => if bool_decide (s = utf8 "2025-10-03T16:52:33+00:00")
                     then Some 1759510353%Q else None)
           (fun _ => utf8 "03/10/2025 13:52:33 -03") 0%Q p
         = (None, E,
            Some (VStr (utf8 "https://maps.google.com/?q=-23.55,-46.63")))
         /\ map f_name (e_fields E)
            = [N_HORARIO; N_HORARIO; N_MODO; N_EMAIL; N_LOCAL; N_ETAPAS; N_RESULTADO;
               N_DURACAO].
Proof.
  assert (Hr : exists p, fst (fst (@run_rhid_punch sim (sim_host healthy)
                 (cfg0 true) env0 240 (Some (utf8 "button")) sim0)) = Ok p).
  { vm_compute. eexists. reflexivity. }
  destruct Hr as [p Hr].
  destruct (@run_rhid_punch sim (sim_host healthy) (cfg0 true) env0 240
              (Some (utf8 "button")) sim0) as [[r w1] t1] eqn:E.
  simpl in Hr. subst r.
  exists p, w1, t1. split; [reflexivity|].
  destruct (@finished_run_rendering
              (fun s => if bool_decide (s = utf8 "2025-10-03T16:52:33+00:00")
                        then Some 1759510353%Q else None)
              (fun _ => utf8 "03/10/2025 13:52:33 -03")
              sim (sim_host healthy) (cfg0 true) env0 240
              (Some (utf8 "button")) sim0 p w1 t1 0%Q E)
    as (hora & took & tq & loc & view & Hx & Hl).
  assert (Hv : view = Some (VStr (utf8 "https://maps.google.com/?q=-23.55,-46.63"))).
  { revert Hl. clear. intros Hl. cbn [cfg0 COMPANY_LAT COMPANY_LON] in Hl.
    assert (Hn : py_not (utf8 " -23.55 ") || py_not (utf8 "-46.63") = false)
      by (vm_compute; reflexivity).
    rewrite Hn in Hl. destruct Hl as [_ ->]. vm_compute. reflexivity. }
  subst view. eexists. split; [exact Hx|].
  clear. vm_compute. reflexivity.
Defined.

End RenderFacts.
